(** * kernel.js: ECDSA and session-key validators, kernel account

    A shallow embedding of the client-side signing logic of kernel.js:
    the session-key permission matcher and its Merkle commitment
    (signerToSessionKeyValidator), the permissions generated from an ABI
    (getPermissionFromABI), the ECDSA validator (signerToEcdsaValidator),
    signature normalisation (fixSignedData) and the kernel account
    (createKernelAccount).

    JavaScript strings are [string]s of code units (all strings handled
    here are ASCII: hex data and addresses), bigints and non-negative
    numbers are [N], thrown errors are the [Err] case of [Result]. *)

From Stdlib Require Import Bool Ascii String NArith List Arith Lia.
From Stdlib Require Import Sorting.Permutation Sorting.Sorted.
Import ListNotations.

Local Open Scope string_scope.
Local Open Scope N_scope.

(** ** Thrown errors *)

Inductive Error : Type :=
| InvalidArguments            (* Error("Invalid arguments") *)
| NoMatchingPermission        (* "SessionKeyValidator: No matching permission found for the userOp" *)
| EnableSignatureNotSet       (* Error("Enable signature not set") *)
| KernelAccountAddressNotProvided (* Error("Kernel account address not provided") *)
| InvalidSignedData           (* Error(`Invalid signed data ${sig}`) *)
| NotImplemented              (* Error("Not implemented") *)
| InvalidExecutorData         (* Error("Invalid executor data") *)
| AccountAddressNotFound      (* Error("Account address not found") *)
| OwnerAccountNotFound        (* Error("Owner account not found") *)
| ChainNotFound               (* Error("Chain not found") *)
| SignTransactionNotSupportedBySmartAccount
| SizeExceedsPaddingSize      (* viem pad *)
| IntegerOutOfRange           (* viem numberToHex *)
| SyntaxError                 (* BigInt of a malformed literal *)
| InvalidCurveSignature       (* noble-curves Signature validity *)
| TypeError                   (* call of a missing method *)
| RangeError                  (* BigInt of a number that is not an integer *)
| ExternalError (reason : string). (* an error thrown by a collaborator *)

Inductive Result (A : Type) : Type :=
| Ok (a : A)
| Err (e : Error).
Arguments Ok {A} a.
Arguments Err {A} e.

Definition bind {A B : Type} (r : Result A) (k : A -> Result B) : Result B :=
  match r with
  | Ok a => k a
  | Err e => Err e
  end.

Notation "x <- r ;; k" := (bind r (fun x => k))
  (at level 61, r at next level, right associativity).

Definition isOk {A : Type} (r : Result A) : bool :=
  match r with Ok _ => true | Err _ => false end.

(** What a collaborator outside the repository hands back: a value, or a
    rejection (a thrown error of its own). *)
Inductive Outcome (A : Type) : Type :=
| Resolved (a : A)
| Rejected (reason : string).
Arguments Resolved {A} a.
Arguments Rejected {A} reason.

Definition await {A : Type} (p : Outcome A) : Result A :=
  match p with
  | Resolved a => Ok a
  | Rejected reason => Err (ExternalError reason)
  end.

(** try { ... } catch (error) { return undefined } *)
Definition catchUndefined {A : Type} (r : Result (option A)) : option A :=
  match r with
  | Ok o => o
  | Err _ => None
  end.

(** ** JavaScript strings and viem's hex helpers *)

Definition Hex := string.
Definition Address := string.

Module Js.

Definition isUpper (c : ascii) : bool :=
  (65 <=? N_of_ascii c) && (N_of_ascii c <=? 90).

Definition lowerChar (c : ascii) : ascii :=
  if isUpper c then ascii_of_N (N_of_ascii c + 32) else c.

(** String.prototype.toLowerCase on ASCII strings. *)
Fixpoint toLowerCase (s : string) : string :=
  match s with
  | EmptyString => EmptyString
  | String c s' => String (lowerChar c) (toLowerCase s')
  end.

(** s.slice(a, b) for 0 <= a and 0 <= b. *)
Definition slice (a b : nat) (s : string) : string :=
  substring a (b - a) s.

(** s.slice(a) for 0 <= a. *)
Definition sliceFrom (a : nat) (s : string) : string :=
  substring a (String.length s) s.

Fixpoint repeatChar (c : ascii) (n : nat) : string :=
  match n with
  | O => EmptyString
  | S n' => String c (repeatChar c n')
  end.

(** s.padStart(n, c) with a one-character filler. *)
Definition padStart (n : nat) (c : ascii) (s : string) : string :=
  repeatChar c (n - String.length s) ++ s.

(** The relational operators on two strings compare code units. *)
Definition lt (a b : string) : bool := String.ltb a b.
Definition gt (a b : string) : bool := String.ltb b a.
Definition le (a b : string) : bool := negb (String.ltb b a).
Definition ge (a b : string) : bool := negb (String.ltb a b).
Definition strictEq (a b : string) : bool := String.eqb a b.

Definition hexDigitValue (c : ascii) : option N :=
  let n := N_of_ascii c in
  if (48 <=? n) && (n <=? 57) then Some (n - 48)
  else if (97 <=? n) && (n <=? 102) then Some (n - 87)
  else if (65 <=? n) && (n <=? 70) then Some (n - 55)
  else None.

Definition isHexDigit (c : ascii) : bool :=
  match hexDigitValue c with Some _ => true | None => false end.

Fixpoint allHexDigits (s : string) : bool :=
  match s with
  | EmptyString => true
  | String c s' => isHexDigit c && allHexDigits s'
  end.

Definition digitValue (c : ascii) : N :=
  match hexDigitValue c with Some d => d | None => 0 end.

(** Value of a run of hexadecimal digits, most significant first. *)
Fixpoint hexValueFrom (acc : N) (s : string) : N :=
  match s with
  | EmptyString => acc
  | String c s' => hexValueFrom (acc * 16 + digitValue c) s'
  end.

Definition hexValue (s : string) : N := hexValueFrom 0 s.

Definition hexDigit (d : N) : ascii :=
  if d <? 10 then ascii_of_N (48 + d) else ascii_of_N (87 + d).

Fixpoint toString16From (fuel : nat) (v : N) (acc : string) : string :=
  match fuel with
  | O => acc
  | S fuel' =>
      let acc' := String (hexDigit (v mod 16)) acc in
      if v <? 16 then acc' else toString16From fuel' (v / 16) acc'
  end.

(** value.toString(16) of a non-negative bigint: a value has at most
    log2 v + 1 hexadecimal digits, and at least one. *)
Definition toString16 (v : N) : string :=
  toString16From (S (N.to_nat (N.log2 v))) v EmptyString.

(** The [n] low hexadecimal digits of [v], most significant first:
    v.toString(16).padStart(n, "0") whenever v < 16^n. *)
Fixpoint hexFixed (n : nat) (v : N) : string :=
  match n with
  | O => EmptyString
  | S n' => hexFixed n' (v / 16) ++ String (hexDigit (v mod 16)) EmptyString
  end.

(** BigInt(`0x${digits}`): a SyntaxError unless [digits] is a non-empty
    run of hexadecimal digits. *)
Definition BigInt0x (digits : string) : Result N :=
  match digits with
  | EmptyString => Err SyntaxError
  | _ => if allHexDigits digits then Ok (hexValue digits) else Err SyntaxError
  end.

End Js.

Module Viem.

Import Js.

(** isHex(value): /^0x[0-9a-fA-F]*$/ *)
Definition isHex (s : string) : bool :=
  match s with
  | String "0" (String "x" rest) => allHexDigits rest
  | _ => false
  end.

(** hex.replace("0x", "") on a string that carries the prefix at most
    at its start, as every [Hex] does. *)
Definition strip0x (s : string) : string :=
  match s with
  | String "0" (String "x" rest) => rest
  | _ => s
  end.

(** pad(hex, { size }) (left padding). *)
Definition pad (h : Hex) (size : nat) : Result Hex :=
  let hex := strip0x h in
  if (size * 2 <? String.length hex)%nat then Err SizeExceedsPaddingSize
  else Ok ("0x" ++ padStart (size * 2) "0" hex).

(** toHex(n) / numberToHex(n) without a size. *)
Definition numberToHex (v : N) : Hex := "0x" ++ toString16 v.

(** numberToHex(n, { size }). *)
Definition numberToHexSized (v : N) (size : nat) : Result Hex :=
  if 2 ^ (N.of_nat size * 8) - 1 <? v then Err IntegerOutOfRange
  else pad (numberToHex v) size.

Definition byteToHex (c : ascii) : string :=
  let n := N_of_ascii c in
  String (hexDigit (n / 16)) (String (hexDigit (n mod 16)) EmptyString).

Fixpoint bytesToHexDigits (s : string) : string :=
  match s with
  | EmptyString => EmptyString
  | String c s' => byteToHex c ++ bytesToHexDigits s'
  end.

(** toHex(str) / stringToHex(str) on an ASCII string. *)
Definition stringToHex (s : string) : Hex := "0x" ++ bytesToHexDigits s.

(** concat([h1, h2, ...]) on hex values. *)
Definition concat (hs : list Hex) : Hex :=
  "0x" ++ fold_left (fun acc x => acc ++ strip0x x) hs "".

(** hexToBigInt(hex) = BigInt(hex). *)
Definition hexToBigInt (h : Hex) : Result N :=
  match h with
  | String "0" (String "x" rest) => BigInt0x rest
  | _ => Err SyntaxError
  end.

Definition zeroAddress : Address := "0x0000000000000000000000000000000000000000".

End Viem.

(** ** Signatures (viem hexToSignature / signatureToHex over noble-curves) *)

Module Sig.

Import Js Viem.

Record Signature : Type := { r : Hex; s : Hex; v : N }.

(** Order of the secp256k1 group. *)
Definition CURVE_n : N :=
  0xFFFFFFFFFFFFFFFFFFFFFFFFFFFFFFFEBAAEDCE6AF48A03BBFD25E8CD0364141.

Definition isWithinCurveOrder (x : N) : bool := (0 <? x) && (x <? CURVE_n).

(** secp256k1.Signature.fromCompact(hex): 64 bytes of hex, then the
    validity check of the Signature constructor. *)
Definition fromCompact (hex : string) : Result (N * N) :=
  if (String.length hex =? 128)%nat && allHexDigits hex then
    let r := hexValue (slice 0 64 hex) in
    let s := hexValue (slice 64 128 hex) in
    if isWithinCurveOrder r && isWithinCurveOrder s then Ok (r, s)
    else Err InvalidCurveSignature
  else Err InvalidCurveSignature.

(** new secp256k1.Signature(r, s).toCompactHex() *)
Definition toCompactHex (r s : N) : Result string :=
  if isWithinCurveOrder r && isWithinCurveOrder s then
    Ok (padStart 64 "0" (toString16 r) ++ padStart 64 "0" (toString16 s))
  else Err InvalidCurveSignature.

Definition hexToSignature (signatureHex : Hex) : Result Signature :=
  rs <- fromCompact (slice 2 130 signatureHex) ;;
  v <- BigInt0x (sliceFrom 130 signatureHex) ;;
  r <- numberToHexSized (fst rs) 32 ;;
  s <- numberToHexSized (snd rs) 32 ;;
  Ok {| r := r; s := s; v := v |}.

Definition signatureToHex (sg : Signature) : Result Hex :=
  r <- hexToBigInt (r sg) ;;
  s <- hexToBigInt (s sg) ;;
  compact <- toCompactHex r s ;;
  Ok ("0x" ++ compact ++ sliceFrom 2 (numberToHex (v sg))).

End Sig.

(** if (v === 0n || v === 1n) v += 27n *)
Definition normalisedV (v : N) : N :=
  if (v =? 0) || (v =? 1) then v + 27 else v.

(** export const fixSignedData *)
Definition fixSignedData (sig : Hex) : Result Hex :=
  signature <-
    (if Viem.isHex sig then Ok sig
     else
       let signature := "0x" ++ sig in
       if Viem.isHex signature then Ok signature else Err InvalidSignedData) ;;
  sg <- Sig.hexToSignature signature ;;
  Sig.signatureToHex
    {| Sig.r := Sig.r sg; Sig.s := Sig.s sg; Sig.v := normalisedV (Sig.v sg) |}.

(** ** Merkle trees (merkletreejs)

    Buffers are represented by their hex rendering ([bufferToHex]); the
    hash function is the one handed to the constructor. The [complete]
    option of the sentinel tree only changes how the first layer above more
    than one leaf is paired, so a single-leaf tree does not depend on it. *)

Module MerkleTreeJs.

Section WithHash.

Variable hashFn : Hex -> Hex.

Definition bufferify (x : Hex) : Hex :=
  "0x" ++ Js.toLowerCase (Viem.strip0x x).

(** combined.sort(Buffer.compare) on a pair of buffers. *)
Definition sortPair (lhs rhs : Hex) : Hex * Hex :=
  if Js.lt rhs lhs then (rhs, lhs) else (lhs, rhs).

Definition hashPair (sortPairs : bool) (lhs rhs : Hex) : Hex :=
  let combined := if sortPairs then sortPair lhs rhs else (lhs, rhs) in
  bufferify (hashFn (Viem.concat [fst combined; snd combined])).

(** One pass of the for loop of createHashes: pairs are hashed, an odd
    last node is pushed as it is (duplicateOdd is off). *)
Fixpoint nextLayer (sortPairs : bool) (nodes : list Hex) : list Hex :=
  match nodes with
  | [] => []
  | [x] => [x]
  | lhs :: rhs :: rest =>
      hashPair sortPairs lhs rhs :: nextLayer sortPairs rest
  end.

(** while (nodes.length > 1) { ... }: the layers, leaves first. *)
Fixpoint createHashes (fuel : nat) (sortPairs : bool) (nodes : list Hex)
  : list (list Hex) :=
  nodes ::
    match fuel with
    | O => []
    | S fuel' =>
        if (1 <? List.length nodes)%nat
        then createHashes fuel' sortPairs (nextLayer sortPairs nodes)
        else []
    end.

Record MerkleTree : Type := {
  leaves : list Hex;
  layers : list (list Hex)
}.

(** new MerkleTree(leaves, hashFn, { sortPairs, hashLeaves }) *)
Definition new (input : list Hex) (sortPairs hashLeaves : bool) : MerkleTree :=
  let ls :=
    map bufferify (if hashLeaves then map hashFn input else input) in
  {| leaves := ls;
     layers := createHashes (List.length ls) sortPairs ls |}.

(** getHexRoot(): the first node of the last layer, or the empty buffer. *)
Definition getHexRoot (t : MerkleTree) : Hex :=
  match last (layers t) [] with
  | root :: _ => root
  | [] => "0x"
  end.

Fixpoint lastIndexFrom (i : nat) (found : option nat) (leaf : Hex)
  (ls : list Hex) : option nat :=
  match ls with
  | [] => found
  | x :: rest =>
      lastIndexFrom (S i) (if String.eqb x leaf then Some i else found) leaf rest
  end.

Fixpoint proofFrom (index : nat) (ls : list (list Hex)) : list Hex :=
  match ls with
  | [] => []
  | layer :: rest =>
      let pairIndex := if Nat.odd index then (index - 1)%nat else (index + 1)%nat in
      match nth_error layer pairIndex with
      | Some sibling => sibling :: proofFrom (Nat.div2 index) rest
      | None => proofFrom (Nat.div2 index) rest
      end
  end.

(** getHexProof(leaf) *)
Definition getHexProof (t : MerkleTree) (leaf : Hex) : list Hex :=
  match lastIndexFrom 0 None (bufferify leaf) (leaves t) with
  | None => []
  | Some index => proofFrom index (layers t)
  end.

End WithHash.

End MerkleTreeJs.

(** ** Data model of the session-key validator *)

Inductive Operation : Type := Call | DelegateCall.

Inductive ParamOperator : Type :=
| EQUAL
| GREATER_THAN
| LESS_THAN
| GREATER_THAN_OR_EQUAL
| LESS_THAN_OR_EQUAL
| NOT_EQUAL.

Record ExecutionRule : Type := {
  rule_validAfter : N;
  interval : N;
  runs : N
}.

Record ParamRules : Type := {
  offset : nat;
  condition : ParamOperator;
  param : Hex
}.

(** A permission as the caller writes it (optional fields). *)
Record PermissionInput : Type := {
  in_target : Address;
  in_rules : option (list ParamRules);
  in_sig : option Hex;
  in_valueLimit : option N;
  in_executionRule : option ExecutionRule;
  in_operation : option Operation
}.

(** A permission of sessionKeyData.permissions: the constructor fills in
    every optional field, so the later [?? default] are the identity. *)
Record Permission : Type := {
  target : Address;
  index : nat;
  rules : list ParamRules;
  sig : Hex;
  valueLimit : N;
  executionRule : ExecutionRule;
  operation : Operation
}.

Record SessionKeyDataInput : Type := {
  in_validUntil : option N;
  in_validAfter : option N;
  in_paymaster : option Address;
  in_permissions : option (list PermissionInput)
}.

Record SessionKeyData : Type := {
  validUntil : N;
  validAfter : N;
  paymaster : Address;
  permissions : list Permission
}.

Record ExecutorData : Type := {
  executor : Address;
  selector : Hex;
  exec_validUntil : N;
  exec_validAfter : N
}.

Inductive ValidatorMode : Type := sudo | plugin | enable.

Record UserOperation : Type := {
  sender : Address;
  nonce : N;
  initCode : Hex;
  callData : Hex;
  callGasLimit : N;
  verificationGasLimit : N;
  preVerificationGas : N;
  maxFeePerGas : N;
  maxPriorityFeePerGas : N;
  paymasterAndData : Hex;
  signature : Hex
}.

(** { ...userOperation, signature } *)
Definition withSignature (op : UserOperation) (sg : Hex) : UserOperation :=
  {| sender := sender op; nonce := nonce op; initCode := initCode op;
     callData := callData op; callGasLimit := callGasLimit op;
     verificationGasLimit := verificationGasLimit op;
     preVerificationGas := preVerificationGas op;
     maxFeePerGas := maxFeePerGas op;
     maxPriorityFeePerGas := maxPriorityFeePerGas op;
     paymasterAndData := paymasterAndData op; signature := sg |}.

(** A signer: its address and its raw-message signing. *)
Record Signer : Type := {
  address : Address;
  signMessage : Hex -> Outcome Hex
}.

(** The chain client: client.chain?.id, getChainId and the read of
    SessionKeyValidator.nonces(account) at a validator address. *)
Record Client : Type := {
  chain : option N;
  getChainId : Outcome N;
  readNonces : Address -> Address -> Outcome (N * N)
}.

Record SessionKeyValidatorData : Type := {
  sessionKey : Address;
  sessionKeyData : option SessionKeyDataInput
}.

(** One call of a batch / one transaction request: to, value and data.
    [callType] is a property a request object may carry besides ("call" |
    "delegatecall", as the repository's test passes it);
    createKernelAccount.ts does not name it. *)
Inductive CallType : Type := call | delegatecall.

Record Tx : Type := {
  to : Address;
  value : N;
  data : Hex;
  callType : option CallType
}.

(** Function calls handed to encodeFunctionData / returned by
    decodeFunctionData. *)
Inductive FunctionCall : Type :=
| initialize (validator : Address) (enableData : Hex)
| createAccount (implementation : Address) (initData : Hex) (accountIndex : N)
| execute (to : Address) (value : N) (data : Hex) (operation : N)
| executeBatch (calls : list (Address * N * Hex))
| executeDelegateCall (to : Address) (data : Hex)
| otherFunction (functionName : string).

(** Arguments of encodePermissionData's encodeAbiParameters call: the
    permission ("tuple") or permissions ("tuple[]"), and the Merkle proof
    with the ABI type chosen for it. *)
Inductive PermissionValue : Type :=
| OnePermission (p : Permission)
| PermissionArray (ps : list Permission).

Inductive MerkleProof : Type :=
| FlatProof (proof : list Hex)              (* string[] *)
| NestedProof (proofs : list (list Hex)).   (* string[][] *)

Inductive ProofType : Type := bytes32Array | bytes32ArrayArray.

(** ** Collaborators outside the repository *)

Class Externals : Type := {
  keccak256 : Hex -> Hex;
  getFunctionSelector : string -> Hex;
  encodeAbiParameters : PermissionValue -> option (ProofType * MerkleProof) -> Hex;
  encodeFunctionData : FunctionCall -> Hex;
  decodeFunctionData : Hex -> Outcome FunctionCall;
  getUserOperationHash : UserOperation -> Address -> N -> Hex;
  getSenderAddress : Client -> Hex -> Address -> Outcome Address;
  (* declared in modules of the repository that are not part of src/ *)
  modeHex : ValidatorMode -> Hex;
  SESSION_KEY_VALIDATOR_ADDRESS : Address;
  ECDSA_VALIDATOR_ADDRESS : Address;
  DUMMY_ECDSA_SIG : Hex
}.

Definition ENTRYPOINT_V0_6 : Address := "0x5FF137D4b0FDCD49DcA30c7CF57E578a026d2789".
Definition FACTORY_ADDRESS : Address := "0x5de4839a76cf55d0c90e2061ef4386d962E15ae3".
Definition ACCOUNT_V2_3_LOGIC : Address := "0xD3F582F6B4814E989Ee8E96bc3175320B5A540ab".

(** pad("0x", { size: 4 }) and pad("0x00", { size: 32 }) *)
Definition emptySelector : Hex := "0x00000000".
Definition zeroWord : Hex :=
  "0x0000000000000000000000000000000000000000000000000000000000000000".

Definition MAX_SAFE_INTEGER : N := 9007199254740991.

(** toHex(n) on a JavaScript number. *)
Definition toHexNumber (n : N) : Result Hex :=
  if MAX_SAFE_INTEGER <? n then Err IntegerOutOfRange else Ok (Viem.numberToHex n).

(** pad(toHex(n), { size }) *)
Definition padNumber (n : N) (size : nat) : Result Hex :=
  h <- toHexNumber n ;; Viem.pad h size.

(** hex.length / 2 - 1 as an argument of toHex: an integer only for a hex
    string of even length. *)
Definition byteLength (h : Hex) : Result N :=
  if Nat.even (String.length h)
  then Ok (N.of_nat (Nat.div2 (String.length h) - 1))
  else Err RangeError.

Fixpoint mapM {A B : Type} (f : A -> Result B) (l : list A) : Result (list B) :=
  match l with
  | [] => Ok []
  | a :: l' => b <- f a ;; bs <- mapM f l' ;; Ok (b :: bs)
  end.

(** xs.every(x => x !== undefined) ? xs : undefined *)
Fixpoint allDefined {A : Type} (l : list (option A)) : option (list A) :=
  match l with
  | [] => Some []
  | Some a :: l' => option_map (cons a) (allDefined l')
  | None :: _ => None
  end.

Definition isEmpty {A : Type} (l : list A) : bool :=
  match l with [] => true | _ => false end.

(** The falsy strings: undefined and the empty string. *)
Definition truthy (o : option string) : option string :=
  match o with
  | Some EmptyString => None
  | _ => o
  end.

(** ** The permission matcher *)

(** permissions.filter(p => p.operation === operation || Operation.Call === operation) *)
Definition operationEq (a b : Operation) : bool :=
  match a, b with
  | Call, Call | DelegateCall, DelegateCall => true
  | _, _ => false
  end.

Definition filterByOperation (permissions : list Permission) (operation_ : Operation)
  : list Permission :=
  filter (fun permission =>
            operationEq (operation permission) operation_ || operationEq Call operation_)
         permissions.

Definition filterBySignature (permissions : list Permission) (signature_ : string)
  : list Permission :=
  filter (fun permission => Js.strictEq (Js.toLowerCase (sig permission)) signature_)
         permissions.

(** getFormattedHex *)
Definition getFormattedHex (value_ : string) : Result Hex :=
  h <- Viem.pad (if Viem.isHex value_ then value_ else Viem.stringToHex value_) 32 ;;
  Ok (Js.toLowerCase h).

Definition evaluateRuleCondition (dataParam ruleParam : Hex) (condition_ : ParamOperator)
  : bool :=
  match condition_ with
  | EQUAL => Js.strictEq dataParam ruleParam
  | GREATER_THAN => Js.gt dataParam ruleParam
  | LESS_THAN => Js.lt dataParam ruleParam
  | GREATER_THAN_OR_EQUAL => Js.ge dataParam ruleParam
  | LESS_THAN_OR_EQUAL => Js.le dataParam ruleParam
  | NOT_EQUAL => negb (Js.strictEq dataParam ruleParam)
  end.

(** The comparison the specification gives for an operator: the two
    32-byte words as big-endian unsigned integers. *)
Definition spec_compare (condition_ : ParamOperator) (x y : N) : bool :=
  match condition_ with
  | EQUAL => x =? y
  | GREATER_THAN => y <? x
  | LESS_THAN => x <? y
  | GREATER_THAN_OR_EQUAL => y <=? x
  | LESS_THAN_OR_EQUAL => x <=? y
  | NOT_EQUAL => negb (x =? y)
  end.

(** data.slice(10 + rule.offset * 2, 10 + rule.offset * 2 + 64) *)
Definition dataWord (data_ : string) (rule : ParamRules) : string :=
  Js.slice (10 + offset rule * 2) (10 + offset rule * 2 + 64) data_.

(** The body of the callback of findPermissionByRule: the loop over the
    rules of one permission. *)
Fixpoint rulesPass (rs : list ParamRules) (data_ : string) : Result bool :=
  match rs with
  | [] => Ok true
  | rule :: rest =>
      dataParam <- getFormattedHex ("0x" ++ dataWord data_ rule) ;;
      ruleParam <- getFormattedHex (param rule) ;;
      if evaluateRuleCondition dataParam ruleParam (condition rule)
      then rulesPass rest data_
      else Ok false
  end.

(** The specification's reading of one rule and of a rule list: the word
    of the call data at the rule's offset against the rule's parameter. *)
Definition spec_ruleHolds (data_ : string) (rule : ParamRules) : bool :=
  spec_compare (condition rule)
    (Js.hexValue (dataWord data_ rule))
    (Js.hexValue (Viem.strip0x (param rule))).

Definition spec_permissionPasses (data_ : string) (permission : Permission) : bool :=
  forallb (spec_ruleHolds data_) (rules permission).

(** permissions.find(callback) *)
Fixpoint findPermissionByRule (permissions_ : list Permission) (data_ : string)
  : Result (option Permission) :=
  match permissions_ with
  | [] => Ok None
  | permission :: rest =>
      pass <- rulesPass (rules permission) data_ ;;
      if pass then Ok (Some permission) else findPermissionByRule rest data_
  end.

(** Array.prototype.sort with the comparator of filterPermissions: a
    stable sort by descending valueLimit. *)
Fixpoint insertByValueLimit (a : Permission) (l : list Permission) : list Permission :=
  match l with
  | [] => [a]
  | b :: l' =>
      if valueLimit a <? valueLimit b then b :: insertByValueLimit a l'
      else a :: b :: l'
  end.

Definition sortByValueLimit (l : list Permission) : list Permission :=
  fold_right insertByValueLimit [] l.

(** The callback of targets.map in filterPermissions, on one
    (target, dataArray[index], values[index]). *)
Definition filterOne (permissionsList : list Permission)
  (call_ : Address * (Hex * N)) : Result (option Permission) :=
  let '(target_, (data_, value_)) := call_ in
  if isEmpty permissionsList then Ok None else
  let targetToMatch := Js.toLowerCase target_ in
  let targetPermissions :=
    filter (fun permission =>
              Js.strictEq (Js.toLowerCase (target permission)) targetToMatch
              || Js.strictEq (Js.toLowerCase (target permission))
                             (Js.toLowerCase Viem.zeroAddress))
           permissionsList in
  if isEmpty targetPermissions then Ok None else
  let operationPermissions := filterByOperation targetPermissions Call in
  if isEmpty operationPermissions then Ok None else
  let signaturePermissions :=
    filterBySignature targetPermissions (Js.toLowerCase (Js.slice 0 10 data_)) in
  let valueLimitPermissions :=
    filter (fun permission => value_ <=? valueLimit permission) signaturePermissions in
  if isEmpty valueLimitPermissions then Ok None else
  let sortedPermissions := sortByValueLimit valueLimitPermissions in
  findPermissionByRule sortedPermissions data_.

Definition filterPermissions (permissionsList : list Permission)
  (targets : list Address) (dataArray : list Hex) (values : list N)
  : Result (option (list Permission)) :=
  if negb (List.length targets =? List.length dataArray)%nat
     || negb (List.length targets =? List.length values)%nat
  then Err InvalidArguments
  else
    filteredPermissions <-
      mapM (filterOne permissionsList) (combine targets (combine dataArray values)) ;;
    Ok (allDefined filteredPermissions).

(** The candidates of one call before the rules are looked at: the
    permissions left by the target, selector and value-limit filters. *)
Definition candidates (permissionsList : list Permission)
  (target_ : Address) (data_ : Hex) (value_ : N) : list Permission :=
  filter (fun permission => value_ <=? valueLimit permission)
    (filterBySignature
       (filter (fun permission =>
                  Js.strictEq (Js.toLowerCase (target permission)) (Js.toLowerCase target_)
                  || Js.strictEq (Js.toLowerCase (target permission))
                                 (Js.toLowerCase Viem.zeroAddress))
               permissionsList)
       (Js.toLowerCase (Js.slice 0 10 data_))).

(** A rule whose parameter is a hex value of at most 32 bytes. *)
Definition wellFormedRule (rule : ParamRules) : Prop :=
  Viem.isHex (param rule) = true
  /\ (String.length (Viem.strip0x (param rule)) <= 64)%nat.

(** The same permission under another operation tag. *)
Definition withOperation (o : Operation) (p : Permission) : Permission :=
  {| target := target p; index := index p; rules := rules p; sig := sig p;
     valueLimit := valueLimit p; executionRule := executionRule p; operation := o |}.

Definition retag (f : Permission -> Operation) (p : Permission) : Permission :=
  withOperation (f p) p.

(** Permission | Permission[] *)
Inductive Matching : Type :=
| MatchedOne (p : Permission)
| MatchedMany (ps : list Permission).

(** ** The validator plugin interface (KernelPlugin) *)

Record PluginRef : Type := {
  ref_address : Address;
  ref_source : string
}.

Record KernelPlugin : Type := {
  plugin_address : Address;
  plugin_signer : Signer;
  plugin_source : string;
  getEnableData : option Address -> Result Hex;
  getNonceKey : Result N;
  signUserOperation : UserOperation -> option Hex -> Result Hex;
  getDummySignature : UserOperation -> option Hex -> Result Hex;
  getPluginApproveSignature : Address -> PluginRef -> Result Hex
}.

Definition pluginRef (p : KernelPlugin) : PluginRef :=
  {| ref_address := plugin_address p; ref_source := plugin_source p |}.

(** ** signerToSessionKeyValidator *)

Section SessionKeyValidator.

Context {X : Externals}.

(** encodePermissionData(permission, merkleProof?) *)
Definition proofType (merkleProof : MerkleProof) : ProofType :=
  match merkleProof with
  | NestedProof (_ :: _) => bytes32ArrayArray   (* Array.isArray(merkleProof[0]) *)
  | _ => bytes32Array
  end.

Definition encodePermissionData (permission : PermissionValue)
  (merkleProof : option MerkleProof) : Hex :=
  encodeAbiParameters permission
    (option_map (fun mp => (proofType mp, mp)) merkleProof).

Record SessionKeyValidatorArgs : Type := {
  arg_signer : Signer;
  arg_entryPoint : option Address;
  arg_validatorData : SessionKeyValidatorData;
  arg_validatorAddress : option Address;
  arg_executorData : option ExecutorData;
  arg_mode : option ValidatorMode
}.

(** The state captured by the closures of the returned plugin. *)
Record SessionKeyValidator : Type := {
  sk_client : Client;
  viemSigner : Signer;
  sk_entryPoint : Address;
  sk_validatorAddress : Address;
  sk_sessionKey : Address;
  sk_sessionKeyData : SessionKeyData;
  _executorData : ExecutorData;
  mode : ValidatorMode;
  chainId : N;
  merkleTree : MerkleTreeJs.MerkleTree
}.

(** sessionKeyData.permissions?.map((perm, index) => ({ ...perm, ... })) *)
Fixpoint normalizePermissions (i : nat) (ps : list PermissionInput) : list Permission :=
  match ps with
  | [] => []
  | perm :: rest =>
      {| target := in_target perm;
         index := i;
         rules := match in_rules perm with Some r => r | None => [] end;
         sig := match in_sig perm with Some s => s | None => emptySelector end;
         valueLimit := match in_valueLimit perm with Some v => v | None => 0 end;
         executionRule :=
           match in_executionRule perm with
           | Some e => e
           | None => {| rule_validAfter := 0; interval := 0; runs := 0 |}
           end;
         operation := match in_operation perm with Some o => o | None => Call end |}
      :: normalizePermissions (S i) rest
  end.

Definition normalizeSessionKeyData (d : option SessionKeyDataInput) : SessionKeyData :=
  {| validAfter := match d with
                   | Some d' => match in_validAfter d' with Some a => a | None => 0 end
                   | None => 0
                   end;
     validUntil := match d with
                   | Some d' => match in_validUntil d' with Some a => a | None => 0 end
                   | None => 0
                   end;
     paymaster := match d with
                  | Some d' =>
                      match in_paymaster d' with Some a => a | None => Viem.zeroAddress end
                  | None => Viem.zeroAddress
                  end;
     permissions := match d with
                    | Some d' =>
                        match in_permissions d' with
                        | Some ps => normalizePermissions 0 ps
                        | None => []
                        end
                    | None => []
                    end |}.

(** The Merkle tree over the permissions, or the sentinel tree. *)
Definition buildMerkleTree (perms : list Permission) : MerkleTreeJs.MerkleTree :=
  let encodedPermissionData :=
    map (fun permission => encodePermissionData (OnePermission permission) None) perms in
  let encodedPermissionData :=
    match encodedPermissionData with
    | [e] => [e; e]
    | _ => encodedPermissionData
    end in
  if negb (isEmpty perms)
  then MerkleTreeJs.new keccak256 encodedPermissionData true true
  else MerkleTreeJs.new keccak256 [zeroWord] false false.

Definition signerToSessionKeyValidator (client : Client)
  (args : SessionKeyValidatorArgs) : Result SessionKeyValidator :=
  let executorData_ :=
    match arg_executorData args with
    | Some e => e
    | None =>
        {| executor := Viem.zeroAddress;
           selector := getFunctionSelector "execute(address, uint256, bytes, uint8)";
           exec_validAfter := 0;
           exec_validUntil := 0 |}
    end in
  let sessionKeyData_ :=
    normalizeSessionKeyData (sessionKeyData (arg_validatorData args)) in
  chainId_ <- await (getChainId client) ;;
  Ok {| sk_client := client;
        viemSigner := arg_signer args;
        sk_entryPoint :=
          match arg_entryPoint args with Some e => e | None => ENTRYPOINT_V0_6 end;
        sk_validatorAddress :=
          match arg_validatorAddress args with
          | Some a => a
          | None => SESSION_KEY_VALIDATOR_ADDRESS
          end;
        sk_sessionKey := sessionKey (arg_validatorData args);
        sk_sessionKeyData := sessionKeyData_;
        _executorData := executorData_;
        mode := match arg_mode args with Some m => m | None => enable end;
        chainId := chainId_;
        merkleTree := buildMerkleTree (permissions sessionKeyData_) |}.

Section Methods.

Variable v : SessionKeyValidator.

Definition getSessionNonces (kernelAccountAddress : Address) : Result (N * N) :=
  await (readNonces (sk_client v) (sk_validatorAddress v) kernelAccountAddress).

Definition sk_getEnableData (kernelAccountAddress : option Address) : Result Hex :=
  match truthy kernelAccountAddress with
  | None => Err KernelAccountAddressNotProvided
  | Some account =>
      nonces <- getSessionNonces account ;;
      let lastNonce := fst nonces + 1 in
      root <- Viem.pad (MerkleTreeJs.getHexRoot (merkleTree v)) 32 ;;
      after <- padNumber (validAfter (sk_sessionKeyData v)) 6 ;;
      until <- padNumber (validUntil (sk_sessionKeyData v)) 6 ;;
      nonceWord <- Viem.pad (Viem.numberToHex lastNonce) 32 ;;
      Ok (Viem.concat
            [sk_sessionKey v; root; after; until;
             paymaster (sk_sessionKeyData v); nonceWord])
  end.

Definition getValidatorSignature (accountAddress : Address)
  (pluginEnableSignature : option Hex) : Result Hex :=
  match mode v with
  | sudo | plugin => Ok (modeHex (mode v))
  | enable =>
      enableData <- sk_getEnableData (Some accountAddress) ;;
      match truthy pluginEnableSignature with
      | None => Err EnableSignatureNotSet
      | Some enableSignature =>
          until <- padNumber (exec_validUntil (_executorData v)) 6 ;;
          after <- padNumber (exec_validAfter (_executorData v)) 6 ;;
          validator <- Viem.pad (sk_validatorAddress v) 20 ;;
          executor_ <- Viem.pad (executor (_executorData v)) 20 ;;
          enableDataLength <- byteLength enableData ;;
          dataLength <- padNumber enableDataLength 32 ;;
          signatureLength <- byteLength enableSignature ;;
          sigLength <- padNumber signatureLength 32 ;;
          Ok (Viem.concat
                [modeHex (mode v); until; after; validator; executor_;
                 dataLength; enableData; sigLength; enableSignature])
      end
  end.

Definition findMatchingPermissions (callData_ : Hex) : option Matching :=
  catchUndefined
    (decoded <- await (decodeFunctionData callData_) ;;
     match decoded with
     | execute to_ value_ data_ _ =>
         found <- filterPermissions (permissions (sk_sessionKeyData v))
                    [to_] [data_] [value_] ;;
         Ok (match found with
             | Some (p :: _) => Some (MatchedOne p)
             | _ => None
             end)
     | executeBatch calls =>
         found <- filterPermissions (permissions (sk_sessionKeyData v))
                    (map (fun c => fst (fst c)) calls)
                    (map (fun c => snd c) calls)
                    (map (fun c => snd (fst c)) calls) ;;
         Ok (option_map MatchedMany found)
     | _ => Ok None
     end).

Definition matchingValue (m : Matching) : PermissionValue :=
  match m with
  | MatchedOne p => OnePermission p
  | MatchedMany ps => PermissionArray ps
  end.

Definition getEncodedPermissionProofData (callData_ : Hex) : Result Hex :=
  let matchingPermission := findMatchingPermissions callData_ in
  if match matchingPermission with None => true | Some _ => false end
     && negb (Js.strictEq (MerkleTreeJs.getHexRoot (merkleTree v)) zeroWord)
  then Err NoMatchingPermission
  else
    let configured := negb (isEmpty (permissions (sk_sessionKeyData v))) in
    let encodedPermissionData :=
      match matchingPermission with
      | Some m => if configured then encodePermissionData (matchingValue m) None else "0x"
      | None => "0x"
      end in
    let merkleProof :=
      match matchingPermission with
      | Some (MatchedMany ps) =>
          NestedProof
            (map (fun permission =>
                    MerkleTreeJs.getHexProof (merkleTree v)
                      (keccak256 (encodePermissionData (OnePermission permission) None)))
                 ps)
      | Some (MatchedOne _) =>
          FlatProof (MerkleTreeJs.getHexProof (merkleTree v)
                       (keccak256 encodedPermissionData))
      | None => FlatProof []
      end in
    Ok match matchingPermission with
       | Some m =>
           if configured
           then encodePermissionData (matchingValue m) (Some merkleProof)
           else "0x"
       | None => "0x"
       end.

Definition sk_signUserOperation (userOperation : UserOperation)
  (pluginEnableSignature : option Hex) : Result Hex :=
  let userOpHash :=
    getUserOperationHash (withSignature userOperation "0x")
      (sk_entryPoint v) (chainId v) in
  signature_ <- await (signMessage (viemSigner v) userOpHash) ;;
  fixedSignature <- fixSignedData signature_ ;;
  header <- getValidatorSignature (sender userOperation) pluginEnableSignature ;;
  proofData <- getEncodedPermissionProofData (callData userOperation) ;;
  Ok (Viem.concat [header; sk_sessionKey v; fixedSignature; proofData]).

Definition sk_getDummySignature (userOperation : UserOperation)
  (pluginEnableSignature : option Hex) : Result Hex :=
  header <- getValidatorSignature (sender userOperation) pluginEnableSignature ;;
  proofData <- getEncodedPermissionProofData (callData userOperation) ;;
  Ok (Viem.concat [header; sk_sessionKey v; DUMMY_ECDSA_SIG; proofData]).

Definition sk_getPluginApproveSignature (_ : Address) (_ : PluginRef) : Result Hex :=
  Err NotImplemented.

Definition getExecutorData : Result ExecutorData :=
  match truthy (Some (selector (_executorData v))),
        truthy (Some (executor (_executorData v))) with
  | Some _, Some _ => Ok (_executorData v)
  | _, _ => Err InvalidExecutorData
  end.

(** The object returned by signerToSessionKeyValidator. *)
Definition sessionKeyPlugin : KernelPlugin :=
  {| plugin_address := sk_validatorAddress v;
     plugin_signer := viemSigner v;
     plugin_source := "SessionKeyValidator";
     getEnableData := sk_getEnableData;
     getNonceKey := Ok 0;
     signUserOperation := sk_signUserOperation;
     getDummySignature := sk_getDummySignature;
     getPluginApproveSignature := sk_getPluginApproveSignature |}.

End Methods.

End SessionKeyValidator.

(** ** signerToEcdsaValidator *)

Section EcdsaValidator.

Context {X : Externals}.

Record EcdsaValidatorArgs : Type := {
  ecdsa_arg_signer : Signer;
  ecdsa_arg_entryPoint : option Address;
  ecdsa_arg_validatorAddress : option Address
}.

Record EcdsaValidator : Type := {
  ecdsa_client : Client;
  ecdsa_viemSigner : Signer;
  ecdsa_entryPoint : Address;
  ecdsa_validatorAddress : Address;
  ecdsa_chainId : N
}.

Definition signerToEcdsaValidator (client : Client) (args : EcdsaValidatorArgs)
  : Result EcdsaValidator :=
  match chain client with
  | None => Err ChainNotFound
  | Some id =>
      Ok {| ecdsa_client := client;
            ecdsa_viemSigner := ecdsa_arg_signer args;
            ecdsa_entryPoint :=
              match ecdsa_arg_entryPoint args with
              | Some e => e
              | None => ENTRYPOINT_V0_6
              end;
            ecdsa_validatorAddress :=
              match ecdsa_arg_validatorAddress args with
              | Some a => a
              | None => ECDSA_VALIDATOR_ADDRESS
              end;
            ecdsa_chainId := id |}
  end.

Definition sudoMarker : Hex := "0x00000000".

Section Methods.

Variable e : EcdsaValidator.

Definition ecdsa_getEnableData : Result Hex :=
  Ok (address (ecdsa_viemSigner e)).

Definition ecdsa_signUserOperation (userOperation : UserOperation) : Result Hex :=
  let hash :=
    getUserOperationHash (withSignature userOperation "0x")
      (ecdsa_entryPoint e) (ecdsa_chainId e) in
  signature_ <- await (signMessage (ecdsa_viemSigner e) hash) ;;
  Ok (Viem.concat [sudoMarker; signature_]).

Definition ecdsa_getDummySignature : Result Hex :=
  Ok "0x00000000fffffffffffffffffffffffffffffff0000000000000000000000000000000007aaaaaaaaaaaaaaaaaaaaaaaaaaaaaaaaaaaaaaaaaaaaaaaaaaaaaaaaaaaaaaa1c".

(** The returned object; it has no getPluginApproveSignature method, so
    calling it is a TypeError. *)
Definition ecdsaPlugin : KernelPlugin :=
  {| plugin_address := ecdsa_validatorAddress e;
     plugin_signer := ecdsa_viemSigner e;
     plugin_source := "ECDSAValidator";
     getEnableData := fun _ => ecdsa_getEnableData;
     getNonceKey := Ok 0;
     signUserOperation := fun userOperation _ => ecdsa_signUserOperation userOperation;
     getDummySignature := fun _ _ => ecdsa_getDummySignature;
     getPluginApproveSignature := fun _ _ => Err TypeError |}.

End Methods.

End EcdsaValidator.

(** ** createKernelAccount *)

Inductive TxArg : Type :=
| OneTx (tx : Tx)
| ManyTx (txs : list Tx).

Section KernelAccount.

Context {X : Externals}.

Definition getAccountInitCode (owner : Address) (index_ : N)
  (factoryAddress accountLogicAddress validatorAddress : Address)
  (enableData : Result Hex) : Result Hex :=
  match truthy (Some owner) with
  | None => Err OwnerAccountNotFound
  | Some _ =>
      enableData_ <- enableData ;;
      let initialisationData :=
        encodeFunctionData (initialize validatorAddress enableData_) in
      Ok (Viem.concat
            [factoryAddress;
             encodeFunctionData
               (createAccount accountLogicAddress initialisationData index_)])
  end.

Definition getAccountAddress (client : Client) (entryPoint : Address)
  (initCodeProvider : Result Hex) : Result Address :=
  initCode_ <- initCodeProvider ;;
  await (getSenderAddress client initCode_ entryPoint).

Record KernelAccountArgs : Type := {
  arg_defaultValidator : KernelPlugin;
  arg_plugin : option KernelPlugin;
  arg_accountEntryPoint : option Address;
  arg_index : option N;
  arg_factoryAddress : option Address;
  arg_accountLogicAddress : option Address;
  arg_deployedAccountAddress : option Address
}.

Record KernelSmartAccount : Type := {
  account_client : Client;
  accountAddress : Address;
  account_entryPoint : Address;
  defaultValidator : KernelPlugin;
  activePlugin : option KernelPlugin
}.

Definition currentValidator (a : KernelSmartAccount) : KernelPlugin :=
  match activePlugin a with
  | Some p => p
  | None => defaultValidator a
  end.

Definition createKernelAccount (client : Client) (args : KernelAccountArgs)
  : Result KernelSmartAccount :=
  let entryPoint :=
    match arg_accountEntryPoint args with Some e => e | None => ENTRYPOINT_V0_6 end in
  let generateInitCode :=
    getAccountInitCode
      (address (plugin_signer (arg_defaultValidator args)))
      (match arg_index args with Some i => i | None => 0 end)
      (match arg_factoryAddress args with Some f => f | None => FACTORY_ADDRESS end)
      (match arg_accountLogicAddress args with
       | Some l => l
       | None => ACCOUNT_V2_3_LOGIC
       end)
      (plugin_address (arg_defaultValidator args))
      (getEnableData (arg_defaultValidator args) None) in
  accountAddress_ <-
    match arg_deployedAccountAddress args with
    | Some a => Ok a
    | None => getAccountAddress client entryPoint generateInitCode
    end ;;
  match truthy (Some accountAddress_) with
  | None => Err AccountAddressNotFound
  | Some _ =>
      Ok {| account_client := client;
            accountAddress := accountAddress_;
            account_entryPoint := entryPoint;
            defaultValidator := arg_defaultValidator args;
            activePlugin := arg_plugin args |}
  end.

Section Methods.

Variable a : KernelSmartAccount.

Definition pluginApproval : Result (option Hex) :=
  match activePlugin a with
  | Some p =>
      approval <- getPluginApproveSignature (defaultValidator a)
                    (accountAddress a) (pluginRef p) ;;
      Ok (Some approval)
  | None => Ok None
  end.

Definition account_signUserOperation (userOperation : UserOperation) : Result Hex :=
  pluginEnableSignature <- pluginApproval ;;
  signUserOperation (currentValidator a) userOperation pluginEnableSignature.

Definition account_getDummySignature (userOperation : UserOperation) : Result Hex :=
  pluginEnableSignature <- pluginApproval ;;
  getDummySignature (currentValidator a) userOperation pluginEnableSignature.

Definition account_signTransaction : Result Hex :=
  Err SignTransactionNotSupportedBySmartAccount.

(** The function call that encodeCallData hands to encodeFunctionData. *)
Definition callOf (_tx : TxArg) : FunctionCall :=
  match _tx with
  | ManyTx txs => executeBatch (map (fun tx => (to tx, value tx, data tx)) txs)
  | OneTx tx => execute (to tx) (value tx) (data tx) 0
  end.

Definition encodeCallData (_tx : TxArg) : Hex :=
  encodeFunctionData (callOf _tx).

End Methods.

End KernelAccount.

(** The operation flag of an encoded execute call. *)
Definition operationFlag (c : FunctionCall) : option N :=
  match c with
  | execute _ _ _ op => Some op
  | _ => None
  end.

(** ** Notions used in the proofs *)

Definition isLowerHexDigit (c : ascii) : bool :=
  let n := N_of_ascii c in
  ((48 <=? n) && (n <=? 57)) || ((97 <=? n) && (n <=? 102)).

Fixpoint allLowerHex (s : string) : bool :=
  match s with
  | EmptyString => true
  | String c s' => isLowerHexDigit c && allLowerHex s'
  end.

(** The word getFormattedHex makes of a hex value of at most 32 bytes. *)
Definition formatted (d : string) : Hex :=
  "0x" ++ Js.toLowerCase (Js.padStart 64 "0" d).

Definition byValueLimitDesc (a b : Permission) : Prop := valueLimit b <= valueLimit a.

(** A call that no permission of the list authorises. *)
Definition unmatched (permissionsList : list Permission) (call_ : Address * (Hex * N))
  : Prop :=
  forall p, filterOne permissionsList call_ <> Ok (Some p).

(** The (target, data, value) of one call of a decoded batch. *)
Definition tripleOf (c : Address * N * Hex) : Address * (Hex * N) :=
  (fst (fst c), (snd c, snd (fst c))).

Definition errorOf {A : Type} (r : Result A) : option Error :=
  match r with
  | Ok _ => None
  | Err e => Some e
  end.

Definition mapResult {A B : Type} (f : A -> B) (r : Result A) : Result B :=
  match r with
  | Ok a => Ok (f a)
  | Err e => Err e
  end.

(** An error other than NoMatchingPermission, if any. *)
Definition benign {A : Type} (r : Result A) : Prop :=
  r <> Err NoMatchingPermission.

(** Number of hex digits of a hex value. *)
Definition hexLen (h : Hex) : nat := String.length (Viem.strip0x h).

Section ProofNotions.

Context {X : Externals}.

(** What is assumed of keccak256 where a statement needs it: a digest
    is a 32-byte hex value, and is not the zero word. *)
Definition Keccak256Spec : Prop :=
  forall x : Hex,
    (exists d, keccak256 x = "0x" ++ d /\ String.length d = 64%nat)
    /\ keccak256 x <> zeroWord.

(** A node of a tree whose leaves are hashed: the buffer of a digest. *)
Definition isDigest (h : Hex) : Prop :=
  exists x, h = MerkleTreeJs.bufferify (keccak256 x).

(** The validator built from the same arguments with every permission
    carrying the operation tag [f] gives it. *)
Definition retagValidator (f : Permission -> Operation) (v : SessionKeyValidator)
  : SessionKeyValidator :=
  let data' :=
    {| validUntil := validUntil (sk_sessionKeyData v);
       validAfter := validAfter (sk_sessionKeyData v);
       paymaster := paymaster (sk_sessionKeyData v);
       permissions := map (retag f) (permissions (sk_sessionKeyData v)) |} in
  {| sk_client := sk_client v;
     viemSigner := viemSigner v;
     sk_entryPoint := sk_entryPoint v;
     sk_validatorAddress := sk_validatorAddress v;
     sk_sessionKey := sk_sessionKey v;
     sk_sessionKeyData := data';
     _executorData := _executorData v;
     mode := mode v;
     chainId := chainId v;
     merkleTree := buildMerkleTree (permissions data') |}.

(** The call data decodes to an execute or executeBatch with a call that
    no permission of the validator authorises. *)
Definition hasUnmatchedCall (v : SessionKeyValidator) (callData_ : Hex) : Prop :=
  (exists to_ value_ data_ op,
      decodeFunctionData callData_ = Resolved (execute to_ value_ data_ op)
      /\ unmatched (permissions (sk_sessionKeyData v)) (to_, (data_, value_)))
  \/ (exists calls c,
        decodeFunctionData callData_ = Resolved (executeBatch calls)
        /\ In c calls
        /\ unmatched (permissions (sk_sessionKeyData v)) (tripleOf c)).

Definition retagMatching (f : Permission -> Operation) (m : Matching) : Matching :=
  match m with
  | MatchedOne p => MatchedOne (retag f p)
  | MatchedMany ps => MatchedMany (map (retag f) ps)
  end.

End ProofNotions.

(** Powers of sixteen are opaque to [lia]: name them. *)
Ltac abstract_pow :=
  repeat match goal with
         | |- context [16 ^ ?e] =>
             let P := fresh "P" in
             let HP := fresh "HP" in
             assert (HP : 0 < 16 ^ e) by (apply N.neq_0_lt_0, N.pow_nonzero; discriminate);
             set (P := 16 ^ e) in *; clearbody P
         end.

(** ** Concrete collaborators and inputs

    Stand-ins for the collaborators, used to run the definitions on
    concrete inputs: a 32-byte hash that is never the zero word, a signer
    that returns a fixed well-formed signature, and a decoder given by a
    table of three call datas. *)

Module Sample.

Definition hash (x : Hex) : Hex :=
  "0x1" ++ Js.hexFixed 63 (Js.hexValue (Viem.strip0x x)).

Definition A : Address := "0xAaAaAaAaAaAaAaAaAaAaAaAaAaAaAaAaAaAaAaAa".
Definition B : Address := "0xbBbBbBbBbBbBbBbBbBbBbBbBbBbBbBbBbBbBbBbB".

Definition word (n : N) : string := Js.hexFixed 64 n.

(** transfer(address,uint256) to B of 1000, and an approve call. *)
Definition transferData : Hex := "0xa9059cbb" ++ word 0xbbbb ++ word 1000.
Definition approveData : Hex := "0x095ea7b3" ++ word 0xbbbb ++ word 1000.

Definition decode (callData_ : Hex) : Outcome FunctionCall :=
  if String.eqb callData_ "0x01" then Resolved (execute A 7 transferData 0)
  else if String.eqb callData_ "0x02" then Resolved (execute A 7 approveData 0)
  else if String.eqb callData_ "0x03"
       then Resolved (executeBatch [(A, 1, transferData); (A, 7, approveData)])
  else Rejected "AbiFunctionSignatureNotFoundError".

Definition encodePermission (p : Permission) : string :=
  word (N.of_nat (index p)) ++ word (valueLimit p)
  ++ (match operation p with Call => "00" | DelegateCall => "01" end).

Definition encodeAbi (pv : PermissionValue) (proof : option (ProofType * MerkleProof))
  : Hex :=
  match pv with
  | OnePermission p => "0x" ++ encodePermission p
  | PermissionArray ps => "0x" ++ String.concat "" (map encodePermission ps)
  end.

Definition encodeCall (c : FunctionCall) : Hex :=
  match c with
  | initialize _ d => Viem.concat ["0xcf7a1d77"; d]
  | createAccount _ d _ => Viem.concat ["0x296601cd"; d]
  | execute _ _ d op => Viem.concat ["0x51945447"; d; "0x" ++ Js.hexFixed 2 op]
  | executeBatch _ => "0x34fcd5be"
  | executeDelegateCall _ d => Viem.concat ["0x51166ba0"; d]
  | otherFunction _ => "0x"
  end.

Definition externals : Externals :=
  {| keccak256 := hash;
     getFunctionSelector := fun _ => "0x51945447";
     encodeAbiParameters := encodeAbi;
     encodeFunctionData := encodeCall;
     decodeFunctionData := decode;
     getUserOperationHash := fun op _ _ => hash (callData op);
     getSenderAddress := fun _ _ _ => Resolved B;
     modeHex := fun m =>
                  match m with
                  | sudo => "0x00000000"
                  | plugin => "0x00000001"
                  | enable => "0x00000002"
                  end;
     SESSION_KEY_VALIDATOR_ADDRESS := "0x5C06CE2b673fD5E6e56076e40DD46aB67f5a72A5";
     ECDSA_VALIDATOR_ADDRESS := "0xd9AB5096a832b9ce79914329DAEE236f8Eea0390";
     DUMMY_ECDSA_SIG :=
       "0xfffffffffffffffffffffffffffffff0000000000000000000000000000000007aaaaaaaaaaaaaaaaaaaaaaaaaaaaaaaaaaaaaaaaaaaaaaaaaaaaaaaaaaaaaaa1c" |}.

Definition sigR : string := word 0x1111.
Definition sigS : string := word 0x2222.

(** A signer whose signatures carry the recovery id 0. *)
Definition signer : Signer :=
  {| address := "0x1111111111111111111111111111111111111111";
     signMessage := fun _ => Resolved ("0x" ++ sigR ++ sigS ++ "00") |}.

Definition client : Client :=
  {| chain := Some 80001;
     getChainId := Resolved 80001;
     readNonces := fun _ _ => Resolved (0, 0) |}.

Definition P1 : PermissionInput :=
  {| in_target := A; in_rules := None; in_sig := Some "0xa9059cbb";
     in_valueLimit := Some 10; in_executionRule := None; in_operation := None |}.

Definition P2 : PermissionInput :=
  {| in_target := A; in_rules := None; in_sig := Some "0xa9059cbb";
     in_valueLimit := Some 5; in_executionRule := None; in_operation := None |}.

(** transfer to B of at most 1000. *)
Definition P3 : PermissionInput :=
  {| in_target := A;
     in_rules :=
       Some [ {| offset := 0; condition := EQUAL; param := "0x" ++ word 0xbbbb |};
              {| offset := 32; condition := LESS_THAN_OR_EQUAL;
                 param := "0x" ++ word 1000 |} ];
     in_sig := Some "0xa9059cbb";
     in_valueLimit := Some 10; in_executionRule := None;
     in_operation := Some DelegateCall |}.

Definition validatorArgs (ps : option (list PermissionInput)) (m : ValidatorMode)
  : @SessionKeyValidatorArgs :=
  {| arg_signer := signer;
     arg_entryPoint := None;
     arg_validatorData :=
       {| sessionKey := address signer;
          sessionKeyData :=
            Some {| in_validUntil := None; in_validAfter := None;
                    in_paymaster := None; in_permissions := ps |} |};
     arg_validatorAddress := None;
     arg_executorData := None;
     arg_mode := Some m |}.

Definition noExecutionRule : ExecutionRule :=
  {| rule_validAfter := 0; interval := 0; runs := 0 |}.

(** P1, P2 and P3 as the constructor normalises them at positions 0, 1. *)
Definition Q1 : Permission :=
  {| target := A; index := 0; rules := []; sig := "0xa9059cbb"; valueLimit := 10;
     executionRule := noExecutionRule; operation := Call |}.

Definition Q2 : Permission :=
  {| target := A; index := 1; rules := []; sig := "0xa9059cbb"; valueLimit := 5;
     executionRule := noExecutionRule; operation := Call |}.

Definition Q3 : Permission :=
  {| target := A; index := 0;
     rules :=
       [ {| offset := 0; condition := EQUAL; param := "0x" ++ word 0xbbbb |};
         {| offset := 32; condition := LESS_THAN_OR_EQUAL;
            param := "0x" ++ word 1000 |} ];
     sig := "0xa9059cbb"; valueLimit := 10;
     executionRule := noExecutionRule; operation := DelegateCall |}.

(** The validator signerToSessionKeyValidator builds from [validatorArgs]. *)
Definition validator (ps : list PermissionInput) (m : ValidatorMode)
  : SessionKeyValidator :=
  {| sk_client := client;
     viemSigner := signer;
     sk_entryPoint := ENTRYPOINT_V0_6;
     sk_validatorAddress := "0x5C06CE2b673fD5E6e56076e40DD46aB67f5a72A5";
     sk_sessionKey := address signer;
     sk_sessionKeyData :=
       {| validUntil := 0; validAfter := 0; paymaster := Viem.zeroAddress;
          permissions := normalizePermissions 0 ps |};
     _executorData :=
       {| executor := Viem.zeroAddress; selector := "0x51945447";
          exec_validUntil := 0; exec_validAfter := 0 |};
     mode := m;
     chainId := 80001;
     merkleTree := buildMerkleTree (X := externals) (normalizePermissions 0 ps) |}.

Definition ecdsaArgs : EcdsaValidatorArgs :=
  {| ecdsa_arg_signer := signer; ecdsa_arg_entryPoint := None;
     ecdsa_arg_validatorAddress := None |}.

Definition ecdsa : EcdsaValidator :=
  {| ecdsa_client := client; ecdsa_viemSigner := signer;
     ecdsa_entryPoint := ENTRYPOINT_V0_6;
     ecdsa_validatorAddress := "0xd9AB5096a832b9ce79914329DAEE236f8Eea0390";
     ecdsa_chainId := 80001 |}.

(** An already deployed account at B whose default validator is a
    session-key validator, with the ECDSA validator as active plugin. *)
Definition accountArgs : KernelAccountArgs :=
  {| arg_defaultValidator := sessionKeyPlugin (X := externals) (validator [] sudo);
     arg_plugin := Some (ecdsaPlugin (X := externals) ecdsa);
     arg_accountEntryPoint := None; arg_index := None;
     arg_factoryAddress := None; arg_accountLogicAddress := None;
     arg_deployedAccountAddress := Some B |}.

Definition account : KernelSmartAccount :=
  {| account_client := client; accountAddress := B;
     account_entryPoint := ENTRYPOINT_V0_6;
     defaultValidator := sessionKeyPlugin (X := externals) (validator [] sudo);
     activePlugin := Some (ecdsaPlugin (X := externals) ecdsa) |}.

Definition allDelegateCall (_ : Permission) : Operation := DelegateCall.

Definition userOp (callData_ : Hex) : UserOperation :=
  {| sender := B; nonce := 0; initCode := "0x"; callData := callData_;
     callGasLimit := 0; verificationGasLimit := 0; preVerificationGas := 0;
     maxFeePerGas := 0; maxPriorityFeePerGas := 0; paymasterAndData := "0x";
     signature := "0xdeadbeef" |}.

End Sample.

(** ** Verification of a Merkle proof

    What the proofs of getHexProof are made for. The repository builds
    proofs and does not check them; the check is merkletreejs'
    verify(proof, targetNode, root) for a tree with sortPairs, and the
    validator contract folds a proof the same way: each proof node is
    hashed with the running hash, the smaller buffer first. The
    properties of the proofs are stated with it. *)

Section MerkleVerify.

Variable hashFn : Hex -> Hex.

Definition verifyStep (hash data_ : Hex) : Hex :=
  let buffers := if Js.lt hash data_ then (hash, data_) else (data_, hash) in
  MerkleTreeJs.bufferify (hashFn (Viem.concat [fst buffers; snd buffers])).

Definition processProof (proof : list Hex) (targetNode : Hex) : Hex :=
  fold_left verifyStep proof (MerkleTreeJs.bufferify targetNode).

Definition verify (proof : list Hex) (targetNode root : Hex) : bool :=
  String.eqb (processProof proof targetNode) (MerkleTreeJs.bufferify root).

End MerkleVerify.

(** The index of the sibling getProof looks up beside a node. *)
Definition pairIndexOf (index : nat) : nat :=
  if Nat.odd index then (index - 1)%nat else (index + 1)%nat.

(** ** What a match means *)

Definition targetMatches (p : Permission) (target_ : Address) : Prop :=
  Js.toLowerCase (target p) = Js.toLowerCase target_
  \/ Js.toLowerCase (target p) = Js.toLowerCase Viem.zeroAddress.

(** The permission passes every stage of the matcher on the call. *)
Definition authorises (p : Permission) (call_ : Address * (Hex * N)) : Prop :=
  targetMatches p (fst call_)
  /\ Js.toLowerCase (sig p) = Js.toLowerCase (Js.slice 0 10 (fst (snd call_)))
  /\ snd (snd call_) <= valueLimit p
  /\ rulesPass (rules p) (fst (snd call_)) = Ok true.

(** The permissions of one value limit. *)
Definition sameLimit (k : N) (p : Permission) : bool := valueLimit p =? k.

(** ** The init code of a kernel account *)

Section KernelAccountInitCode.

Context {X : Externals}.

(** The helper generateInitCode of createKernelAccount. *)
Definition generateInitCode (args : KernelAccountArgs) : Result Hex :=
  getAccountInitCode
    (address (plugin_signer (arg_defaultValidator args)))
    (match arg_index args with Some i => i | None => 0 end)
    (match arg_factoryAddress args with Some f => f | None => FACTORY_ADDRESS end)
    (match arg_accountLogicAddress args with
     | Some l => l
     | None => ACCOUNT_V2_3_LOGIC
     end)
    (plugin_address (arg_defaultValidator args))
    (getEnableData (arg_defaultValidator args) None).

(** getBytecode(client, { address }): the code at an address, if any. *)
Variable getBytecode : Client -> Address -> Outcome (option Hex).

(** getInitCode() of the account createKernelAccount made of [args]. *)
Definition account_getInitCode (args : KernelAccountArgs) (a : KernelSmartAccount)
  : Result Hex :=
  contractCode <- await (getBytecode (account_client a) (accountAddress a)) ;;
  if (2 <? match contractCode with Some code => String.length code | None => 0 end)%nat
  then Ok "0x"
  else generateInitCode args.

End KernelAccountInitCode.

(** ** getPermissionFromABI *)

(** The value of an argument: a string (a hex value such as an address or
    bytes, or text), a number or a bigint that is a non-negative integer,
    or a boolean. Negative and fractional numbers, on which toHex throws,
    and arrays and tuples, which toHex would take for byte arrays, are
    left out: the properties below are about permissions that are
    returned, and none is returned for a number toHex refuses. *)
Inductive ArgValue : Type :=
| StringValue (s : string)
| NumberValue (n : N)
| BigIntValue (n : N)
| BoolValue (b : bool).

(** { operator, value } *)
Record Arg : Type := {
  operator : ParamOperator;
  arg_value : ArgValue
}.

(** What getAbiItem hands back: the item's type and its signature, from
    which getFunctionSelector computes the selector. *)
Record AbiItem : Type := {
  item_type : string;
  item_signature : string
}.

(** The outcome of getPermissionFromABI: the permission, the error of its
    own, or an error thrown on the way. *)
Inductive Generated (A : Type) : Type :=
| Returned (a : A)
| NotFoundInAbi (functionName : option string)  (* Error(`${functionName} not found in abi`) *)
| Thrown (e : Error).
Arguments Returned {A} a.
Arguments NotFoundInAbi {A} functionName.
Arguments Thrown {A} e.

(** isHex(arg.value) ? arg.value : toHex(arg.value) *)
Definition toHexValue (value_ : ArgValue) : Result Hex :=
  match value_ with
  | StringValue s => Ok (if Viem.isHex s then s else Viem.stringToHex s)
  | NumberValue n => toHexNumber n
  | BigIntValue n => Ok (Viem.numberToHex n)
  | BoolValue b => Ok (if b then "0x1" else "0x0")
  end.

(** args.map((arg, i) => arg && { param, offset: i * 32, condition })
        .filter((rule) => rule), from position [i] on. *)
Fixpoint paramRulesFrom (i : nat) (args : list (option Arg)) : Result (list ParamRules) :=
  match args with
  | [] => Ok []
  | None :: rest => paramRulesFrom (S i) rest
  | Some arg :: rest =>
      h <- toHexValue (arg_value arg) ;;
      param_ <- Viem.pad h 32 ;;
      rules_ <- paramRulesFrom (S i) rest ;;
      Ok ({| offset := i * 32; condition := operator arg; param := param_ |} :: rules_)
  end.

Section PermissionFromABI.

Context {X : Externals}.

Variable Abi : Type.

(** getAbiItem({ abi, args, name }) *)
Variable getAbiItem : Abi -> option (list (option Arg)) -> option string -> option AbiItem.

Record PermissionFromABIArgs : Type := {
  abi : Abi;
  abi_target : Address;
  abi_args : option (list (option Arg));
  functionName : option string;
  abi_valueLimit : option N
}.

(** The permission returned states sig, rules, target and valueLimit and
    leaves the other fields out, as a permission handed to the constructor
    may. *)
Definition getPermissionFromABI (params : PermissionFromABIArgs)
  : Generated PermissionInput :=
  match getAbiItem (abi params) (abi_args params) (functionName params) with
  | None => Thrown TypeError
  | Some abiItem =>
      if negb (String.eqb (item_type abiItem) "function")
      then NotFoundInAbi (functionName params)
      else
        let functionSelector := getFunctionSelector (item_signature abiItem) in
        match
          match abi_args params with
          | Some args => paramRulesFrom 0 args
          | None => Ok []
          end
        with
        | Err e => Thrown e
        | Ok paramRules =>
            Returned
              {| in_target := abi_target params;
                 in_rules := Some paramRules;
                 in_sig := Some functionSelector;
                 in_valueLimit :=
                   Some match abi_valueLimit params with Some l => l | None => 0 end;
                 in_executionRule := None;
                 in_operation := None |}
        end
  end.

End PermissionFromABI.

(** The number an argument value stands for in a 32-byte word. *)
Definition argNumber (value_ : ArgValue) : N :=
  match value_ with
  | StringValue s =>
      if Viem.isHex s then Js.hexValue (Viem.strip0x s)
      else Js.hexValue (Viem.bytesToHexDigits s)
  | NumberValue n | BigIntValue n => n
  | BoolValue b => if b then 1 else 0
  end.

(** The [i]-th 32-byte word of the call data after the selector. *)
Definition argWord (i : nat) (data_ : string) : string :=
  Js.slice (10 + i * 32 * 2) (10 + i * 32 * 2 + 64) data_.

(** Every given argument constraint holds of the words of the call data,
    the constraint at position [i] on the [i]-th word. *)
Fixpoint constraintsHold (i : nat) (args : list (option Arg)) (data_ : string) : bool :=
  match args with
  | [] => true
  | None :: rest => constraintsHold (S i) rest data_
  | Some arg :: rest =>
      spec_compare (operator arg) (Js.hexValue (argWord i data_))
        (argNumber (arg_value arg))
      && constraintsHold (S i) rest data_
  end.

(** An argument value that fits a 32-byte word: a hex value of at most 32
    bytes, a text of at most 32 characters, a number within the safe
    integers, a bigint below 2^256, a boolean. *)
Definition fitsWord (value_ : ArgValue) : bool :=
  match value_ with
  | StringValue s =>
      if Viem.isHex s then (String.length (Viem.strip0x s) <=? 64)%nat
      else (String.length s <=? 32)%nat
  | NumberValue n => n <=? MAX_SAFE_INTEGER
  | BigIntValue n => n <? 2 ^ 256
  | BoolValue _ => true
  end.

Definition argFits (arg : option Arg) : bool :=
  match arg with
  | Some a => fitsWord (arg_value a)
  | None => true
  end.

(** ** Further concrete inputs *)

Module Cases.

(** The sample decoder, with an empty batch besides. *)
Definition decode (callData_ : Hex) : Outcome FunctionCall :=
  if String.eqb callData_ "0x04" then Resolved (executeBatch [])
  else Sample.decode callData_.

Definition selectorOf (signature_ : string) : Hex :=
  if String.eqb signature_ "transfer(address,uint256)" then "0xa9059cbb"
  else if String.eqb signature_ "approve(address,uint256)" then "0x095ea7b3"
  else "0x51945447".

Definition externals : Externals :=
  {| keccak256 := Sample.hash;
     getFunctionSelector := selectorOf;
     encodeAbiParameters := Sample.encodeAbi;
     encodeFunctionData := Sample.encodeCall;
     decodeFunctionData := decode;
     getUserOperationHash := fun op _ _ => Sample.hash (callData op);
     getSenderAddress := fun _ _ _ => Resolved Sample.B;
     modeHex := modeHex (Externals := Sample.externals);
     SESSION_KEY_VALIDATOR_ADDRESS :=
       SESSION_KEY_VALIDATOR_ADDRESS (Externals := Sample.externals);
     ECDSA_VALIDATOR_ADDRESS := ECDSA_VALIDATOR_ADDRESS (Externals := Sample.externals);
     DUMMY_ECDSA_SIG := DUMMY_ECDSA_SIG (Externals := Sample.externals) |}.

(** transfer with a value limit of 8, approve with a value limit of 10, and
    a transfer permission that states no value limit. *)
Definition P4 : PermissionInput :=
  {| in_target := Sample.A; in_rules := None; in_sig := Some "0xa9059cbb";
     in_valueLimit := Some 8; in_executionRule := None; in_operation := None |}.

Definition P5 : PermissionInput :=
  {| in_target := Sample.A; in_rules := None; in_sig := Some "0x095ea7b3";
     in_valueLimit := Some 10; in_executionRule := None; in_operation := None |}.

Definition P6 : PermissionInput :=
  {| in_target := Sample.A; in_rules := None; in_sig := Some "0xa9059cbb";
     in_valueLimit := None; in_executionRule := None; in_operation := None |}.

(** The permission at position [i] of the list the constructor makes. *)
Definition normalised (i : nat) (ps : list PermissionInput) : Permission :=
  nth i (normalizePermissions 0 ps) Sample.Q1.

(** An undeployed account whose default validator is the sample ECDSA
    validator, and the account createKernelAccount makes of it. *)
Definition ecdsaAccountArgs (plugin_ : option KernelPlugin)
  (deployed : option Address) : KernelAccountArgs :=
  {| arg_defaultValidator := ecdsaPlugin (X := Sample.externals) Sample.ecdsa;
     arg_plugin := plugin_;
     arg_accountEntryPoint := None; arg_index := None;
     arg_factoryAddress := None; arg_accountLogicAddress := None;
     arg_deployedAccountAddress := deployed |}.

Definition ecdsaAccount (plugin_ : option KernelPlugin) : KernelSmartAccount :=
  {| account_client := Sample.client; accountAddress := Sample.B;
     account_entryPoint := ENTRYPOINT_V0_6;
     defaultValidator := ecdsaPlugin (X := Sample.externals) Sample.ecdsa;
     activePlugin := plugin_ |}.

(** An account whose default validator is a session-key validator. *)
Definition sessionKeyAccountArgs (v : SessionKeyValidator) (deployed : option Address)
  : KernelAccountArgs :=
  {| arg_defaultValidator := sessionKeyPlugin (X := Sample.externals) v;
     arg_plugin := None;
     arg_accountEntryPoint := None; arg_index := None;
     arg_factoryAddress := None; arg_accountLogicAddress := None;
     arg_deployedAccountAddress := deployed |}.

Definition sessionKeyAccount (v : SessionKeyValidator) : KernelSmartAccount :=
  {| account_client := Sample.client; accountAddress := Sample.B;
     account_entryPoint := ENTRYPOINT_V0_6;
     defaultValidator := sessionKeyPlugin (X := Sample.externals) v;
     activePlugin := None |}.

(** No code at any address. *)
Definition noBytecode (_ : Client) (_ : Address) : Outcome (option Hex) := Resolved None.

(** An ABI holding transfer(address,uint256), and the request for a
    permission to transfer at most 1000 to 0xbbbb. *)
Definition getAbiItem (_ : unit) (_ : option (list (option Arg))) (name : option string)
  : option AbiItem :=
  match name with
  | Some "transfer" =>
      Some {| item_type := "function"; item_signature := "transfer(address,uint256)" |}
  | _ => None
  end.

Definition transferRequest : PermissionFromABIArgs unit :=
  {| abi := tt;
     abi_target := Sample.A;
     abi_args :=
       Some [ Some {| operator := EQUAL; arg_value := StringValue "0xbbbb" |};
              Some {| operator := LESS_THAN_OR_EQUAL; arg_value := BigIntValue 1000 |} ];
     functionName := Some "transfer";
     abi_valueLimit := None |}.

Definition transferPermission : PermissionInput :=
  {| in_target := Sample.A;
     in_rules :=
       Some [ {| offset := 0; condition := EQUAL; param := "0x" ++ Sample.word 0xbbbb |};
              {| offset := 32; condition := LESS_THAN_OR_EQUAL;
                 param := "0x" ++ Sample.word 1000 |} ];
     in_sig := Some "0xa9059cbb";
     in_valueLimit := Some 0; in_executionRule := None; in_operation := None |}.

End Cases.

(** * Facts about strings and hexadecimal numerals *)

Section StringFacts.

Lemma length_append (a b : string) :
  String.length (a ++ b) = (String.length a + String.length b)%nat.
Proof. induction a as [|c a IH]; simpl; [reflexivity | now rewrite IH]. Qed.

Lemma append_assoc (a b c : string) : (a ++ b) ++ c = a ++ (b ++ c).
Proof. induction a as [|x a IH]; simpl; [reflexivity | now rewrite IH]. Qed.

Lemma append_nil_r (a : string) : a ++ "" = a.
Proof. induction a as [|x a IH]; simpl; [reflexivity | now rewrite IH]. Qed.

Lemma length_repeatChar (c : ascii) (n : nat) :
  String.length (Js.repeatChar c n) = n.
Proof. induction n; simpl; congruence. Qed.

Lemma repeatChar_snoc (c : ascii) (n : nat) :
  Js.repeatChar c n ++ String c "" = String c (Js.repeatChar c n).
Proof. induction n; simpl; [reflexivity | now rewrite IHn]. Qed.

Lemma length_substring_le (n m : nat) (s : string) :
  (String.length (substring n m s) <= m)%nat.
Proof.
  revert n m; induction s as [|c s IH]; intros [|n] [|m]; simpl; try lia.
  - specialize (IH 0%nat m). lia.
  - apply (IH n 0%nat).
  - apply (IH n (S m)).
Qed.

Lemma length_toLowerCase (s : string) :
  String.length (Js.toLowerCase s) = String.length s.
Proof. induction s; simpl; congruence. Qed.

Lemma toLowerCase_append (a b : string) :
  Js.toLowerCase (a ++ b) = Js.toLowerCase a ++ Js.toLowerCase b.
Proof. induction a as [|c a IH]; simpl; [reflexivity | now rewrite IH]. Qed.

Lemma compare_refl (s : string) : String.compare s s = Eq.
Proof.
  induction s as [|c s IH]; simpl; [reflexivity|].
  unfold Ascii.compare. now rewrite N.compare_refl.
Qed.

Lemma eqb_compare (a b : string) :
  String.eqb a b = match String.compare a b with Eq => true | _ => false end.
Proof.
  destruct (String.eqb_spec a b) as [->|Hne].
  - now rewrite compare_refl.
  - destruct (String.compare a b) eqn:E; try reflexivity.
    apply String.compare_eq_iff in E. contradiction.
Qed.

End StringFacts.

Section HexFacts.

Import Js.

Lemma hexDigitValue_lt (c : ascii) (d : N) : hexDigitValue c = Some d -> d < 16.
Proof.
  unfold hexDigitValue.
  repeat match goal with
         | |- context [if ?b then _ else _] => destruct b eqn:?
         end; intros [= <-];
    repeat match goal with
           | H : (_ && _)%bool = true |- _ => apply andb_prop in H; destruct H
           | H : (_ <=? _) = true |- _ => apply N.leb_le in H
           end; lia.
Qed.

Lemma digitValue_lt (c : ascii) : digitValue c < 16.
Proof.
  unfold digitValue. destruct (hexDigitValue c) eqn:E; [|lia].
  now apply hexDigitValue_lt in E.
Qed.

Lemma hexValueFrom_acc (s : string) (acc : N) :
  hexValueFrom acc s = acc * 16 ^ N.of_nat (String.length s) + hexValue s.
Proof.
  unfold hexValue. revert acc.
  induction s as [|c s IH]; intros acc.
  - simpl. lia.
  - cbn [hexValueFrom String.length].
    rewrite (IH (acc * 16 + digitValue c)), (IH (0 * 16 + digitValue c)).
    rewrite Nat2N.inj_succ, N.pow_succ_r'. ring.
Qed.

Lemma hexValue_cons (c : ascii) (s : string) :
  hexValue (String c s) = digitValue c * 16 ^ N.of_nat (String.length s) + hexValue s.
Proof.
  unfold hexValue at 1. cbn [hexValueFrom]. rewrite hexValueFrom_acc.
  abstract_pow. ring.
Qed.

Lemma hexValue_bound (s : string) : hexValue s < 16 ^ N.of_nat (String.length s).
Proof.
  induction s as [|c s IH].
  - cbn. lia.
  - rewrite hexValue_cons. cbn [String.length].
    rewrite Nat2N.inj_succ, N.pow_succ_r'.
    pose proof (digitValue_lt c). abstract_pow. nia.
Qed.

Lemma hexValue_append (a b : string) :
  hexValue (a ++ b) = hexValue a * 16 ^ N.of_nat (String.length b) + hexValue b.
Proof.
  induction a as [|c a IH].
  - cbn [append]. change (hexValue "") with 0. abstract_pow. lia.
  - cbn [append]. rewrite !hexValue_cons, IH, length_append.
    rewrite Nat2N.inj_add, N.pow_add_r. ring.
Qed.

Lemma hexValue_zeros (n : nat) : hexValue (repeatChar "0" n) = 0.
Proof.
  induction n as [|n IH]; [reflexivity|].
  cbn [repeatChar]. rewrite hexValue_cons, IH. cbn. lia.
Qed.

Lemma hexValue_padStart (n : nat) (s : string) :
  hexValue (padStart n "0" s) = hexValue s.
Proof. unfold padStart. rewrite hexValue_append, hexValue_zeros. lia. Qed.

Lemma digitValue_lowerChar (c : ascii) : digitValue (lowerChar c) = digitValue c.
Proof. destruct c as [[] [] [] [] [] [] [] []]; reflexivity. Qed.

Lemma hexValueFrom_toLowerCase (s : string) (acc : N) :
  hexValueFrom acc (toLowerCase s) = hexValueFrom acc s.
Proof.
  revert acc; induction s as [|c s IH]; intros acc; cbn; [reflexivity|].
  now rewrite digitValue_lowerChar, IH.
Qed.

Lemma hexValue_toLowerCase (s : string) : hexValue (toLowerCase s) = hexValue s.
Proof. apply hexValueFrom_toLowerCase. Qed.

Lemma isHexDigit_lowerChar (c : ascii) : isHexDigit (lowerChar c) = isHexDigit c.
Proof. destruct c as [[] [] [] [] [] [] [] []]; reflexivity. Qed.

Lemma allHexDigits_toLowerCase (s : string) :
  allHexDigits (toLowerCase s) = allHexDigits s.
Proof. induction s as [|c s IH]; cbn; [reflexivity|]. now rewrite isHexDigit_lowerChar, IH. Qed.

Lemma allHexDigits_append (a b : string) :
  allHexDigits (a ++ b) = allHexDigits a && allHexDigits b.
Proof. induction a as [|c a IH]; cbn; [reflexivity|]. now rewrite IH, andb_assoc. Qed.

Lemma allHexDigits_substring (n m : nat) (s : string) :
  allHexDigits s = true -> allHexDigits (substring n m s) = true.
Proof.
  revert n m; induction s as [|c s IH]; intros n m H.
  - destruct n, m; reflexivity.
  - cbn in H. apply andb_prop in H as [Hc Hs].
    destruct n, m; cbn; auto.
    rewrite Hc. cbn. auto.
Qed.

Lemma allHexDigits_zeros (n : nat) : allHexDigits (repeatChar "0" n) = true.
Proof. induction n; cbn; auto. Qed.

End HexFacts.

Section HexFixedFacts.

Import Js.

Lemma length_hexFixed (n : nat) (v : N) : String.length (hexFixed n v) = n.
Proof.
  revert v; induction n as [|n IH]; intros v; cbn [hexFixed]; [reflexivity|].
  rewrite length_append, IH. cbn. lia.
Qed.

Lemma digitValue_hexDigit (d : N) : d < 16 -> digitValue (hexDigit d) = d.
Proof.
  intros H.
  assert (Hc : In d [0;1;2;3;4;5;6;7;8;9;10;11;12;13;14;15]).
  { cbn. lia. }
  cbn in Hc. repeat (destruct Hc as [<-|Hc]; [reflexivity|]). contradiction.
Qed.

Lemma isHexDigit_hexDigit (d : N) : d < 16 -> isHexDigit (hexDigit d) = true.
Proof.
  intros H.
  assert (Hc : In d [0;1;2;3;4;5;6;7;8;9;10;11;12;13;14;15]).
  { cbn. lia. }
  cbn in Hc. repeat (destruct Hc as [<-|Hc]; [reflexivity|]). contradiction.
Qed.

Lemma lowerChar_hexDigit (d : N) : d < 16 -> lowerChar (hexDigit d) = hexDigit d.
Proof.
  intros H.
  assert (Hc : In d [0;1;2;3;4;5;6;7;8;9;10;11;12;13;14;15]).
  { cbn. lia. }
  cbn in Hc. repeat (destruct Hc as [<-|Hc]; [reflexivity|]). contradiction.
Qed.

Lemma hexDigit_digitValue (c : ascii) :
  isHexDigit c = true -> hexDigit (digitValue c) = lowerChar c.
Proof. destruct c as [[] [] [] [] [] [] [] []]; cbn; intros H; (reflexivity || discriminate). Qed.

Lemma mod16_lt (v : N) : v mod 16 < 16.
Proof. apply N.mod_lt. discriminate. Qed.

Lemma hexValue_hexFixed (n : nat) (v : N) :
  hexValue (hexFixed n v) = v mod 16 ^ N.of_nat n.
Proof.
  revert v; induction n as [|n IH]; intros v; cbn [hexFixed].
  - cbn. now rewrite N.mod_1_r.
  - rewrite hexValue_append, IH. cbn [String.length].
    change (hexValue (String (hexDigit (v mod 16)) ""))
      with (0 * 16 + digitValue (hexDigit (v mod 16))).
    rewrite (digitValue_hexDigit _ (mod16_lt v)).
    change (16 ^ N.of_nat 1) with 16.
    rewrite Nat2N.inj_succ, N.pow_succ_r', N.Div0.mod_mul_r. ring.
Qed.

Lemma hexValue_hexFixed_small (n : nat) (v : N) :
  v < 16 ^ N.of_nat n -> hexValue (hexFixed n v) = v.
Proof. intros H. rewrite hexValue_hexFixed. now apply N.mod_small. Qed.

Lemma allHexDigits_hexFixed (n : nat) (v : N) : allHexDigits (hexFixed n v) = true.
Proof.
  revert v; induction n as [|n IH]; intros v; cbn [hexFixed]; [reflexivity|].
  rewrite allHexDigits_append, IH. cbn.
  now rewrite (isHexDigit_hexDigit _ (mod16_lt v)).
Qed.

Lemma toLowerCase_hexFixed (n : nat) (v : N) : toLowerCase (hexFixed n v) = hexFixed n v.
Proof.
  revert v; induction n as [|n IH]; intros v; cbn [hexFixed]; [reflexivity|].
  rewrite toLowerCase_append, IH. cbn.
  now rewrite (lowerChar_hexDigit _ (mod16_lt v)).
Qed.

Lemma hexFixed_zero (m : nat) : hexFixed m 0 = repeatChar "0" m.
Proof.
  induction m as [|m IH]; [reflexivity|].
  cbn [hexFixed]. change (0 / 16) with 0. rewrite IH.
  change (hexDigit (0 mod 16)) with "0"%char. apply repeatChar_snoc.
Qed.

(** Leading zeros: the digits beyond those a value needs. *)
Lemma hexFixed_small (k m : nat) (v : N) :
  v < 16 ^ N.of_nat k -> hexFixed (m + k) v = repeatChar "0" m ++ hexFixed k v.
Proof.
  revert v; induction k as [|k IH]; intros v H.
  - cbn in H. assert (v = 0) as -> by lia.
    rewrite Nat.add_0_r, hexFixed_zero. cbn [hexFixed]. now rewrite append_nil_r.
  - rewrite Nat.add_succ_r. cbn [hexFixed].
    rewrite IH, append_assoc; [reflexivity|].
    rewrite Nat2N.inj_succ, N.pow_succ_r' in H.
    apply N.Div0.div_lt_upper_bound. exact H.
Qed.

(** What the loop of toString16 produces: the shortest numeral. *)
Lemma toString16From_spec (fuel : nat) (v : N) (acc : string) :
  v < 16 ^ N.of_nat (S fuel) ->
  exists k : nat,
    (1 <= k <= S fuel)%nat
    /\ toString16From (S fuel) v acc = hexFixed k v ++ acc
    /\ v < 16 ^ N.of_nat k
    /\ (k = 1%nat \/ 16 ^ N.of_nat (k - 1) <= v).
Proof.
  revert v acc; induction fuel as [|fuel IH]; intros v acc Hv.
  - exists 1%nat. change (16 ^ N.of_nat 1) with 16 in Hv.
    cbn [toString16From]. apply N.ltb_lt in Hv as Hb. rewrite Hb.
    split; [lia|]. split; [reflexivity|]. split; [exact Hv | now left].
  - cbn [toString16From]. fold toString16From.
    destruct (v <? 16) eqn:Hb.
    + exists 1%nat. apply N.ltb_lt in Hb.
      split; [lia|]. split; [reflexivity|]. split; [exact Hb | now left].
    + apply N.ltb_ge in Hb.
      assert (Hq : v / 16 < 16 ^ N.of_nat (S fuel)).
      { apply N.Div0.div_lt_upper_bound.
        rewrite <- N.pow_succ_r', <- Nat2N.inj_succ. exact Hv. }
      destruct (IH (v / 16) (String (hexDigit (v mod 16)) acc) Hq)
        as (k & Hk & Heq & Hlt & Hmin).
      exists (S k). repeat split; try lia.
      * change (toString16From (S fuel) (v / 16) (String (hexDigit (v mod 16)) acc)
                = hexFixed (S k) v ++ acc).
        rewrite Heq. cbn [hexFixed]. now rewrite append_assoc.
      * rewrite Nat2N.inj_succ, N.pow_succ_r'.
        pose proof (N.Div0.div_mod v 16) as Hdm. pose proof (mod16_lt v).
        abstract_pow. nia.
      * right. replace (S k - 1)%nat with k by lia.
        destruct Hmin as [->|Hmin].
        -- exact Hb.
        -- replace k with (S (k - 1)) at 1 by lia.
           rewrite Nat2N.inj_succ, N.pow_succ_r'.
           pose proof (N.Div0.mul_div_le v 16) as Hdm.
           abstract_pow. lia.
Qed.

Lemma toString16_fuel (v : N) : v < 16 ^ N.of_nat (S (N.to_nat (N.log2 v))).
Proof.
  rewrite Nat2N.inj_succ, N2Nat.id.
  destruct (N.eq_dec v 0) as [->|Hv]; [reflexivity|].
  pose proof (N.log2_spec v ltac:(lia)) as [_ Hlt].
  eapply N.lt_le_trans; [exact Hlt|].
  apply N.pow_le_mono_l. lia.
Qed.

Lemma toString16_spec (v : N) :
  exists k : nat,
    (1 <= k)%nat
    /\ toString16 v = hexFixed k v
    /\ v < 16 ^ N.of_nat k
    /\ (k = 1%nat \/ 16 ^ N.of_nat (k - 1) <= v).
Proof.
  destruct (toString16From_spec _ v "" (toString16_fuel v)) as (k & Hk & Heq & Hlt & Hmin).
  exists k. unfold toString16. rewrite Heq, append_nil_r. repeat split; auto; lia.
Qed.

(** v.toString(16).padStart(n, "0") for a value of at most n digits. *)
Lemma padStart_toString16 (n : nat) (v : N) :
  (1 <= n)%nat -> v < 16 ^ N.of_nat n ->
  (String.length (toString16 v) <= n)%nat
  /\ padStart n "0" (toString16 v) = hexFixed n v.
Proof.
  intros Hn Hv.
  destruct (toString16_spec v) as (k & Hk & Heq & Hlt & Hmin).
  assert (Hkn : (k <= n)%nat).
  { destruct Hmin as [->|Hmin]; [exact Hn|].
    destruct (Nat.le_gt_cases k n) as [|Hgt]; [assumption|].
    exfalso.
    assert (16 ^ N.of_nat n <= 16 ^ N.of_nat (k - 1)).
    { apply N.pow_le_mono_r; lia. }
    lia. }
  rewrite Heq, length_hexFixed. split; [exact Hkn|].
  unfold padStart. rewrite length_hexFixed.
  replace n with ((n - k) + k)%nat at 2 by lia.
  now rewrite hexFixed_small.
Qed.

(** Reading a numeral and printing it again gives its lower-case form. *)
Lemma hexFixed_hexValueFrom (s : string) (acc : N) (n : nat) :
  allHexDigits s = true ->
  hexFixed (n + String.length s) (hexValueFrom acc s) = hexFixed n acc ++ toLowerCase s.
Proof.
  revert acc n; induction s as [|c s IH]; intros acc n H.
  - cbn. now rewrite Nat.add_0_r, append_nil_r.
  - cbn in H. apply andb_prop in H as [Hc Hs].
    cbn [String.length hexValueFrom toLowerCase].
    rewrite Nat.add_succ_r, <- Nat.add_succ_l, (IH _ (S n) Hs).
    cbn [hexFixed]. rewrite append_assoc. cbn [append].
    pose proof (digitValue_lt c) as Hd.
    replace ((acc * 16 + digitValue c) / 16) with acc
      by (apply N.div_unique with (r := digitValue c); lia).
    replace ((acc * 16 + digitValue c) mod 16) with (digitValue c)
      by (apply N.mod_unique with (q := acc); lia).
    now rewrite (hexDigit_digitValue c Hc).
Qed.

Lemma hexFixed_hexValue (s : string) :
  allHexDigits s = true -> hexFixed (String.length s) (hexValue s) = toLowerCase s.
Proof. intros H. exact (hexFixed_hexValueFrom s 0 0 H). Qed.

End HexFixedFacts.

Section SubstringFacts.

Lemma substring_skip (a b : string) (n m : nat) :
  substring (String.length a + n) m (a ++ b) = substring n m b.
Proof. induction a as [|c a IH]; cbn; [reflexivity | exact IH]. Qed.

Lemma substring_take (a b : string) :
  substring 0 (String.length a) (a ++ b) = a.
Proof.
  induction a as [|c a IH]; cbn.
  - destruct b; reflexivity.
  - now rewrite IH.
Qed.

Lemma substring_whole (s : string) (m : nat) :
  (String.length s <= m)%nat -> substring 0 m s = s.
Proof.
  revert m; induction s as [|c s IH]; intros m H.
  - destruct m; reflexivity.
  - destruct m; cbn in *; [lia|]. rewrite IH; [reflexivity | lia].
Qed.

End SubstringFacts.

Section ViemFacts.

Import Js Viem.

Lemma isHex_prefixed (d : string) : isHex ("0x" ++ d) = allHexDigits d.
Proof. reflexivity. Qed.

Lemma strip0x_prefixed (d : string) : strip0x ("0x" ++ d) = d.
Proof. reflexivity. Qed.

(** A run of hexadecimal digits does not start with "0x". *)
Lemma isHex_digits (d : string) : allHexDigits d = true -> isHex d = false.
Proof.
  destruct d as [|c [|c' d]]; try reflexivity.
  - now destruct c as [[] [] [] [] [] [] [] []].
  - intros H. cbn in H. apply andb_prop in H as [_ H]. apply andb_prop in H as [H _].
    destruct c as [[] [] [] [] [] [] [] []]; try reflexivity.
    destruct c' as [[] [] [] [] [] [] [] []]; try reflexivity; discriminate.
Qed.

Lemma concat_two (a b : Hex) : concat [a; b] = "0x" ++ strip0x a ++ strip0x b.
Proof. reflexivity. Qed.

(** numberToHex(v, { size: 32 }) of a 256-bit value. *)
Lemma numberToHexSized_word (v : N) :
  v < 2 ^ 256 -> numberToHexSized v 32 = Ok ("0x" ++ hexFixed 64 v).
Proof.
  intros Hv. unfold numberToHexSized.
  change (2 ^ (N.of_nat 32 * 8)) with (2 ^ 256).
  assert (Hb : (2 ^ 256 - 1 <? v) = false) by (apply N.ltb_ge; lia).
  rewrite Hb. unfold pad, numberToHex. rewrite strip0x_prefixed.
  destruct (padStart_toString16 64 v ltac:(lia) Hv) as [Hlen Hpad].
  change (32 * 2)%nat with 64%nat.
  assert (Hl : (64 <? String.length (toString16 v))%nat = false)
    by (apply Nat.ltb_ge; exact Hlen).
  now rewrite Hl, Hpad.
Qed.

Lemma BigInt0x_digits (d : string) :
  allHexDigits d = true -> d <> "" -> BigInt0x d = Ok (hexValue d).
Proof. intros H Hne. unfold BigInt0x. destruct d; [contradiction|]. now rewrite H. Qed.

Lemma nonempty_of_length (s : string) (n : nat) :
  String.length s = S n -> s <> "".
Proof. intros H ->. discriminate. Qed.

End ViemFacts.

Section SignatureFacts.

Import Js Viem Sig.

Lemma curveOrder_word (x : N) : isWithinCurveOrder x = true -> x < 2 ^ 256.
Proof.
  unfold isWithinCurveOrder. intros H. apply andb_prop in H as [_ H].
  apply N.ltb_lt in H. eapply N.lt_trans; [exact H|]. reflexivity.
Qed.

Variables rD sD vD : string.
Hypothesis r_length : String.length rD = 64%nat.
Hypothesis s_length : String.length sD = 64%nat.
Hypothesis r_hex : allHexDigits rD = true.
Hypothesis s_hex : allHexDigits sD = true.
Hypothesis v_hex : allHexDigits vD = true.
Hypothesis v_nonempty : vD <> "".
Hypothesis r_valid : isWithinCurveOrder (hexValue rD) = true.
Hypothesis s_valid : isWithinCurveOrder (hexValue sD) = true.

Lemma fromCompact_wellFormed : fromCompact (rD ++ sD) = Ok (hexValue rD, hexValue sD).
Proof.
  unfold fromCompact.
  rewrite length_append, r_length, s_length, allHexDigits_append, r_hex, s_hex.
  cbn [Nat.add Nat.eqb andb].
  unfold slice. cbn [Nat.sub].
  assert (Hr : substring 0 64 (rD ++ sD) = rD).
  { rewrite <- r_length. apply substring_take. }
  assert (Hs : substring 64 64 (rD ++ sD) = sD).
  { pose proof (substring_skip rD sD 0 64) as H.
    rewrite Nat.add_0_r, r_length in H. rewrite H.
    apply substring_whole. lia. }
  now rewrite Hr, Hs, r_valid, s_valid.
Qed.

Lemma hexToSignature_wellFormed :
  hexToSignature ("0x" ++ rD ++ sD ++ vD)
  = Ok {| r := "0x" ++ toLowerCase rD; s := "0x" ++ toLowerCase sD; v := hexValue vD |}.
Proof.
  unfold hexToSignature.
  assert (Hsplit : "0x" ++ rD ++ sD ++ vD = ("0x" ++ rD ++ sD) ++ vD).
  { cbn [append]. now rewrite !append_assoc. }
  assert (Hlen : String.length ("0x" ++ rD ++ sD) = 130%nat).
  { cbn [append String.length]. now rewrite length_append, r_length, s_length. }
  assert (Hcompact : slice 2 130 ("0x" ++ rD ++ sD ++ vD) = rD ++ sD).
  { unfold slice. change (130 - 2)%nat with 128%nat.
    pose proof (substring_skip "0x" (rD ++ sD ++ vD) 0 128) as H.
    cbn [String.length Nat.add] in H. rewrite H.
    rewrite <- append_assoc.
    replace 128%nat with (String.length (rD ++ sD))
      by (rewrite length_append, r_length, s_length; reflexivity).
    apply substring_take. }
  assert (Hv : sliceFrom 130 ("0x" ++ rD ++ sD ++ vD) = vD).
  { unfold sliceFrom. rewrite Hsplit.
    pose proof (substring_skip ("0x" ++ rD ++ sD) vD 0
                  (String.length (("0x" ++ rD ++ sD) ++ vD))) as H.
    rewrite Hlen in H. cbn [Nat.add] in H. rewrite H.
    apply substring_whole. rewrite length_append. lia. }
  rewrite Hcompact, Hv, fromCompact_wellFormed.
  cbn [bind fst snd].
  rewrite (BigInt0x_digits vD v_hex v_nonempty). cbn [bind].
  rewrite (numberToHexSized_word _ (curveOrder_word _ r_valid)).
  rewrite (numberToHexSized_word _ (curveOrder_word _ s_valid)).
  cbn [bind].
  rewrite <- r_length at 1. rewrite <- s_length at 1.
  now rewrite !hexFixed_hexValue.
Qed.

Lemma signatureToHex_wellFormed (v' : N) :
  signatureToHex {| r := "0x" ++ toLowerCase rD; s := "0x" ++ toLowerCase sD; v := v' |}
  = Ok ("0x" ++ (toLowerCase rD ++ toLowerCase sD) ++ sliceFrom 2 (numberToHex v')).
Proof.
  unfold signatureToHex. cbn [r s v].
  assert (Hr : hexToBigInt ("0x" ++ toLowerCase rD) = Ok (hexValue rD)).
  { change (hexToBigInt ("0x" ++ ?d)) with (BigInt0x d).
    rewrite BigInt0x_digits.
    - now rewrite hexValue_toLowerCase.
    - now rewrite allHexDigits_toLowerCase.
    - apply nonempty_of_length with (n := 63%nat).
      now rewrite length_toLowerCase. }
  assert (Hs : hexToBigInt ("0x" ++ toLowerCase sD) = Ok (hexValue sD)).
  { change (hexToBigInt ("0x" ++ ?d)) with (BigInt0x d).
    rewrite BigInt0x_digits.
    - now rewrite hexValue_toLowerCase.
    - now rewrite allHexDigits_toLowerCase.
    - apply nonempty_of_length with (n := 63%nat).
      now rewrite length_toLowerCase. }
  rewrite Hr, Hs. cbn [bind].
  unfold toCompactHex. rewrite r_valid, s_valid. cbn [andb bind].
  destruct (padStart_toString16 64 (hexValue rD) ltac:(lia)
              (curveOrder_word _ r_valid)) as [_ ->].
  destruct (padStart_toString16 64 (hexValue sD) ltac:(lia)
              (curveOrder_word _ s_valid)) as [_ ->].
  rewrite <- r_length at 1. rewrite <- s_length at 1.
  now rewrite !hexFixed_hexValue.
Qed.

Lemma fixSignedData_prefixed :
  fixSignedData ("0x" ++ rD ++ sD ++ vD)
  = Ok ("0x" ++ (toLowerCase rD ++ toLowerCase sD)
             ++ sliceFrom 2 (numberToHex (normalisedV (hexValue vD)))).
Proof.
  unfold fixSignedData.
  rewrite isHex_prefixed, !allHexDigits_append, r_hex, s_hex, v_hex.
  cbn [andb bind].
  rewrite hexToSignature_wellFormed. cbn [bind r s v].
  apply signatureToHex_wellFormed.
Qed.

Lemma fixSignedData_bare :
  fixSignedData (rD ++ sD ++ vD) = fixSignedData ("0x" ++ rD ++ sD ++ vD).
Proof.
  unfold fixSignedData at 1.
  rewrite isHex_digits by (now rewrite !allHexDigits_append, r_hex, s_hex, v_hex).
  rewrite isHex_prefixed, !allHexDigits_append, r_hex, s_hex, v_hex.
  cbn [andb]. unfold fixSignedData.
  rewrite isHex_prefixed, !allHexDigits_append, r_hex, s_hex, v_hex.
  reflexivity.
Qed.

End SignatureFacts.

(** * Lower-case numerals compare as the numbers they denote *)

Section CompareFacts.

Import Js Viem.

Lemma isLowerHexDigit_lowerChar (c : ascii) :
  isHexDigit c = true -> isLowerHexDigit (lowerChar c) = true.
Proof. destruct c as [[] [] [] [] [] [] [] []]; cbn; intros H; (reflexivity || discriminate). Qed.

Lemma allLowerHex_toLowerCase (s : string) :
  allHexDigits s = true -> allLowerHex (toLowerCase s) = true.
Proof.
  induction s as [|c s IH]; cbn; [reflexivity|].
  intros H. apply andb_prop in H as [Hc Hs].
  now rewrite (isLowerHexDigit_lowerChar c Hc), IH.
Qed.

(** On lower-case digits the code unit order is the order of values. *)
Lemma compare_lowerDigits (c1 c2 : ascii) :
  isLowerHexDigit c1 = true -> isLowerHexDigit c2 = true ->
  Ascii.compare c1 c2 = N.compare (digitValue c1) (digitValue c2).
Proof.
  unfold Ascii.compare, isLowerHexDigit, digitValue, hexDigitValue.
  set (n1 := N_of_ascii c1). set (n2 := N_of_ascii c2). clearbody n1 n2.
  intros H1 H2.
  repeat match goal with
         | |- context [if ?b then _ else _] => destruct b eqn:?
         end;
    repeat match goal with
           | H : (_ || _)%bool = true |- _ => apply orb_prop in H; destruct H
           | H : (_ && _)%bool = true |- _ => apply andb_prop in H; destruct H
           | H : (_ && _)%bool = false |- _ => apply andb_false_iff in H; destruct H
           | H : (_ <=? _) = true |- _ => apply N.leb_le in H
           | H : (_ <=? _) = false |- _ => apply N.leb_gt in H
           end;
    try lia;
    destruct (N.compare_spec n1 n2);
    match goal with
    | |- _ = (?x ?= ?y) => destruct (N.compare_spec x y)
    end; try reflexivity; lia.
Qed.

Lemma compare_lowerHex (a b : string) :
  String.length a = String.length b ->
  allLowerHex a = true -> allLowerHex b = true ->
  String.compare a b = N.compare (hexValue a) (hexValue b).
Proof.
  revert b; induction a as [|c1 a IH]; intros [|c2 b] Hlen Ha Hb;
    try discriminate; [reflexivity|].
  cbn in Ha, Hb, Hlen.
  apply andb_prop in Ha as [Hc1 Ha]. apply andb_prop in Hb as [Hc2 Hb].
  injection Hlen as Hlen.
  cbn [String.compare]. rewrite (compare_lowerDigits c1 c2 Hc1 Hc2), !hexValue_cons.
  rewrite (IH b Hlen Ha Hb), <- Hlen.
  pose proof (hexValue_bound a) as Ba. pose proof (hexValue_bound b) as Bb.
  rewrite <- Hlen in Bb.
  set (P := 16 ^ N.of_nat (String.length a)) in *. clearbody P.
  set (x := hexValue a) in *. set (y := hexValue b) in *.
  set (d1 := digitValue c1). set (d2 := digitValue c2). clearbody x y d1 d2.
  destruct (N.compare_spec d1 d2) as [->|Hd|Hd].
  - destruct (N.compare_spec x y) as [->|Hxy|Hxy].
    + symmetry. apply N.compare_refl.
    + symmetry. apply N.compare_lt_iff. lia.
    + symmetry. apply N.compare_gt_iff. lia.
  - symmetry. apply N.compare_lt_iff. nia.
  - symmetry. apply N.compare_gt_iff. nia.
Qed.

Lemma length_padStart (n : nat) (c : ascii) (s : string) :
  (String.length s <= n)%nat -> String.length (padStart n c s) = n.
Proof. intros H. unfold padStart. rewrite length_append, length_repeatChar. lia. Qed.

Lemma allHexDigits_padStart (n : nat) (s : string) :
  allHexDigits s = true -> allHexDigits (padStart n "0" s) = true.
Proof. intros H. unfold padStart. now rewrite allHexDigits_append, allHexDigits_zeros. Qed.

Lemma getFormattedHex_hex (d : string) :
  allHexDigits d = true -> (String.length d <= 64)%nat ->
  getFormattedHex ("0x" ++ d) = Ok (formatted d).
Proof.
  intros Hd Hlen. unfold getFormattedHex.
  rewrite isHex_prefixed, Hd. unfold pad. rewrite strip0x_prefixed.
  change (32 * 2)%nat with 64%nat.
  assert (Hl : (64 <? String.length d)%nat = false) by (apply Nat.ltb_ge; exact Hlen).
  rewrite Hl. reflexivity.
Qed.

Lemma compare_formatted (a b : string) :
  allHexDigits a = true -> allHexDigits b = true ->
  (String.length a <= 64)%nat -> (String.length b <= 64)%nat ->
  String.compare (formatted a) (formatted b) = N.compare (hexValue a) (hexValue b).
Proof.
  intros Ha Hb La Lb. unfold formatted.
  change (String.compare ("0x" ++ ?x) ("0x" ++ ?y)) with (String.compare x y).
  rewrite compare_lowerHex.
  - now rewrite !hexValue_toLowerCase, !hexValue_padStart.
  - now rewrite !length_toLowerCase, !length_padStart.
  - apply allLowerHex_toLowerCase. now apply allHexDigits_padStart.
  - apply allLowerHex_toLowerCase. now apply allHexDigits_padStart.
Qed.

Lemma N_eqb_compare (x y : N) :
  (x =? y) = match x ?= y with Eq => true | _ => false end.
Proof.
  destruct (N.compare_spec x y) as [->|H|H].
  - apply N.eqb_refl.
  - apply N.eqb_neq. lia.
  - apply N.eqb_neq. lia.
Qed.

Lemma evaluateRuleCondition_formatted (a b : string) (c : ParamOperator) :
  allHexDigits a = true -> allHexDigits b = true ->
  (String.length a <= 64)%nat -> (String.length b <= 64)%nat ->
  evaluateRuleCondition (formatted a) (formatted b) c
  = spec_compare c (hexValue a) (hexValue b).
Proof.
  intros Ha Hb La Lb.
  pose proof (compare_formatted a b Ha Hb La Lb) as Hab.
  pose proof (compare_formatted b a Hb Ha Lb La) as Hba.
  destruct c; cbn [evaluateRuleCondition spec_compare];
    unfold Js.strictEq, Js.gt, Js.lt, Js.ge, Js.le, String.ltb;
    rewrite ?eqb_compare, ?Hab, ?Hba, ?N_eqb_compare;
    unfold N.ltb, N.leb;
    rewrite ?(N.compare_antisym (hexValue a) (hexValue b));
    destruct (hexValue a ?= hexValue b); reflexivity.
Qed.

End CompareFacts.

(** * The permission matcher *)

Section SortFacts.

Lemma insertByValueLimit_perm (a : Permission) (l : list Permission) :
  Permutation (a :: l) (insertByValueLimit a l).
Proof.
  induction l as [|b l IH]; cbn; [apply Permutation_refl|].
  destruct (valueLimit a <? valueLimit b).
  - eapply perm_trans; [apply perm_swap|]. now apply perm_skip.
  - apply Permutation_refl.
Qed.

Lemma sortByValueLimit_perm (l : list Permission) :
  Permutation l (sortByValueLimit l).
Proof.
  induction l as [|a l IH]; cbn; [constructor|].
  eapply perm_trans; [apply perm_skip, IH | apply insertByValueLimit_perm].
Qed.

Lemma insertByValueLimit_sorted (a : Permission) (l : list Permission) :
  StronglySorted byValueLimitDesc l ->
  StronglySorted byValueLimitDesc (insertByValueLimit a l).
Proof.
  induction 1 as [|b l Hs IH Hall]; cbn.
  - repeat constructor.
  - destruct (valueLimit a <? valueLimit b) eqn:E.
    + apply N.ltb_lt in E. constructor; [exact IH|].
      eapply Permutation_Forall; [apply insertByValueLimit_perm|].
      constructor; [unfold byValueLimitDesc; lia | exact Hall].
    + apply N.ltb_ge in E. constructor; [now constructor|].
      constructor; [exact E|].
      eapply Forall_impl; [|exact Hall].
      unfold byValueLimitDesc. intros c Hc. lia.
Qed.

Lemma sortByValueLimit_sorted (l : list Permission) :
  StronglySorted byValueLimitDesc (sortByValueLimit l).
Proof.
  induction l as [|a l IH]; cbn; [constructor|].
  now apply insertByValueLimit_sorted.
Qed.

Lemma sortByValueLimit_nonempty (l : list Permission) :
  isEmpty (sortByValueLimit l) = isEmpty l.
Proof.
  destruct l as [|a l]; [reflexivity|].
  unfold sortByValueLimit. cbn [fold_right].
  destruct (fold_right insertByValueLimit [] l) as [|b l'];
    cbn [insertByValueLimit]; [reflexivity|].
  now destruct (valueLimit a <? valueLimit b).
Qed.

End SortFacts.

Section RuleFacts.

Import Js Viem.

Lemma isHex_split (h : string) :
  isHex h = true -> h = "0x" ++ strip0x h /\ allHexDigits (strip0x h) = true.
Proof.
  intros H. destruct h as [|c0 h1]; [discriminate H|].
  destruct c0 as [[] [] [] [] [] [] [] []]; cbn in H; try discriminate H.
  destruct h1 as [|c1 d]; [discriminate H|].
  destruct c1 as [[] [] [] [] [] [] [] []]; cbn in H; try discriminate H.
  split; [reflexivity | exact H].
Qed.

Lemma dataWord_hex (data_ : string) (rule : ParamRules) :
  isHex data_ = true ->
  allHexDigits (dataWord data_ rule) = true
  /\ (String.length (dataWord data_ rule) <= 64)%nat.
Proof.
  intros H. unfold dataWord, slice.
  replace (10 + offset rule * 2 + 64 - (10 + offset rule * 2))%nat with 64%nat by lia.
  split; [|apply length_substring_le].
  destruct (isHex_split _ H) as [-> Hd].
  change (10 + offset rule * 2)%nat with (S (S (8 + offset rule * 2))).
  cbn [substring append]. now apply allHexDigits_substring.
Qed.

Lemma length_substring (n m : nat) (s : string) :
  (n + m <= String.length s)%nat -> String.length (substring n m s) = m.
Proof.
  revert n m; induction s as [|c s IH]; intros n m H; cbn in H.
  - assert (n = 0%nat) by lia. assert (m = 0%nat) by lia. subst. reflexivity.
  - destruct n, m; cbn; try reflexivity.
    + rewrite IH; [reflexivity | lia].
    + apply IH. lia.
    + apply IH. lia.
Qed.

(** An offset within the call data selects a full 32-byte word. *)
Lemma dataWord_length (data_ : string) (rule : ParamRules) :
  (10 + offset rule * 2 + 64 <= String.length data_)%nat ->
  String.length (dataWord data_ rule) = 64%nat.
Proof.
  intros H. unfold dataWord, slice.
  replace (10 + offset rule * 2 + 64 - (10 + offset rule * 2))%nat with 64%nat by lia.
  apply length_substring. lia.
Qed.

Lemma rule_evaluation (data_ : string) (rule : ParamRules) :
  isHex data_ = true -> wellFormedRule rule ->
  getFormattedHex ("0x" ++ dataWord data_ rule) = Ok (formatted (dataWord data_ rule))
  /\ getFormattedHex (param rule) = Ok (formatted (strip0x (param rule)))
  /\ evaluateRuleCondition (formatted (dataWord data_ rule))
       (formatted (strip0x (param rule))) (condition rule)
     = spec_ruleHolds data_ rule.
Proof.
  intros Hd [Hp Hl].
  destruct (dataWord_hex data_ rule Hd) as [Hw Hwl].
  destruct (isHex_split _ Hp) as [Hsplit Hph].
  split; [now apply getFormattedHex_hex|].
  split.
  - rewrite Hsplit at 1. now apply getFormattedHex_hex.
  - now apply evaluateRuleCondition_formatted.
Qed.

Lemma rulesPass_spec (rs : list ParamRules) (data_ : string) :
  isHex data_ = true -> Forall wellFormedRule rs ->
  rulesPass rs data_ = Ok (forallb (spec_ruleHolds data_) rs).
Proof.
  intros Hd. induction 1 as [|rule rs Hr _ IH]; [reflexivity|].
  destruct (rule_evaluation data_ rule Hd Hr) as (E1 & E2 & E3).
  cbn [rulesPass forallb]. rewrite E1, E2. cbn [bind]. rewrite E3.
  destruct (spec_ruleHolds data_ rule); [exact IH | reflexivity].
Qed.

Lemma findPermissionByRule_spec (ps : list Permission) (data_ : string) :
  isHex data_ = true ->
  Forall (fun p => Forall wellFormedRule (rules p)) ps ->
  findPermissionByRule ps data_ = Ok (find (spec_permissionPasses data_) ps).
Proof.
  intros Hd. induction 1 as [|p ps Hp _ IH]; [reflexivity|].
  cbn [findPermissionByRule find]. rewrite (rulesPass_spec _ _ Hd Hp). cbn [bind].
  unfold spec_permissionPasses at 1.
  destruct (forallb (spec_ruleHolds data_) (rules p)); [reflexivity | exact IH].
Qed.

End RuleFacts.

Section FilterFacts.

Lemma filterByOperation_Call (ps : list Permission) : filterByOperation ps Call = ps.
Proof.
  unfold filterByOperation. induction ps as [|p ps IH]; [reflexivity|].
  cbn [filter]. rewrite orb_true_r. now rewrite IH.
Qed.

(** filterOne is the search among the sorted candidates. *)
Lemma filterOne_candidates (ps : list Permission) (target_ : Address)
  (data_ : Hex) (value_ : N) :
  filterOne ps (target_, (data_, value_))
  = findPermissionByRule (sortByValueLimit (candidates ps target_ data_ value_)) data_.
Proof.
  unfold filterOne, candidates.
  destruct ps as [|p0 ps0]; [reflexivity|].
  cbn [isEmpty].
  set (ps := p0 :: ps0).
  set (targetPermissions := filter _ ps).
  rewrite filterByOperation_Call.
  destruct targetPermissions as [|t ts] eqn:Et; [reflexivity|].
  cbn [isEmpty].
  set (valueLimitPermissions := filter _ (filterBySignature (t :: ts) _)).
  destruct valueLimitPermissions; reflexivity.
Qed.

End FilterFacts.

Section MapFacts.

Lemma filter_map_commute {A : Type} (P : A -> bool) (g : A -> A) (l : list A) :
  (forall x, P (g x) = P x) -> filter P (map g l) = map g (filter P l).
Proof.
  intros H. induction l as [|a l IH]; [reflexivity|].
  cbn. rewrite H, IH. now destruct (P a).
Qed.

Lemma mapM_mapResult {A B C : Type} (f : A -> Result B) (h : B -> C) (l : list A) :
  mapM (fun a => mapResult h (f a)) l = mapResult (map h) (mapM f l).
Proof.
  induction l as [|a l IH]; [reflexivity|].
  cbn [mapM]. rewrite IH.
  destruct (f a); [|reflexivity]. cbn. now destruct (mapM f l).
Qed.

Lemma mapM_ext {A B : Type} (f g : A -> Result B) (l : list A) :
  (forall a, f a = g a) -> mapM f l = mapM g l.
Proof. intros H. induction l as [|a l IH]; [reflexivity|]. cbn. now rewrite H, IH. Qed.

Lemma allDefined_map {A : Type} (g : A -> A) (l : list (option A)) :
  allDefined (map (option_map g) l) = option_map (map g) (allDefined l).
Proof.
  induction l as [|[a|] l IH]; [reflexivity| |reflexivity].
  cbn. rewrite IH. now destruct (allDefined l).
Qed.

Lemma allDefined_None {A : Type} (l : list (option A)) :
  In None l -> allDefined l = None.
Proof.
  induction l as [|[a|] l IH]; cbn; [tauto| |reflexivity].
  intros [H|H]; [discriminate|]. now rewrite IH.
Qed.

Lemma mapM_In {A B : Type} (f : A -> Result B) (l : list A) (r : list B) (a : A) :
  mapM f l = Ok r -> In a l -> exists b, f a = Ok b /\ In b r.
Proof.
  revert r; induction l as [|x l IH]; intros r Hm Hin; [contradiction|].
  cbn in Hm. destruct (f x) as [b|] eqn:Ex; [|discriminate].
  destruct (mapM f l) as [bs|] eqn:El; [|discriminate].
  cbn in Hm. injection Hm as <-.
  destruct Hin as [->|Hin].
  - exists b. split; [exact Ex | now left].
  - destruct (IH bs eq_refl Hin) as (b' & Hb & Hin'). exists b'. split; [exact Hb | now right].
Qed.

Lemma combine_triples (calls : list (Address * N * Hex)) :
  combine (map (fun c => fst (fst c)) calls)
          (combine (map (fun c => snd c) calls) (map (fun c => snd (fst c)) calls))
  = map tripleOf calls.
Proof. induction calls as [|c calls IH]; [reflexivity|]. cbn. now rewrite IH. Qed.

End MapFacts.

Section RetagFacts.

Variable f : Permission -> Operation.

Lemma insertByValueLimit_retag (a : Permission) (l : list Permission) :
  insertByValueLimit (retag f a) (map (retag f) l)
  = map (retag f) (insertByValueLimit a l).
Proof.
  induction l as [|b l IH]; [reflexivity|].
  cbn [map insertByValueLimit retag withOperation valueLimit].
  destruct (valueLimit a <? valueLimit b); [|reflexivity].
  cbn [map]. f_equal. exact IH.
Qed.

Lemma sortByValueLimit_retag (l : list Permission) :
  sortByValueLimit (map (retag f) l) = map (retag f) (sortByValueLimit l).
Proof.
  induction l as [|a l IH]; [reflexivity|].
  unfold sortByValueLimit in *. cbn [map fold_right].
  rewrite IH. apply insertByValueLimit_retag.
Qed.

Lemma candidates_retag (ps : list Permission) (target_ : Address) (data_ : Hex)
  (value_ : N) :
  candidates (map (retag f) ps) target_ data_ value_
  = map (retag f) (candidates ps target_ data_ value_).
Proof.
  unfold candidates, filterBySignature.
  rewrite !filter_map_commute; reflexivity.
Qed.

Lemma findPermissionByRule_retag (ps : list Permission) (data_ : string) :
  findPermissionByRule (map (retag f) ps) data_
  = mapResult (option_map (retag f)) (findPermissionByRule ps data_).
Proof.
  induction ps as [|p ps IH]; [reflexivity|].
  cbn [map findPermissionByRule]. change (rules (retag f p)) with (rules p).
  destruct (rulesPass (rules p) data_) as [[|]|]; cbn [bind]; [reflexivity|exact IH|reflexivity].
Qed.

Lemma filterOne_retag (ps : list Permission) (call_ : Address * (Hex * N)) :
  filterOne (map (retag f) ps) call_
  = mapResult (option_map (retag f)) (filterOne ps call_).
Proof.
  destruct call_ as [t [d v]].
  now rewrite !filterOne_candidates, candidates_retag, sortByValueLimit_retag,
    findPermissionByRule_retag.
Qed.

Lemma filterPermissions_retag (ps : list Permission) (targets : list Address)
  (dataArray : list Hex) (values : list N) :
  filterPermissions (map (retag f) ps) targets dataArray values
  = mapResult (option_map (map (retag f)))
      (filterPermissions ps targets dataArray values).
Proof.
  unfold filterPermissions.
  destruct (negb _ || negb _); [reflexivity|].
  rewrite (mapM_ext _ _ _ (filterOne_retag ps)), mapM_mapResult.
  destruct (mapM (filterOne ps) _); [|reflexivity].
  cbn [mapResult bind]. now rewrite allDefined_map.
Qed.

End RetagFacts.

Section UnmatchedFacts.

Lemma filterPermissions_unmatched (ps : list Permission) (targets : list Address)
  (dataArray : list Hex) (values : list N) (call_ : Address * (Hex * N)) :
  In call_ (combine targets (combine dataArray values)) ->
  unmatched ps call_ ->
  forall found, filterPermissions ps targets dataArray values <> Ok (Some found).
Proof.
  intros Hin Hun found. unfold filterPermissions.
  destruct (negb _ || negb _); [discriminate|].
  destruct (mapM (filterOne ps) _) as [r|] eqn:Em; [|discriminate].
  cbn [bind]. destruct (mapM_In _ _ _ _ Em Hin) as (b & Hb & Hinb).
  destruct b as [p|]; [now elim (Hun p)|].
  now rewrite (allDefined_None _ Hinb).
Qed.

(** A call whose selector differs from the selector of every permission. *)
Lemma selector_mismatch_unmatched (ps : list Permission) (target_ : Address)
  (data_ : Hex) (value_ : N) :
  (forall p, In p ps ->
             Js.toLowerCase (sig p) <> Js.toLowerCase (Js.slice 0 10 data_)) ->
  filterOne ps (target_, (data_, value_)) = Ok None.
Proof.
  intros H. rewrite filterOne_candidates.
  assert (E : candidates ps target_ data_ value_ = []).
  { unfold candidates, filterBySignature.
    set (tp := filter _ ps).
    assert (Hsub : forall p, In p tp -> In p ps).
    { intros p Hp. unfold tp in Hp. now apply filter_In in Hp. }
    clearbody tp.
    induction tp as [|p tp IH]; [reflexivity|].
    cbn [filter]. unfold Js.strictEq at 1.
    destruct (String.eqb_spec (Js.toLowerCase (sig p)) (Js.toLowerCase (Js.slice 0 10 data_)))
      as [E|_].
    - elim (H p); [now apply Hsub; left | exact E].
    - apply IH. intros q Hq. apply Hsub. now right. }
  now rewrite E.
Qed.

End UnmatchedFacts.

(** * The Merkle commitment *)

Section MerkleFacts.

Import MerkleTreeJs.

Variable hashFn : Hex -> Hex.
Variable P : Hex -> Prop.
Hypothesis hashed : forall x, P (bufferify (hashFn x)).

Lemma nextLayer_invariant (sortPairs : bool) (n : nat) (nodes : list Hex) :
  (List.length nodes <= n)%nat -> Forall P nodes ->
  Forall P (nextLayer hashFn sortPairs nodes).
Proof.
  revert nodes; induction n as [|n IH]; intros nodes Hlen Hall.
  - destruct nodes; [constructor | cbn in Hlen; lia].
  - destruct nodes as [|a [|b rest]]; [constructor | exact Hall |].
    cbn [nextLayer]. constructor; [apply hashed|].
    apply IH; [cbn in Hlen; lia|].
    inversion Hall as [|? ? _ Hall']. now inversion Hall'.
Qed.

Lemma nextLayer_length (sortPairs : bool) (n : nat) (nodes : list Hex) :
  (List.length nodes <= n)%nat ->
  (2 * List.length (nextLayer hashFn sortPairs nodes) <= List.length nodes + 1)%nat.
Proof.
  revert nodes; induction n as [|n IH]; intros nodes Hlen.
  - destruct nodes; [cbn; lia | cbn in Hlen; lia].
  - destruct nodes as [|a [|b rest]]; [cbn; lia | cbn; lia |].
    cbn [nextLayer List.length] in *.
    specialize (IH rest ltac:(lia)). lia.
Qed.

Lemma nextLayer_nonempty (sortPairs : bool) (nodes : list Hex) :
  nodes <> [] -> nextLayer hashFn sortPairs nodes <> [].
Proof. destruct nodes as [|a [|b rest]]; cbn; congruence. Qed.

(** The last layer holds nodes of the tree, and at least one. *)
Lemma createHashes_last (sortPairs : bool) (fuel : nat) (nodes : list Hex) :
  Forall P nodes -> nodes <> [] ->
  Forall P (last (createHashes hashFn fuel sortPairs nodes) [])
  /\ last (createHashes hashFn fuel sortPairs nodes) [] <> [].
Proof.
  revert nodes; induction fuel as [|fuel IH]; intros nodes Hall Hne.
  - cbn. now split.
  - cbn [createHashes].
    destruct (1 <? List.length nodes)%nat; [|cbn; now split].
    specialize (IH (nextLayer hashFn sortPairs nodes)
                  (nextLayer_invariant _ _ _ (le_n _) Hall)
                  (nextLayer_nonempty _ _ Hne)).
    destruct (createHashes hashFn fuel sortPairs (nextLayer hashFn sortPairs nodes))
      as [|l ls] eqn:E.
    + destruct fuel; discriminate E.
    + exact IH.
Qed.

(** With as much fuel as there are leaves the loop has run to its end:
    the last layer is a single node. *)
Lemma createHashes_complete (sortPairs : bool) (fuel : nat) (nodes : list Hex) :
  (List.length nodes <= S fuel)%nat ->
  (List.length (last (createHashes hashFn fuel sortPairs nodes) []) <= 1)%nat.
Proof.
  revert nodes; induction fuel as [|fuel IH]; intros nodes Hlen.
  - exact Hlen.
  - cbn [createHashes].
    destruct (1 <? List.length nodes)%nat eqn:E.
    + pose proof (nextLayer_length sortPairs _ nodes (le_n _)) as Hn.
      specialize (IH (nextLayer hashFn sortPairs nodes) ltac:(lia)).
      destruct (createHashes hashFn fuel sortPairs (nextLayer hashFn sortPairs nodes))
        as [|l ls] eqn:Ec.
      * destruct fuel; discriminate Ec.
      * exact IH.
    + apply Nat.ltb_ge in E. exact E.
Qed.

Lemma getHexRoot_hashed (input : list Hex) (sortPairs : bool) :
  input <> [] -> P (getHexRoot (new hashFn input sortPairs true)).
Proof.
  intros Hne. unfold getHexRoot, new. cbn [layers].
  set (ls := map bufferify (map hashFn input)).
  assert (Hall : Forall P ls).
  { unfold ls. clear Hne ls.
    induction input as [|a input IH]; cbn [map]; constructor; [apply hashed | exact IH]. }
  assert (Hls : ls <> []).
  { unfold ls. destruct input; [contradiction | discriminate]. }
  destruct (createHashes_last sortPairs (List.length ls) ls Hall Hls) as [Hl Hn].
  destruct (last (createHashes hashFn (List.length ls) sortPairs ls) []) as [|root rest];
    [contradiction|].
  now inversion Hl.
Qed.

End MerkleFacts.

Section RootFacts.

Context {X : Externals}.

Lemma sentinel_tree :
  buildMerkleTree []
  = {| MerkleTreeJs.leaves := [zeroWord]; MerkleTreeJs.layers := [[zeroWord]] |}.
Proof. reflexivity. Qed.

Lemma sentinel_root : MerkleTreeJs.getHexRoot (buildMerkleTree []) = zeroWord.
Proof. reflexivity. Qed.

Lemma root_isDigest (ps : list Permission) :
  ps <> [] -> isDigest (MerkleTreeJs.getHexRoot (buildMerkleTree ps)).
Proof.
  intros Hne. unfold buildMerkleTree.
  destruct ps as [|p ps]; [contradiction|]. cbn [isEmpty negb].
  apply (getHexRoot_hashed keccak256 isDigest).
  - intros x. now exists x.
  - cbn [map]. destruct (map _ ps); discriminate.
Qed.

Lemma lowerChar_zero (c : ascii) : Js.lowerChar c = "0"%char -> c = "0"%char.
Proof. destruct c as [[] [] [] [] [] [] [] []]; cbn; intros H; (reflexivity || discriminate). Qed.

Lemma toLowerCase_zeros (d : string) (n : nat) :
  Js.toLowerCase d = Js.repeatChar "0" n -> d = Js.repeatChar "0" n.
Proof.
  revert n; induction d as [|c d IH]; intros [|n] H; cbn in *; try discriminate;
    [reflexivity|].
  injection H as Hc Hd. now rewrite (lowerChar_zero c Hc), (IH n Hd).
Qed.

Lemma digest_facts (h : Hex) :
  Keccak256Spec -> isDigest h ->
  h <> zeroWord /\ Viem.pad h 32 = Ok h /\ hexLen h = 64%nat.
Proof.
  intros HK [x ->]. destruct (HK x) as [(d & Hd & Hlen) Hnz].
  unfold MerkleTreeJs.bufferify. rewrite Hd, strip0x_prefixed.
  split; [|split].
  - intros E. apply Hnz. rewrite Hd.
    change zeroWord with ("0x" ++ Js.repeatChar "0" 64) in *.
    injection E as E. now rewrite (toLowerCase_zeros d 64 E).
  - unfold Viem.pad. rewrite strip0x_prefixed, length_toLowerCase, Hlen.
    cbn [Nat.mul Nat.add Nat.ltb Nat.leb]. unfold Js.padStart.
    rewrite length_toLowerCase, Hlen. reflexivity.
  - unfold hexLen. now rewrite strip0x_prefixed, length_toLowerCase.
Qed.

Lemma sentinel_facts :
  Viem.pad zeroWord 32 = Ok zeroWord /\ hexLen zeroWord = 64%nat.
Proof. split; reflexivity. Qed.

End RootFacts.

(** * Errors of the signing pipeline *)

Section BenignFacts.

Lemma benign_Ok {A : Type} (a : A) : benign (Ok a).
Proof. discriminate. Qed.

Lemma benign_bind {A B : Type} (r : Result A) (k : A -> Result B) :
  benign r -> (forall a, benign (k a)) -> benign (bind r k).
Proof.
  intros Hr Hk. destruct r as [a|e]; cbn; [apply Hk|].
  intros [= ->]. now apply Hr.
Qed.

Lemma benign_await {A : Type} (p : Outcome A) : benign (await p).
Proof. destruct p; discriminate. Qed.

Lemma benign_pad (h : Hex) (n : nat) : benign (Viem.pad h n).
Proof. unfold Viem.pad. destruct (_ <? _)%nat; discriminate. Qed.

Lemma benign_padNumber (v : N) (n : nat) : benign (padNumber v n).
Proof.
  unfold padNumber, toHexNumber. destruct (_ <? _); cbn; [discriminate | apply benign_pad].
Qed.

Lemma benign_byteLength (h : Hex) : benign (byteLength h).
Proof. unfold byteLength. destruct (Nat.even _); discriminate. Qed.

Lemma benign_BigInt0x (d : string) : benign (Js.BigInt0x d).
Proof. unfold Js.BigInt0x. destruct d; [discriminate|]. destruct (Js.allHexDigits _); discriminate. Qed.

Lemma benign_hexToBigInt (h : Hex) : benign (Viem.hexToBigInt h).
Proof.
  destruct h as [|c0 [|c1 d]]; try discriminate;
    destruct c0 as [[] [] [] [] [] [] [] []]; try discriminate.
  destruct c1 as [[] [] [] [] [] [] [] []]; try discriminate.
  apply benign_BigInt0x.
Qed.

Lemma benign_numberToHexSized (v : N) (n : nat) : benign (Viem.numberToHexSized v n).
Proof.
  unfold Viem.numberToHexSized. destruct (_ <? _); [discriminate | apply benign_pad].
Qed.

Lemma benign_hexToSignature (h : Hex) : benign (Sig.hexToSignature h).
Proof.
  unfold Sig.hexToSignature.
  apply benign_bind.
  { unfold Sig.fromCompact. destruct (_ && _)%bool; [|discriminate].
    destruct (_ && _)%bool; discriminate. }
  intros rs. apply benign_bind; [apply benign_BigInt0x|]. intros v.
  apply benign_bind; [apply benign_numberToHexSized|]. intros r.
  apply benign_bind; [apply benign_numberToHexSized|]. intros s.
  apply benign_Ok.
Qed.

Lemma benign_signatureToHex (sg : Sig.Signature) : benign (Sig.signatureToHex sg).
Proof.
  unfold Sig.signatureToHex.
  apply benign_bind; [apply benign_hexToBigInt|]. intros r.
  apply benign_bind; [apply benign_hexToBigInt|]. intros s.
  apply benign_bind; [|intros; apply benign_Ok].
  unfold Sig.toCompactHex. destruct (_ && _)%bool; discriminate.
Qed.

Lemma benign_fixSignedData (sig_ : Hex) : benign (fixSignedData sig_).
Proof.
  unfold fixSignedData.
  apply benign_bind.
  { destruct (Viem.isHex sig_); [discriminate|].
    destruct (Viem.isHex _); discriminate. }
  intros signature_. apply benign_bind; [apply benign_hexToSignature|].
  intros sg. apply benign_signatureToHex.
Qed.

Context {X : Externals}.

Lemma benign_getEnableData (v : SessionKeyValidator) (account : option Address) :
  benign (sk_getEnableData v account).
Proof.
  unfold sk_getEnableData. destruct (truthy account); [|discriminate].
  apply benign_bind; [apply benign_await|]. intros nonces.
  apply benign_bind; [apply benign_pad|]. intros root.
  apply benign_bind; [apply benign_padNumber|]. intros after_.
  apply benign_bind; [apply benign_padNumber|]. intros until_.
  apply benign_bind; [apply benign_pad|]. intros nonceWord.
  apply benign_Ok.
Qed.

Lemma benign_getValidatorSignature (v : SessionKeyValidator) (account : Address)
  (enableSig : option Hex) :
  benign (getValidatorSignature v account enableSig).
Proof.
  unfold getValidatorSignature. destruct (mode v); try apply benign_Ok.
  apply benign_bind; [apply benign_getEnableData|]. intros enableData.
  destruct (truthy enableSig); [|discriminate].
  repeat (apply benign_bind;
          [first [apply benign_padNumber | apply benign_pad | apply benign_byteLength]
          | intros ?]).
  apply benign_Ok.
Qed.

End BenignFacts.

(** * Signing with the session-key validator *)

Section SigningFacts.

Context {X : Externals}.

Lemma constructed_validator (client : Client) (args : SessionKeyValidatorArgs)
  (v : SessionKeyValidator) :
  signerToSessionKeyValidator client args = Ok v ->
  sk_sessionKeyData v = normalizeSessionKeyData (sessionKeyData (arg_validatorData args))
  /\ merkleTree v = buildMerkleTree (permissions (sk_sessionKeyData v)).
Proof.
  unfold signerToSessionKeyValidator.
  destruct (await (getChainId client)); cbn [bind]; [|discriminate].
  intros [= <-]. split; reflexivity.
Qed.

(** Without permissions every call data passes, with an empty proof. *)
Lemma proofData_no_permissions (v : SessionKeyValidator) (callData_ : Hex) :
  permissions (sk_sessionKeyData v) = [] ->
  merkleTree v = buildMerkleTree [] ->
  getEncodedPermissionProofData v callData_ = Ok "0x".
Proof.
  intros Hp Ht. unfold getEncodedPermissionProofData.
  rewrite Ht, sentinel_root, Hp.
  change (Js.strictEq zeroWord zeroWord) with true.
  cbn [negb andb isEmpty]. rewrite andb_false_r.
  now destruct (findMatchingPermissions v callData_).
Qed.

Lemma findMatchingPermissions_unmatched (v : SessionKeyValidator) (callData_ : Hex) :
  hasUnmatchedCall v callData_ -> findMatchingPermissions v callData_ = None.
Proof.
  unfold findMatchingPermissions.
  intros [(to_ & value_ & data_ & op & Hd & Hun) | (calls & c & Hd & Hin & Hun)];
    rewrite Hd; cbn [await bind].
  - pose proof (filterPermissions_unmatched _ [to_] [data_] [value_] _
                  (or_introl eq_refl) Hun) as Hf.
    destruct (filterPermissions _ _ _ _) as [[[|p ps]|]|]; cbn; try reflexivity.
    now elim (Hf (p :: ps)).
  - assert (Hin' : In (tripleOf c)
                     (combine (map (fun c => fst (fst c)) calls)
                        (combine (map (fun c => snd c) calls)
                           (map (fun c => snd (fst c)) calls)))).
    { rewrite combine_triples. now apply in_map. }
    pose proof (filterPermissions_unmatched _ _ _ _ _ Hin' Hun) as Hf.
    destruct (filterPermissions _ _ _ _) as [[found|]|]; cbn; try reflexivity.
    now elim (Hf found).
Qed.

Lemma proofData_unmatched (v : SessionKeyValidator) (callData_ : Hex) :
  hasUnmatchedCall v callData_ ->
  MerkleTreeJs.getHexRoot (merkleTree v) <> zeroWord ->
  getEncodedPermissionProofData v callData_ = Err NoMatchingPermission.
Proof.
  intros Hun Hroot. unfold getEncodedPermissionProofData.
  rewrite (findMatchingPermissions_unmatched v callData_ Hun).
  unfold Js.strictEq.
  destruct (String.eqb_spec (MerkleTreeJs.getHexRoot (merkleTree v)) zeroWord);
    [contradiction | reflexivity].
Qed.

(** The Merkle root of a validator with permissions is a digest. *)
Lemma root_nonzero (v : SessionKeyValidator) :
  Keccak256Spec ->
  permissions (sk_sessionKeyData v) <> [] ->
  merkleTree v = buildMerkleTree (permissions (sk_sessionKeyData v)) ->
  MerkleTreeJs.getHexRoot (merkleTree v) <> zeroWord.
Proof.
  intros HK Hne Ht. rewrite Ht.
  now destruct (digest_facts _ HK (root_isDigest _ Hne)) as [H _].
Qed.

End SigningFacts.

Section ConcatFacts.

Lemma length_concat_from (hs : list Hex) (acc : string) :
  String.length (fold_left (fun acc x => acc ++ Viem.strip0x x) hs acc)
  = (String.length acc + list_sum (map hexLen hs))%nat.
Proof.
  revert acc; induction hs as [|h hs IH]; intros acc; cbn [fold_left map list_sum fold_right].
  - lia.
  - rewrite IH, length_append. unfold hexLen, list_sum. lia.
Qed.

Lemma length_concat (hs : list Hex) :
  String.length (Viem.concat hs) = (2 + list_sum (map hexLen hs))%nat.
Proof. unfold Viem.concat. cbn [append String.length]. now rewrite length_concat_from. Qed.

End ConcatFacts.

(** * Operation tags do not reach the matcher or the outcome of signing *)

Section RetagSigning.

Context {X : Externals}.

Variable f : Permission -> Operation.
Variable v : SessionKeyValidator.

Hypothesis keccak_spec : Keccak256Spec.
Hypothesis tree_built :
  merkleTree v = buildMerkleTree (permissions (sk_sessionKeyData v)).

Lemma findMatchingPermissions_retag (callData_ : Hex) :
  findMatchingPermissions (retagValidator f v) callData_
  = option_map (retagMatching f) (findMatchingPermissions v callData_).
Proof.
  unfold findMatchingPermissions, retagValidator.
  cbn [sk_sessionKeyData permissions].
  destruct (await (decodeFunctionData callData_)) as [[]|]; cbn [bind catchUndefined];
    try reflexivity.
  - rewrite filterPermissions_retag.
    destruct (filterPermissions _ _ _ _) as [[[|p ps]|]|]; reflexivity.
  - rewrite filterPermissions_retag.
    destruct (filterPermissions _ _ _ _) as [[found|]|]; reflexivity.
Qed.

(** The two roots: both the sentinel, or two digests. *)
Lemma roots_retag :
  let root := MerkleTreeJs.getHexRoot (merkleTree v) in
  let root' := MerkleTreeJs.getHexRoot (merkleTree (retagValidator f v)) in
  Viem.pad root 32 = Ok root /\ Viem.pad root' 32 = Ok root'
  /\ hexLen root = hexLen root'
  /\ Js.strictEq root' zeroWord = Js.strictEq root zeroWord.
Proof.
  cbn zeta. unfold retagValidator. cbn [merkleTree sk_sessionKeyData permissions].
  rewrite tree_built.
  destruct (permissions (sk_sessionKeyData v)) as [|p ps] eqn:Ep.
  - cbn [map]. rewrite sentinel_root. repeat split; reflexivity.
  - assert (H1 : p :: ps <> []) by discriminate.
    assert (H2 : map (retag f) (p :: ps) <> []) by discriminate.
    destruct (digest_facts _ keccak_spec (root_isDigest _ H1)) as (N1 & P1 & L1).
    destruct (digest_facts _ keccak_spec (root_isDigest _ H2)) as (N2 & P2 & L2).
    repeat split; try assumption; try congruence.
    unfold Js.strictEq.
    destruct (String.eqb_spec (MerkleTreeJs.getHexRoot (buildMerkleTree (map (retag f) (p :: ps)))) zeroWord);
      [contradiction|].
    destruct (String.eqb_spec (MerkleTreeJs.getHexRoot (buildMerkleTree (p :: ps))) zeroWord);
      [contradiction | reflexivity].
Qed.

Lemma getEnableData_retag (account : option Address) :
  match sk_getEnableData v account, sk_getEnableData (retagValidator f v) account with
  | Ok d, Ok d' => String.length d = String.length d'
  | Err e, Err e' => e = e'
  | _, _ => False
  end.
Proof.
  destruct roots_retag as (P1 & P2 & HL & _).
  unfold sk_getEnableData, getSessionNonces.
  change (sk_client (retagValidator f v)) with (sk_client v).
  change (sk_validatorAddress (retagValidator f v)) with (sk_validatorAddress v).
  change (sk_sessionKey (retagValidator f v)) with (sk_sessionKey v).
  change (validAfter (sk_sessionKeyData (retagValidator f v))) with (validAfter (sk_sessionKeyData v)).
  change (validUntil (sk_sessionKeyData (retagValidator f v))) with (validUntil (sk_sessionKeyData v)).
  change (paymaster (sk_sessionKeyData (retagValidator f v))) with (paymaster (sk_sessionKeyData v)).
  destruct (truthy account) as [a|]; [|reflexivity].
  destruct (await _) as [nonces|]; cbn [bind]; [|reflexivity].
  rewrite P1, P2. cbn [bind].
  destruct (padNumber _ 6) as [after_|]; cbn [bind]; [|reflexivity].
  destruct (padNumber _ 6) as [until_|]; cbn [bind]; [|reflexivity].
  destruct (Viem.pad (Viem.numberToHex _) 32) as [nonceWord|]; cbn [bind]; [|reflexivity].
  rewrite !length_concat. cbn [map list_sum fold_right]. rewrite HL. reflexivity.
Qed.

Lemma getValidatorSignature_retag (account : Address) (enableSig : option Hex) :
  errorOf (getValidatorSignature (retagValidator f v) account enableSig)
  = errorOf (getValidatorSignature v account enableSig).
Proof.
  unfold getValidatorSignature.
  change (mode (retagValidator f v)) with (mode v).
  change (_executorData (retagValidator f v)) with (_executorData v).
  change (sk_validatorAddress (retagValidator f v)) with (sk_validatorAddress v).
  destruct (mode v); try reflexivity.
  pose proof (getEnableData_retag (Some account)) as H.
  destruct (sk_getEnableData v (Some account)) as [d|e],
           (sk_getEnableData (retagValidator f v) (Some account)) as [d'|e']; try contradiction;
    cbn [bind]; [|now subst].
  destruct (truthy enableSig) as [s|]; [|reflexivity].
  unfold byteLength. rewrite H.
  repeat match goal with
         | |- context [bind ?r _] =>
             match r with
             | context [bind] => fail 1
             | _ => destruct r; cbn [bind]; try reflexivity
             end
         end.
Qed.

Lemma proofData_retag (callData_ : Hex) :
  errorOf (getEncodedPermissionProofData (retagValidator f v) callData_)
  = errorOf (getEncodedPermissionProofData v callData_).
Proof.
  destruct roots_retag as (_ & _ & _ & HZ).
  unfold getEncodedPermissionProofData.
  rewrite findMatchingPermissions_retag, HZ.
  destruct (findMatchingPermissions v callData_) as [m|]; cbn [option_map andb];
    [reflexivity|].
  now destruct (negb _).
Qed.

Lemma signUserOperation_retag (userOperation : UserOperation)
  (enableSig : option Hex) :
  errorOf (sk_signUserOperation (retagValidator f v) userOperation enableSig)
  = errorOf (sk_signUserOperation v userOperation enableSig).
Proof.
  unfold sk_signUserOperation.
  change (viemSigner (retagValidator f v)) with (viemSigner v).
  change (sk_entryPoint (retagValidator f v)) with (sk_entryPoint v).
  change (chainId (retagValidator f v)) with (chainId v).
  destruct (await _) as [s|]; cbn [bind]; [|reflexivity].
  destruct (fixSignedData s) as [fixed|]; cbn [bind]; [|reflexivity].
  pose proof (getValidatorSignature_retag (sender userOperation) enableSig) as Hh.
  destruct (getValidatorSignature (retagValidator f v) _ _) as [h'|e'],
           (getValidatorSignature v _ _) as [h|e]; cbn in Hh; try discriminate;
    cbn [bind]; [|exact Hh].
  pose proof (proofData_retag (callData userOperation)) as Hp.
  destruct (getEncodedPermissionProofData (retagValidator f v) _) as [p'|e'],
           (getEncodedPermissionProofData v _) as [p|e]; cbn in Hp; try discriminate;
    cbn [bind]; [reflexivity | exact Hp].
Qed.

End RetagSigning.

(** * The claims *)

Section MatcherClaims.

Context {X : Externals}.

Lemma candidates_by_value_limit (P1 P2 : Permission) (A : Address) (data_ : Hex) :
  target P1 = A -> target P2 = A ->
  valueLimit P1 = 10 -> valueLimit P2 = 5 ->
  sig P1 = sig P2 ->
  Js.toLowerCase (sig P1) = Js.toLowerCase (Js.slice 0 10 data_) ->
  candidates [P1; P2] A data_ 7 = [P1] /\ candidates [P2; P1] A data_ 7 = [P1].
Proof.
  intros T1 T2 V1 V2 S12 Sel.
  unfold candidates, filterBySignature, Js.strictEq. cbn [filter].
  rewrite T1, T2, !String.eqb_refl. cbn [orb filter].
  rewrite <- S12, Sel, !String.eqb_refl. cbn [filter].
  rewrite V1, V2. split; reflexivity.
Qed.


(** C6: each rule is evaluated on the word of the call data at the
    rule's offset (hex characters 10 + 2*offset to 10 + 2*offset + 64)
    against the rule's parameter, and every operator agrees with the
    comparison of the two words as big-endian unsigned integers; an empty
    rule list passes; the first candidate in sorted order whose rules all
    pass is the match. *)
Theorem param_rules_compare_as_integers
  (ps : list Permission) (data_ : Hex) :
  Viem.isHex data_ = true ->
  Forall (fun p => Forall wellFormedRule (rules p)) ps ->
  (forall p rule, In p ps -> In rule (rules p) ->
     getFormattedHex ("0x" ++ dataWord data_ rule) = Ok (formatted (dataWord data_ rule))
     /\ getFormattedHex (param rule) = Ok (formatted (Viem.strip0x (param rule)))
     /\ evaluateRuleCondition (formatted (dataWord data_ rule))
          (formatted (Viem.strip0x (param rule))) (condition rule)
        = spec_compare (condition rule)
            (Js.hexValue (dataWord data_ rule))
            (Js.hexValue (Viem.strip0x (param rule)))
     /\ ((10 + offset rule * 2 + 64 <= String.length data_)%nat ->
         String.length (dataWord data_ rule) = 64%nat))
  /\ (forall p, In p ps -> rulesPass (rules p) data_ = Ok (spec_permissionPasses data_ p))
  /\ (forall p, rules p = [] -> rulesPass (rules p) data_ = Ok true)
  /\ findPermissionByRule ps data_ = Ok (find (spec_permissionPasses data_) ps)
  /\ (forall target_ value_,
        filterOne ps (target_, (data_, value_))
        = Ok (find (spec_permissionPasses data_)
                (sortByValueLimit (candidates ps target_ data_ value_)))).
Proof.
  intros Hd Hwf.
  assert (Hin : forall p, In p ps -> Forall wellFormedRule (rules p)).
  { now apply Forall_forall. }
  split; [|split; [|split; [|split]]].
  - intros p rule Hp Hr.
    assert (Hrule : wellFormedRule rule).
    { pose proof (Hin p Hp) as H. rewrite Forall_forall in H. now apply H. }
    destruct (rule_evaluation data_ rule Hd Hrule) as (E1 & E2 & E3).
    repeat split; try assumption. apply dataWord_length.
  - intros p Hp. now apply rulesPass_spec; [|apply Hin].
  - intros p ->. reflexivity.
  - now apply findPermissionByRule_spec.
  - intros target_ value_. rewrite filterOne_candidates.
    apply findPermissionByRule_spec; [exact Hd|].
    eapply Permutation_Forall; [apply sortByValueLimit_perm|].
    unfold candidates, filterBySignature.
    rewrite Forall_forall in *. intros p Hp.
    apply Hwf. repeat (apply filter_In in Hp; destruct Hp as [Hp _]). exact Hp.
Qed.

End MatcherClaims.

Section SigningClaims.

Context {X : Externals}.

(** C2: a session-key validator constructed with zero permissions holds
    the single-leaf sentinel tree whose root is the 32-byte zero word;
    for every user operation, signing does not fail with
    NoMatchingPermission and the permission-proof segment appended to the
    signature is the empty byte string 0x. *)
Theorem zero_permissions_sentinel
  (client : Client) (args : SessionKeyValidatorArgs) (v : SessionKeyValidator) :
  signerToSessionKeyValidator client args = Ok v ->
  permissions (sk_sessionKeyData v) = [] ->
  merkleTree v
  = {| MerkleTreeJs.leaves := [zeroWord]; MerkleTreeJs.layers := [[zeroWord]] |}
  /\ MerkleTreeJs.getHexRoot (merkleTree v) = zeroWord
  /\ forall (userOperation : UserOperation) (enableSig : option Hex),
       getEncodedPermissionProofData v (callData userOperation) = Ok "0x"
       /\ sk_signUserOperation v userOperation enableSig <> Err NoMatchingPermission
       /\ forall out,
            sk_signUserOperation v userOperation enableSig = Ok out ->
            exists header fixedSignature,
              getValidatorSignature v (sender userOperation) enableSig = Ok header
              /\ out = Viem.concat [header; sk_sessionKey v; fixedSignature; "0x"].
Proof.
  intros Hv Hp.
  destruct (constructed_validator client args v Hv) as [_ Ht].
  rewrite Hp in Ht.
  split; [now rewrite Ht, sentinel_tree|].
  split; [now rewrite Ht, sentinel_root|].
  intros userOperation enableSig.
  pose proof (proofData_no_permissions v (callData userOperation) Hp Ht) as Hproof.
  split; [exact Hproof|]. split.
  - unfold sk_signUserOperation. rewrite Hproof.
    apply benign_bind; [apply benign_await|]. intros s.
    apply benign_bind; [apply benign_fixSignedData|]. intros fixed.
    apply benign_bind; [apply benign_getValidatorSignature|]. intros header.
    apply benign_Ok.
  - intros out. unfold sk_signUserOperation. rewrite Hproof.
    destruct (await _) as [s|]; cbn [bind]; [|discriminate].
    destruct (fixSignedData s) as [fixed|]; cbn [bind]; [|discriminate].
    destruct (getValidatorSignature v _ _) as [header|]; cbn [bind]; [|discriminate].
    intros [= <-]. now exists header, fixed.
Qed.


(** C7: the matcher does not look at the operation tags. The operation
    filter keeps every candidate (every request is treated as a Call), so
    a permission tagged DelegateCall authorises an execute request, and
    replacing the operation field of every permission changes neither
    which permission is matched nor whether signing succeeds. *)
Theorem operation_tags_ignored
  (f : Permission -> Operation) (client : Client) (args : SessionKeyValidatorArgs)
  (v : SessionKeyValidator) :
  Keccak256Spec ->
  signerToSessionKeyValidator client args = Ok v ->
  (forall ps, filterByOperation ps Call = ps)
  /\ (forall targets dataArray values,
        filterPermissions (map (retag f) (permissions (sk_sessionKeyData v)))
          targets dataArray values
        = mapResult (option_map (map (retag f)))
            (filterPermissions (permissions (sk_sessionKeyData v))
               targets dataArray values))
  /\ (forall callData_,
        findMatchingPermissions (retagValidator f v) callData_
        = option_map (retagMatching f) (findMatchingPermissions v callData_))
  /\ (forall userOperation enableSig,
        errorOf (sk_signUserOperation (retagValidator f v) userOperation enableSig)
        = errorOf (sk_signUserOperation v userOperation enableSig)).
Proof.
  intros HK Hv.
  destruct (constructed_validator client args v Hv) as [_ Ht].
  split; [exact filterByOperation_Call|].
  split; [intros; apply filterPermissions_retag|].
  split; [intros; apply findMatchingPermissions_retag|].
  intros. now apply signUserOperation_retag.
Qed.

(** C4 (amended): getEnableData of an ECDSA validator returns the
    signer's address as it is, the 20 bytes, without padding. *)
Theorem ecdsa_enable_data_is_address
  (client : Client) (args : EcdsaValidatorArgs) (e : EcdsaValidator)
  (account : option Address) :
  signerToEcdsaValidator client args = Ok e ->
  getEnableData (ecdsaPlugin e) account = Ok (address (ecdsa_arg_signer args))
  /\ ecdsa_getEnableData e = Ok (address (ecdsa_arg_signer args)).
Proof.
  unfold signerToEcdsaValidator. destruct (chain client); [|discriminate].
  intros [= <-]. split; reflexivity.
Qed.

(** C8: signUserOperation of the ECDSA validator returns the 4-byte
    sudo-mode marker 0x00000000 followed by the signer's signature over
    the user-operation hash, and that hash is computed from the operation
    with every field kept except the signature, which is 0x: the
    signature field of the operation handed in has no part in the
    result. *)
Theorem ecdsa_signature_sudo_prefix
  (e : EcdsaValidator) (userOperation : UserOperation) :
  ecdsa_signUserOperation e userOperation
  = mapResult (fun s => "0x00000000" ++ Viem.strip0x s)
      (await (signMessage (ecdsa_viemSigner e)
                (getUserOperationHash
                   {| sender := sender userOperation;
                      nonce := nonce userOperation;
                      initCode := initCode userOperation;
                      callData := callData userOperation;
                      callGasLimit := callGasLimit userOperation;
                      verificationGasLimit := verificationGasLimit userOperation;
                      preVerificationGas := preVerificationGas userOperation;
                      maxFeePerGas := maxFeePerGas userOperation;
                      maxPriorityFeePerGas := maxPriorityFeePerGas userOperation;
                      paymasterAndData := paymasterAndData userOperation;
                      signature := "0x" |}
                   (ecdsa_entryPoint e) (ecdsa_chainId e))))
  /\ (forall out, ecdsa_signUserOperation e userOperation = Ok out ->
                  prefix "0x00000000" out = true)
  /\ (forall sg,
        ecdsa_signUserOperation e
          {| sender := sender userOperation;
             nonce := nonce userOperation;
             initCode := initCode userOperation;
             callData := callData userOperation;
             callGasLimit := callGasLimit userOperation;
             verificationGasLimit := verificationGasLimit userOperation;
             preVerificationGas := preVerificationGas userOperation;
             maxFeePerGas := maxFeePerGas userOperation;
             maxPriorityFeePerGas := maxPriorityFeePerGas userOperation;
             paymasterAndData := paymasterAndData userOperation;
             signature := sg |}
        = ecdsa_signUserOperation e userOperation)
  /\ (forall approval, signUserOperation (ecdsaPlugin e) userOperation approval
                       = ecdsa_signUserOperation e userOperation).
Proof.
  unfold ecdsa_signUserOperation, withSignature.
  split; [|split; [|split]].
  - destruct (await _); reflexivity.
  - intros out. destruct (await _) as [s|]; cbn [bind]; [|discriminate].
    intros [= <-]. rewrite concat_two. now destruct (Viem.strip0x s).
  - reflexivity.
  - reflexivity.
Qed.

End SigningClaims.

Section AccountClaims.

Context {X : Externals}.

(** C5 (amended): encodeCallData encodes execute(to, value, data, 0) for
    one transaction and executeBatch([{to, value, data}, ...]) for a list.
    The operation flag of a single call is the constant 0 for every
    request: only to, value and data of a request are read, so two
    requests that agree on them are encoded alike whatever else they
    carry, and no request is encoded with another flag. *)
Theorem encodeCallData_ignores_call_type (tx : Tx) (txs : list Tx) :
  encodeCallData (OneTx tx)
  = encodeFunctionData (execute (to tx) (value tx) (data tx) 0)
  /\ encodeCallData (ManyTx txs)
     = encodeFunctionData (executeBatch (map (fun t => (to t, value t, data t)) txs))
  /\ operationFlag (callOf (OneTx tx)) = Some 0
  /\ (forall tx' : Tx,
        to tx' = to tx -> value tx' = value tx -> data tx' = data tx ->
        encodeCallData (OneTx tx') = encodeCallData (OneTx tx)).
Proof.
  split; [reflexivity|]. split; [reflexivity|]. split; [reflexivity|].
  intros tx' Ht Hv Hd. unfold encodeCallData, callOf. now rewrite Ht, Hv, Hd.
Qed.

(** C10: getPluginApproveSignature of a session-key validator fails for
    every account address and plugin, so a kernel account whose default
    validator is a session-key validator cannot sign, nor produce a dummy
    signature, while a plugin is active. *)
Theorem session_key_cannot_approve_plugin
  (v : SessionKeyValidator) (client : Client) (args : KernelAccountArgs)
  (a : KernelSmartAccount) (p : KernelPlugin) (userOperation : UserOperation) :
  createKernelAccount client args = Ok a ->
  arg_defaultValidator args = sessionKeyPlugin v ->
  arg_plugin args = Some p ->
  (forall account ref,
      getPluginApproveSignature (sessionKeyPlugin v) account ref = Err NotImplemented)
  /\ account_signUserOperation a userOperation = Err NotImplemented
  /\ account_getDummySignature a userOperation = Err NotImplemented.
Proof.
  intros Ha Hd Hp.
  assert (Hfields : defaultValidator a = sessionKeyPlugin v /\ activePlugin a = Some p).
  { unfold createKernelAccount in Ha.
    destruct (match arg_deployedAccountAddress args with
              | Some _ => _ | None => _ end) as [addr|]; cbn [bind] in Ha;
      [|discriminate].
    destruct (truthy (Some addr)); [|discriminate].
    injection Ha as <-. cbn. now rewrite Hd, Hp. }
  destruct Hfields as [Hdv Hap].
  split; [reflexivity|].
  unfold account_signUserOperation, account_getDummySignature, pluginApproval.
  rewrite Hap, Hdv. split; reflexivity.
Qed.

End AccountClaims.

Section NormalisationClaims.

Import Js Viem.

(** C9: fixSignedData maps a well-formed signature (64 digits of r, 64
    of s, then v) with recovery id 0 or 1 to the same r and s followed by
    27 or 28, re-encodes a signature with v = 27 or v = 28 with the same
    r, s and v (a lower-case input is returned as it is), and fails with
    InvalidSignedData on an input that is not hex even after 0x is put in
    front of it. *)
Theorem fixSignedData_normalises :
  (forall rD sD vD : string,
      String.length rD = 64%nat -> String.length sD = 64%nat ->
      allHexDigits rD = true -> allHexDigits sD = true ->
      allHexDigits vD = true -> vD <> "" ->
      Sig.isWithinCurveOrder (hexValue rD) = true ->
      Sig.isWithinCurveOrder (hexValue sD) = true ->
      let normalised tail := Ok ("0x" ++ (toLowerCase rD ++ toLowerCase sD) ++ tail) in
      fixSignedData (rD ++ sD ++ vD) = fixSignedData ("0x" ++ rD ++ sD ++ vD)
      /\ Sig.hexToSignature ("0x" ++ rD ++ sD ++ vD)
         = Ok {| Sig.r := "0x" ++ toLowerCase rD; Sig.s := "0x" ++ toLowerCase sD;
                 Sig.v := hexValue vD |}
      /\ (hexValue vD = 0 \/ hexValue vD = 27 ->
          fixSignedData ("0x" ++ rD ++ sD ++ vD) = normalised "1b")
      /\ (hexValue vD = 1 \/ hexValue vD = 28 ->
          fixSignedData ("0x" ++ rD ++ sD ++ vD) = normalised "1c")
      /\ (toLowerCase rD = rD -> toLowerCase sD = sD -> vD = "1b" \/ vD = "1c" ->
          fixSignedData ("0x" ++ rD ++ sD ++ vD) = Ok ("0x" ++ rD ++ sD ++ vD)))
  /\ (forall sig_ : Hex,
        isHex sig_ = false -> isHex ("0x" ++ sig_) = false ->
        fixSignedData sig_ = Err InvalidSignedData).
Proof.
  split.
  - intros rD sD vD Lr Ls Hr Hs Hv Nv Vr Vs normalised.
    pose proof (fixSignedData_prefixed rD sD vD Lr Ls Hr Hs Hv Nv Vr Vs) as Hfix.
    split; [now apply fixSignedData_bare|].
    split; [now apply hexToSignature_wellFormed|].
    split; [|split].
    + intros [E|E]; rewrite Hfix, E; reflexivity.
    + intros [E|E]; rewrite Hfix, E; reflexivity.
    + intros Er Es [-> | ->]; rewrite Hfix, Er, Es;
        cbn [append]; now rewrite append_assoc.
  - intros sig_ H1 H2. unfold fixSignedData. now rewrite H1, H2.
Qed.

End NormalisationClaims.

(** * The claims on concrete inputs *)

Section SampleFacts.

Lemma sample_keccak_spec : Keccak256Spec (X := Sample.externals).
Proof.
  intros x. cbn [keccak256 Sample.externals]. unfold Sample.hash. split.
  - exists ("1" ++ Js.hexFixed 63 (Js.hexValue (Viem.strip0x x))).
    split; [reflexivity|]. cbn [append String.length]. now rewrite length_hexFixed.
  - discriminate.
Qed.

Lemma sample_validator_constructed (ps : list PermissionInput) (m : ValidatorMode) :
  signerToSessionKeyValidator (X := Sample.externals) Sample.client
    (Sample.validatorArgs (Some ps) m)
  = Ok (Sample.validator ps m).
Proof. reflexivity. Qed.

Lemma sample_unmatched :
  hasUnmatchedCall (X := Sample.externals)
    (Sample.validator [Sample.P1; Sample.P2] sudo) "0x02".
Proof.
  left. exists Sample.A, 7, Sample.approveData, 0. split; [reflexivity|].
  intros p. vm_compute. discriminate.
Qed.

End SampleFacts.


(** The sample validator built without permissions. *)
Lemma zero_permissions_sentinel_witness :
  getEncodedPermissionProofData (X := Sample.externals)
    (Sample.validator [] sudo) "0x02" = Ok "0x".
Proof.
  exact (proj1 (proj2 (proj2
    (zero_permissions_sentinel (X := Sample.externals) Sample.client
       (Sample.validatorArgs (Some []) sudo) (Sample.validator [] sudo)
       eq_refl eq_refl)) (Sample.userOp "0x02") None)).
Defined.



(** The sample ECDSA validator. *)
Lemma ecdsa_enable_data_is_address_witness :
  getEnableData (ecdsaPlugin (X := Sample.externals) Sample.ecdsa) None
  = Ok "0x1111111111111111111111111111111111111111".
Proof.
  exact (proj1
    (ecdsa_enable_data_is_address (X := Sample.externals) Sample.client
       Sample.ecdsaArgs Sample.ecdsa None eq_refl)).
Defined.

(** C5, as stated, fails: no flag is threaded through. A request of to,
    value and data is encoded with the flag 0, and so is the request of
    the repository's delegate-call test, which carries a call type
    besides: not with the flag 1 of a delegate call. The flag is 0 for
    every request. *)
Lemma encodeCallData_flag_not_threaded :
  encodeCallData (X := Sample.externals)
    (OneTx {| to := Viem.zeroAddress; value := 0; data := "0x"; callType := None |})
  = "0x5194544700"
  /\ encodeCallData (X := Sample.externals)
       (OneTx {| to := Viem.zeroAddress; value := 0; data := "0x";
                 callType := Some delegatecall |})
     = "0x5194544700"
  /\ encodeCallData (X := Sample.externals)
       (OneTx {| to := Viem.zeroAddress; value := 0; data := "0x";
                 callType := Some call |})
     = "0x5194544700"
  /\ encodeFunctionData (Externals := Sample.externals)
       (execute Viem.zeroAddress 0 "0x" 1)
     = "0x5194544701"
  /\ String.eqb "0x5194544700" "0x5194544701" = false
  /\ (forall tx : Tx, operationFlag (callOf (OneTx tx)) = Some 0).
Proof. repeat split. Qed.

(** C4, as stated, fails: the enable data of an ECDSA validator is the
    20-byte address of the signer, not that address padded to 32 bytes. *)
Lemma ecdsa_enable_data_not_padded :
  signerToEcdsaValidator (X := Sample.externals) Sample.client Sample.ecdsaArgs
  = Ok Sample.ecdsa
  /\ getEnableData (ecdsaPlugin (X := Sample.externals) Sample.ecdsa) None
     = Ok "0x1111111111111111111111111111111111111111"
  /\ Viem.pad (address Sample.signer) 32
     = Ok "0x0000000000000000000000001111111111111111111111111111111111111111"
  /\ String.eqb "0x1111111111111111111111111111111111111111"
       "0x0000000000000000000000001111111111111111111111111111111111111111"
     = false.
Proof. repeat split. Qed.

(** Q3 (first argument equal to 0xbbbb, second at most 1000) on the two
    sample call datas, whose arguments are (0xbbbb, 1000). *)
Lemma param_rules_compare_as_integers_witness :
  findPermissionByRule [Sample.Q3] Sample.transferData = Ok (Some Sample.Q3)
  /\ findPermissionByRule [Sample.Q3] Sample.approveData = Ok (Some Sample.Q3).
Proof.
  assert (Hwf : Forall (fun p => Forall wellFormedRule (rules p)) [Sample.Q3]).
  { repeat constructor. }
  split.
  - exact (proj1 (proj2 (proj2 (proj2
      (param_rules_compare_as_integers [Sample.Q3] Sample.transferData eq_refl Hwf))))).
  - exact (proj1 (proj2 (proj2 (proj2
      (param_rules_compare_as_integers [Sample.Q3] Sample.approveData eq_refl Hwf))))).
Defined.

(** Every permission of the sample validator retagged DelegateCall. *)
Lemma operation_tags_ignored_witness :
  findMatchingPermissions (X := Sample.externals)
    (retagValidator (X := Sample.externals) Sample.allDelegateCall
       (Sample.validator [Sample.P1; Sample.P2] sudo)) "0x01"
  = Some (MatchedOne (retag Sample.allDelegateCall Sample.Q1))
  /\ isOk (sk_signUserOperation (X := Sample.externals)
             (retagValidator (X := Sample.externals) Sample.allDelegateCall
                (Sample.validator [Sample.P1; Sample.P2] sudo))
             (Sample.userOp "0x01") None) = true.
Proof.
  pose proof (operation_tags_ignored (X := Sample.externals) Sample.allDelegateCall
                Sample.client (Sample.validatorArgs (Some [Sample.P1; Sample.P2]) sudo)
                (Sample.validator [Sample.P1; Sample.P2] sudo)
                sample_keccak_spec eq_refl) as (_ & _ & Hm & Hs).
  split.
  - exact (Hm "0x01").
  - specialize (Hs (Sample.userOp "0x01") None).
    destruct (sk_signUserOperation
                (retagValidator Sample.allDelegateCall
                   (Sample.validator [Sample.P1; Sample.P2] sudo))
                (Sample.userOp "0x01") None); [reflexivity|].
    vm_compute in Hs. discriminate Hs.
Defined.

(** The sample signature with recovery id 0 and with v = 28, and a string
    that is not hex. *)
Lemma fixSignedData_normalises_witness :
  fixSignedData ("0x" ++ Sample.sigR ++ Sample.sigS ++ "00")
  = Ok ("0x" ++ Sample.sigR ++ Sample.sigS ++ "1b")
  /\ fixSignedData ("0x" ++ Sample.sigR ++ Sample.sigS ++ "1c")
     = Ok ("0x" ++ Sample.sigR ++ Sample.sigS ++ "1c")
  /\ fixSignedData "0xzz" = Err InvalidSignedData.
Proof.
  assert (Nv : forall a b, String a b <> "") by discriminate.
  split; [|split].
  - exact (proj1 (proj2 (proj2
      (proj1 fixSignedData_normalises Sample.sigR Sample.sigS "00"
         eq_refl eq_refl eq_refl eq_refl eq_refl (Nv _ _) eq_refl eq_refl)))
      (or_introl eq_refl)).
  - exact (proj2 (proj2 (proj2 (proj2
      (proj1 fixSignedData_normalises Sample.sigR Sample.sigS "1c"
         eq_refl eq_refl eq_refl eq_refl eq_refl (Nv _ _) eq_refl eq_refl))))
      eq_refl eq_refl (or_intror eq_refl)).
  - exact (proj2 fixSignedData_normalises "0xzz" eq_refl eq_refl).
Defined.

(** The sample account: session-key default validator, ECDSA plugin. *)
Lemma session_key_cannot_approve_plugin_witness :
  account_signUserOperation Sample.account (Sample.userOp "0x01") = Err NotImplemented.
Proof.
  exact (proj1 (proj2
    (session_key_cannot_approve_plugin (X := Sample.externals)
       (Sample.validator [] sudo) Sample.client Sample.accountArgs Sample.account
       (ecdsaPlugin (X := Sample.externals) Sample.ecdsa) (Sample.userOp "0x01")
       eq_refl eq_refl eq_refl))).
Defined.

(** A permission tagged DelegateCall authorises an execute call. *)
Example delegatecall_permission_authorises_execute :
  findMatchingPermissions (X := Sample.externals)
    (Sample.validator [Sample.P2; Sample.P3] sudo) "0x01"
  = Some (MatchedOne (retag Sample.allDelegateCall
                        {| target := Sample.A; index := 1; rules := rules Sample.Q3;
                           sig := "0xa9059cbb"; valueLimit := 10;
                           executionRule := Sample.noExecutionRule;
                           operation := Call |})).
Proof. reflexivity. Qed.

(** * Further properties of the code *)

(** * Merkle proofs verify against the root *)

Section VerifyFacts.

Import MerkleTreeJs.

Variable hashFn : Hex -> Hex.

Lemma ltb_asym (a b : string) : String.ltb a b = true -> String.ltb b a = false.
Proof.
  unfold String.ltb. rewrite (String.compare_antisym b a).
  now destruct (String.compare a b).
Qed.

Lemma ltb_trichotomy (a b : string) :
  String.ltb a b = false -> String.ltb b a = false -> a = b.
Proof.
  unfold String.ltb. rewrite (String.compare_antisym b a).
  destruct (String.compare a b) eqn:E; try discriminate.
  intros _ _. now apply String.compare_eq_iff.
Qed.

(** With sorted pairs, the order in which a pair is given does not matter. *)
Lemma verifyStep_hashPair (h d : Hex) :
  verifyStep hashFn h d = hashPair hashFn true h d.
Proof.
  unfold verifyStep, hashPair, sortPair, Js.lt.
  destruct (String.ltb d h) eqn:Edh.
  - now rewrite (ltb_asym d h Edh).
  - destruct (String.ltb h d) eqn:Ehd; [reflexivity|].
    now rewrite (ltb_trichotomy h d Ehd Edh).
Qed.

Lemma hashPair_sym (a b : Hex) : hashPair hashFn true a b = hashPair hashFn true b a.
Proof.
  unfold hashPair, sortPair, Js.lt.
  destruct (String.ltb b a) eqn:Eba.
  - now rewrite (ltb_asym b a Eba).
  - destruct (String.ltb a b) eqn:Eab; [reflexivity|].
    now rewrite (ltb_trichotomy a b Eab Eba).
Qed.

(** The parent of a node: the hash of the node with its sibling, or the
    node itself when it is the odd one out. *)
Lemma nextLayer_parent (n : nat) (nodes : list Hex) (index : nat) :
  (List.length nodes <= n)%nat -> (index < List.length nodes)%nat ->
  nth_error (nextLayer hashFn true nodes) (Nat.div2 index)
  = Some match nth_error nodes (pairIndexOf index) with
         | Some sibling => verifyStep hashFn (nth index nodes "") sibling
         | None => nth index nodes ""
         end.
Proof.
  revert nodes index; induction n as [|n IH]; intros nodes index Hlen Hi.
  - destruct nodes; cbn in *; lia.
  - destruct nodes as [|a [|b rest]]; [cbn in Hi; lia | |].
    + assert (index = 0%nat) as -> by (cbn in Hi; lia). reflexivity.
    + destruct index as [|[|i]].
      * change (pairIndexOf 0) with 1%nat.
        cbn [nextLayer Nat.div2 nth_error nth]. now rewrite verifyStep_hashPair.
      * change (pairIndexOf 1) with 0%nat.
        cbn [nextLayer Nat.div2 nth_error nth].
        now rewrite verifyStep_hashPair, hashPair_sym.
      * cbn [nextLayer Nat.div2 nth_error nth].
        rewrite (IH rest i); [|cbn in Hlen; lia | cbn in Hi; lia].
        f_equal. unfold pairIndexOf.
        change (Nat.odd (S (S i))) with (Nat.odd i).
        destruct (Nat.odd i) eqn:Eo.
        -- destruct i as [|i']; [discriminate|].
           cbn [Nat.sub nth_error]. now rewrite Nat.sub_0_r.
        -- replace (S (S i) + 1)%nat with (S (S (i + 1))) by lia. reflexivity.
Qed.

Lemma div2_lt_nextLayer (n : nat) (nodes : list Hex) (index : nat) :
  (List.length nodes <= n)%nat -> (index < List.length nodes)%nat ->
  (Nat.div2 index < List.length (nextLayer hashFn true nodes))%nat.
Proof.
  intros Hlen Hi. pose proof (nextLayer_parent n nodes index Hlen Hi) as H.
  apply nth_error_Some. now rewrite H.
Qed.

Lemma createHashes_cons (fuel : nat) (nodes : list Hex) :
  exists rest, createHashes hashFn fuel true nodes = nodes :: rest.
Proof. destruct fuel; cbn; eauto. Qed.

(** Folding the proof of a node gives the node at the top of the tree. *)
Lemma proof_folds_to_root (fuel : nat) (nodes : list Hex) (index : nat) :
  (List.length nodes <= S fuel)%nat -> (index < List.length nodes)%nat ->
  fold_left (verifyStep hashFn)
    (proofFrom index (createHashes hashFn fuel true nodes)) (nth index nodes "")
  = hd "" (last (createHashes hashFn fuel true nodes) []).
Proof.
  revert nodes index; induction fuel as [|fuel IH]; intros nodes index Hlen Hi.
  - destruct nodes as [|a [|b rest]]; cbn in Hlen, Hi; try lia.
    assert (index = 0%nat) as -> by lia. reflexivity.
  - cbn [createHashes].
    destruct (1 <? List.length nodes)%nat eqn:E.
    + apply Nat.ltb_lt in E.
      destruct (createHashes_cons fuel (nextLayer hashFn true nodes)) as [rest Hrest].
      cbn [proofFrom]. fold (pairIndexOf index).
      pose proof (nextLayer_parent _ nodes index (le_n _) Hi) as Hparent.
      pose proof (div2_lt_nextLayer _ nodes index (le_n _) Hi) as Hdiv.
      pose proof (nextLayer_length hashFn true _ nodes (le_n _)) as Hhalf.
      specialize (IH (nextLayer hashFn true nodes) (Nat.div2 index) ltac:(lia) Hdiv).
      erewrite nth_error_nth in IH by exact Hparent.
      rewrite Hrest in *. cbn [last].
      destruct (nth_error nodes (pairIndexOf index)) as [sibling|]; cbn [fold_left];
        exact IH.
    + apply Nat.ltb_ge in E.
      destruct nodes as [|a [|b rest]]; cbn in E, Hi; try lia.
      assert (index = 0%nat) as -> by lia. reflexivity.
Qed.

Lemma lastIndexFrom_found (leaf : Hex) (ls : list Hex) (i : nat) (found : option nat) :
  (forall k, found = Some k -> (k < i)%nat) ->
  match lastIndexFrom i found leaf ls with
  | Some k =>
      (k < i /\ found = Some k /\ ~ In leaf ls)%nat
      \/ (i <= k /\ nth_error ls (k - i) = Some leaf)%nat
  | None => found = None /\ ~ In leaf ls
  end.
Proof.
  revert i found; induction ls as [|x ls IH]; intros i found Hf; cbn [lastIndexFrom].
  - destruct found as [k|]; [left|]; intuition.
  - destruct (String.eqb_spec x leaf) as [->|Hne].
    + specialize (IH (S i) (Some i)).
      destruct (lastIndexFrom (S i) (Some i) leaf ls) as [k|].
      * destruct IH as [(Hk & Hs & _) | (Hk & Hn)].
        -- intros k0 [= <-]. lia.
        -- injection Hs as <-. right. split; [lia|]. now rewrite Nat.sub_diag.
        -- right. split; [lia|]. replace (k - i)%nat with (S (k - S i)) by lia. exact Hn.
      * destruct IH as [Hc _]; [|discriminate]. intros k0 [= <-]. lia.
    + specialize (IH (S i) found).
      destruct (lastIndexFrom (S i) found leaf ls) as [k|].
      * destruct IH as [(Hk & Hs & Hn) | (Hk & Hn)].
        -- intros k0 Hk0. specialize (Hf k0 Hk0). lia.
        -- left. split; [specialize (Hf k Hs); lia|]. split; [exact Hs|].
           intros [H|H]; [now apply Hne | now apply Hn].
        -- right. split; [lia|]. replace (k - i)%nat with (S (k - S i)) by lia. exact Hn.
      * destruct IH as [Hc Hn].
        -- intros k0 Hk0. specialize (Hf k0 Hk0). lia.
        -- split; [exact Hc|]. intros [H|H]; [now apply Hne | now apply Hn].
Qed.

Lemma toLowerCase_idem (s : string) : Js.toLowerCase (Js.toLowerCase s) = Js.toLowerCase s.
Proof.
  induction s as [|c s IH]; cbn [Js.toLowerCase]; [reflexivity|].
  rewrite IH. f_equal. now destruct c as [[] [] [] [] [] [] [] []].
Qed.

Lemma bufferify_idem (x : Hex) : bufferify (bufferify x) = bufferify x.
Proof.
  unfold bufferify. change (Viem.strip0x ("0x" ++ ?s)) with s.
  now rewrite toLowerCase_idem.
Qed.

Lemma getHexProof_verifies (t : MerkleTree) (leaf : Hex) :
  layers t = createHashes hashFn (List.length (leaves t)) true (leaves t) ->
  In (bufferify leaf) (leaves t) ->
  processProof hashFn (getHexProof t leaf) leaf = getHexRoot t.
Proof.
  intros Hl Hin. unfold processProof, getHexProof, getHexRoot.
  pose proof (lastIndexFrom_found (bufferify leaf) (leaves t) 0 None) as H.
  destruct (lastIndexFrom 0 None (bufferify leaf) (leaves t)) as [k|].
  - destruct H as [(Hk & _) | (_ & Hn)]; [discriminate | lia |].
    rewrite Nat.sub_0_r in Hn.
    assert (Hk : (k < List.length (leaves t))%nat).
    { apply nth_error_Some. now rewrite Hn. }
    pose proof (proof_folds_to_root (List.length (leaves t)) (leaves t) k
                  ltac:(lia) Hk) as Hfold.
    erewrite nth_error_nth in Hfold by exact Hn.
    rewrite Hl, Hfold.
    destruct (createHashes_last hashFn (fun _ => True) (fun _ => I) true
                (List.length (leaves t)) (leaves t)) as [_ Hne].
    + now apply Forall_forall.
    + intros E. rewrite E in Hk. cbn in Hk. lia.
    + destruct (last _ []); [contradiction | reflexivity].
  - destruct H as [_ Hn]; [discriminate|]. contradiction.
Qed.

End VerifyFacts.

(** * What the matcher returns *)

Section MatchFacts.

Lemma candidates_In (ps : list Permission) (t : Address) (d : Hex) (v : N)
  (p : Permission) :
  In p (candidates ps t d v)
  <-> In p ps /\ targetMatches p t
      /\ Js.toLowerCase (sig p) = Js.toLowerCase (Js.slice 0 10 d)
      /\ v <= valueLimit p.
Proof.
  unfold candidates, filterBySignature, targetMatches, Js.strictEq.
  rewrite !filter_In, orb_true_iff, !String.eqb_eq, N.leb_le. tauto.
Qed.

Lemma findPermissionByRule_split (l : list Permission) (d : string) (p : Permission) :
  findPermissionByRule l d = Ok (Some p) ->
  exists l1 l2,
    l = (l1 ++ p :: l2)%list
    /\ rulesPass (rules p) d = Ok true
    /\ Forall (fun q => rulesPass (rules q) d = Ok false) l1.
Proof.
  induction l as [|q l IH]; cbn [findPermissionByRule]; [discriminate|].
  destruct (rulesPass (rules q) d) as [[|]|] eqn:E; cbn [bind]; [| |discriminate].
  - intros [= <-]. exists [], l. repeat split; [exact E | constructor].
  - intros H. destruct (IH H) as (l1 & l2 & -> & Hp & Hall).
    exists (q :: l1), l2. repeat split; [exact Hp | now constructor].
Qed.

Lemma findPermissionByRule_none (l : list Permission) (d : string) :
  findPermissionByRule l d = Ok None <->
  Forall (fun q => rulesPass (rules q) d = Ok false) l.
Proof.
  induction l as [|q l IH]; cbn [findPermissionByRule].
  - split; [constructor | reflexivity].
  - destruct (rulesPass (rules q) d) as [[|]|] eqn:E; cbn [bind].
    + split; [discriminate | intros H; inversion H; congruence].
    + rewrite IH. split; [now constructor | intros H; now inversion H].
    + split; [discriminate | intros H; inversion H; congruence].
Qed.

Lemma sorted_after (l1 l2 : list Permission) (p : Permission) :
  StronglySorted byValueLimitDesc (l1 ++ p :: l2)%list -> Forall (byValueLimitDesc p) l2.
Proof.
  induction l1 as [|a l1 IH]; cbn; intros H; inversion H; subst; auto.
Qed.

Lemma filterOne_sound (ps : list Permission) (c : Address * (Hex * N)) (p : Permission) :
  filterOne ps c = Ok (Some p) -> In p ps /\ authorises p c.
Proof.
  destruct c as [t [d v]]. rewrite filterOne_candidates. intros H.
  destruct (findPermissionByRule_split _ _ _ H) as (l1 & l2 & Hl & Hp & _).
  assert (Hin : In p (candidates ps t d v)).
  { eapply Permutation_in; [symmetry; apply sortByValueLimit_perm|].
    rewrite Hl. apply in_or_app. right. now left. }
  apply candidates_In in Hin. unfold authorises. cbn [fst snd]. tauto.
Qed.

Lemma filterOne_highest (ps : list Permission) (c : Address * (Hex * N))
  (p q : Permission) :
  filterOne ps c = Ok (Some p) -> In q ps -> authorises q c ->
  valueLimit q <= valueLimit p.
Proof.
  destruct c as [t [d v]]. rewrite filterOne_candidates. intros H Hq Ha.
  destruct (findPermissionByRule_split _ _ _ H) as (l1 & l2 & Hl & Hp & Hl1).
  destruct Ha as (Ht & Hs & Hv & Hr). cbn [fst snd] in *.
  assert (Hin : In q (sortByValueLimit (candidates ps t d v))).
  { eapply Permutation_in; [apply sortByValueLimit_perm|].
    apply candidates_In. tauto. }
  pose proof (sortByValueLimit_sorted (candidates ps t d v)) as Hsorted.
  rewrite Hl in Hin, Hsorted.
  apply in_app_or in Hin. destruct Hin as [Hin | [<- | Hin]].
  - rewrite Forall_forall in Hl1. specialize (Hl1 q Hin). congruence.
  - lia.
  - pose proof (sorted_after _ _ _ Hsorted) as Hafter.
    rewrite Forall_forall in Hafter. exact (Hafter q Hin).
Qed.

Lemma filterOne_none (ps : list Permission) (c : Address * (Hex * N)) :
  filterOne ps c = Ok None -> forall q, In q ps -> ~ authorises q c.
Proof.
  destruct c as [t [d v]]. rewrite filterOne_candidates, findPermissionByRule_none.
  intros Hall q Hq (Ht & Hs & Hv & Hr). cbn [fst snd] in *.
  rewrite Forall_forall in Hall.
  assert (Hin : In q (sortByValueLimit (candidates ps t d v))).
  { eapply Permutation_in; [apply sortByValueLimit_perm|].
    apply candidates_In. tauto. }
  specialize (Hall q Hin). congruence.
Qed.

(** On hex data and rules with parameters of at most 32 bytes the search
    does not throw: it is the first of the sorted candidates whose rules
    hold. *)
Lemma filterOne_spec (ps : list Permission) (t : Address) (d : Hex) (v : N) :
  Viem.isHex d = true ->
  Forall (fun p => Forall wellFormedRule (rules p)) ps ->
  filterOne ps (t, (d, v))
  = Ok (find (spec_permissionPasses d) (sortByValueLimit (candidates ps t d v))).
Proof.
  intros Hd Hwf. rewrite filterOne_candidates.
  apply findPermissionByRule_spec; [exact Hd|].
  eapply Permutation_Forall; [apply sortByValueLimit_perm|].
  rewrite Forall_forall in *. intros p Hp. apply Hwf.
  now apply candidates_In in Hp.
Qed.

Lemma mapM_Forall2 {A B : Type} (f : A -> Result B) (l : list A) (r : list B) :
  mapM f l = Ok r -> Forall2 (fun a b => f a = Ok b) l r.
Proof.
  revert r; induction l as [|a l IH]; cbn [mapM]; intros r.
  - intros [= <-]. constructor.
  - destruct (f a) as [b|] eqn:E; cbn [bind]; [|discriminate].
    destruct (mapM f l) as [bs|]; cbn [bind]; [|discriminate].
    intros [= <-]. constructor; [exact E | now apply IH].
Qed.

Lemma allDefined_Some {A : Type} (l : list (option A)) (r : list A) :
  allDefined l = Some r -> l = map Some r.
Proof.
  revert r; induction l as [|[a|] l IH]; cbn [allDefined]; intros r; [| |discriminate].
  - now intros [= <-].
  - destruct (allDefined l) as [r'|]; cbn; [|discriminate].
    intros [= <-]. cbn. now rewrite (IH r' eq_refl).
Qed.

Lemma filterPermissions_shape (ps : list Permission) (ts : list Address)
  (ds : list Hex) (vs : list N) (found : list Permission) :
  filterPermissions ps ts ds vs = Ok (Some found) ->
  List.length ds = List.length ts /\ List.length vs = List.length ts
  /\ Forall2 (fun c p => filterOne ps c = Ok (Some p))
       (combine ts (combine ds vs)) found.
Proof.
  unfold filterPermissions.
  destruct (List.length ts =? List.length ds)%nat eqn:E1; [|discriminate].
  destruct (List.length ts =? List.length vs)%nat eqn:E2; [|discriminate].
  apply Nat.eqb_eq in E1, E2. cbn [negb orb].
  destruct (mapM _ _) as [r|] eqn:Em; cbn [bind]; [|discriminate].
  intros [= Hall]. apply allDefined_Some in Hall. subst r.
  split; [lia|]. split; [lia|].
  apply mapM_Forall2 in Em.
  remember (combine ts (combine ds vs)) as cs. clear - Em.
  revert found Em; induction cs as [|c cs IH]; intros [|p found] H;
    inversion H; subst; constructor; auto.
Qed.

End MatchFacts.

(** * Further properties of the matcher *)

Section MatcherProperties.

Context {X : Externals}.

(** X1: the constructor numbers the permissions by position: the index
    fields are 0, 1, ..., n-1 in the order given, so they are pairwise
    distinct, and targets are kept as given. *)
Theorem permission_indices_are_positions
  (client : Client) (args : SessionKeyValidatorArgs) (v : SessionKeyValidator) :
  signerToSessionKeyValidator client args = Ok v ->
  map index (permissions (sk_sessionKeyData v))
  = seq 0 (List.length (permissions (sk_sessionKeyData v)))
  /\ NoDup (map index (permissions (sk_sessionKeyData v)))
  /\ (forall ps, sessionKeyData (arg_validatorData args)
                 = Some ps ->
       forall inputs, in_permissions ps = Some inputs ->
       map target (permissions (sk_sessionKeyData v)) = map in_target inputs).
Proof.
  intros Hv. destruct (constructed_validator client args v Hv) as [Hd _].
  assert (Hidx : forall i inputs,
             map index (normalizePermissions i inputs) = seq i (List.length inputs)
             /\ List.length (normalizePermissions i inputs) = List.length inputs
             /\ map target (normalizePermissions i inputs) = map in_target inputs).
  { intros i inputs; revert i; induction inputs as [|inp inputs IH]; intros i;
      cbn [normalizePermissions map seq List.length index target]; [auto|].
    destruct (IH (S i)) as (H1 & H2 & H3). now rewrite H1, H2, H3. }
  assert (Hseq : map index (permissions (sk_sessionKeyData v))
                 = seq 0 (List.length (permissions (sk_sessionKeyData v)))).
  { rewrite Hd. unfold normalizeSessionKeyData. cbn [permissions].
    destruct (sessionKeyData (arg_validatorData args)) as [d|]; [|reflexivity].
    destruct (in_permissions d) as [inputs|]; [|reflexivity].
    destruct (Hidx 0%nat inputs) as (H1 & H2 & _). now rewrite H1, H2. }
  split; [exact Hseq|]. split; [rewrite Hseq; apply seq_NoDup|].
  intros d Hsome inputs Hin. rewrite Hd. unfold normalizeSessionKeyData.
  cbn [permissions]. rewrite Hsome, Hin. now destruct (Hidx 0%nat inputs) as (_ & _ & H3).
Qed.

(** X2: a permission returned for an execute call is one of the
    validator's permissions and passes every stage on that call: its
    target is the call's target or the zero address (compared without
    case), its selector is the first four bytes of the data (without case),
    its value limit is at least the value, and all its rules pass. *)
Theorem matched_permission_authorises
  (v : SessionKeyValidator) (callData_ : Hex) (p : Permission) :
  findMatchingPermissions v callData_ = Some (MatchedOne p) ->
  exists to_ value_ data_ op,
    decodeFunctionData callData_ = Resolved (execute to_ value_ data_ op)
    /\ In p (permissions (sk_sessionKeyData v))
    /\ authorises p (to_, (data_, value_)).
Proof.
  unfold findMatchingPermissions.
  destruct (decodeFunctionData callData_)
    as [[? ?|? ? ?|to_ value_ data_ op|calls|? ?|?]|];
    cbn [await bind catchUndefined]; try discriminate.
  - destruct (filterPermissions _ _ _ _) as [[[|q found]|]|] eqn:E;
      cbn [bind catchUndefined]; try discriminate.
    intros [= <-].
    destruct (filterPermissions_shape _ _ _ _ _ E) as (_ & _ & H).
    cbn [combine] in H. inversion H as [|? ? ? ? Hq _]; subst.
    exists to_, value_, data_, op. split; [reflexivity|].
    now apply filterOne_sound.
  - destruct (filterPermissions _ _ _ _) as [[found|]|]; cbn; discriminate.
Qed.

(** X3: among the permissions that pass every stage on an execute call,
    the one returned has the highest value limit. *)
Theorem matched_permission_has_highest_limit
  (v : SessionKeyValidator) (callData_ : Hex) (p q : Permission)
  (to_ : Address) (value_ : N) (data_ : Hex) (op : N) :
  findMatchingPermissions v callData_ = Some (MatchedOne p) ->
  decodeFunctionData callData_ = Resolved (execute to_ value_ data_ op) ->
  In q (permissions (sk_sessionKeyData v)) ->
  authorises q (to_, (data_, value_)) ->
  valueLimit q <= valueLimit p.
Proof.
  unfold findMatchingPermissions. intros H Hd. rewrite Hd in H.
  cbn [await bind] in H.
  destruct (filterPermissions _ _ _ _) as [[[|p' found]|]|] eqn:E;
    cbn [bind catchUndefined] in H; try discriminate.
  injection H as ->.
  destruct (filterPermissions_shape _ _ _ _ _ E) as (_ & _ & HF).
  cbn [combine] in HF. inversion HF as [|? ? ? ? Hp _]; subst.
  now apply (filterOne_highest _ _ _ q Hp).
Qed.

(** X4: for hex call data and rules with parameters of at most 32 bytes
    the search for one call never throws, and it finds nothing exactly
    when no permission passes every stage on the call. *)
Theorem unmatched_iff_no_permission_authorises
  (ps : list Permission) (t : Address) (d : Hex) (val : N) :
  Viem.isHex d = true ->
  Forall (fun p => Forall wellFormedRule (rules p)) ps ->
  (exists r, filterOne ps (t, (d, val)) = Ok r)
  /\ (filterOne ps (t, (d, val)) = Ok None
      <-> forall q, In q ps -> ~ authorises q (t, (d, val))).
Proof.
  intros Hd Hwf.
  pose proof (filterOne_spec ps t d val Hd Hwf) as Hspec.
  split; [eexists; exact Hspec|]. split.
  - apply filterOne_none.
  - intros Hno. rewrite Hspec.
    destruct (find _ _) as [p|] eqn:Ef; [|reflexivity].
    assert (Hp : filterOne ps (t, (d, val)) = Ok (Some p)) by (rewrite <- Ef; first [exact Hspec | congruence]).
    destruct (filterOne_sound _ _ _ Hp) as [Hin Ha].
    now elim (Hno p Hin).
Qed.

(** X5: the permissions returned for an executeBatch call are as many as
    the calls and in their order: the i-th one is a permission of the
    validator that passes every stage on the i-th call. *)
Theorem matched_batch_authorises
  (v : SessionKeyValidator) (callData_ : Hex) (found : list Permission) :
  findMatchingPermissions v callData_ = Some (MatchedMany found) ->
  exists calls,
    decodeFunctionData callData_ = Resolved (executeBatch calls)
    /\ Forall2 (fun c p => In p (permissions (sk_sessionKeyData v))
                           /\ authorises p (tripleOf c))
         calls found.
Proof.
  unfold findMatchingPermissions.
  destruct (decodeFunctionData callData_)
    as [[? ?|? ? ?|to_ value_ data_ op|calls|? ?|?]|];
    cbn [await bind catchUndefined]; try discriminate.
  - destruct (filterPermissions _ _ _ _) as [[[|q l]|]|]; cbn; discriminate.
  - destruct (filterPermissions _ _ _ _) as [[l|]|] eqn:E;
      cbn [bind catchUndefined option_map]; try discriminate.
    intros [= <-]. exists calls. split; [reflexivity|].
    destruct (filterPermissions_shape _ _ _ _ _ E) as (_ & _ & H).
    rewrite combine_triples in H. clear E.
    revert l H; induction calls as [|c calls IH]; intros [|p l] H;
      inversion H; subst; constructor; auto.
    now apply filterOne_sound.
Qed.

(** X6: an executeBatch without calls is matched by the empty list of
    permissions whatever the validator's permissions are, so the lookup
    does not fail on it: with permissions configured, the proof segment is
    the encoding of no permission and no proof. *)
Theorem empty_batch_is_authorised (v : SessionKeyValidator) (callData_ : Hex) :
  decodeFunctionData callData_ = Resolved (executeBatch []) ->
  findMatchingPermissions v callData_ = Some (MatchedMany [])
  /\ getEncodedPermissionProofData v callData_
     = Ok (if isEmpty (permissions (sk_sessionKeyData v)) then "0x"
           else encodeAbiParameters (PermissionArray [])
                  (Some (bytes32Array, NestedProof []))).
Proof.
  intros Hd.
  assert (Hm : findMatchingPermissions v callData_ = Some (MatchedMany [])).
  { unfold findMatchingPermissions. rewrite Hd. reflexivity. }
  split; [exact Hm|].
  unfold getEncodedPermissionProofData. rewrite Hm. cbn [andb].
  now destruct (permissions (sk_sessionKeyData v)).
Qed.

(** X7: call data that does not decode, or that decodes to a function
    other than execute and executeBatch, matches nothing, and with
    permissions configured the lookup fails with NoMatchingPermission. *)
Theorem other_functions_are_rejected
  (client : Client) (args : SessionKeyValidatorArgs) (v : SessionKeyValidator)
  (callData_ : Hex) :
  Keccak256Spec ->
  signerToSessionKeyValidator client args = Ok v ->
  permissions (sk_sessionKeyData v) <> [] ->
  match decodeFunctionData callData_ with
  | Resolved (execute _ _ _ _) | Resolved (executeBatch _) => False
  | _ => True
  end ->
  findMatchingPermissions v callData_ = None
  /\ getEncodedPermissionProofData v callData_ = Err NoMatchingPermission.
Proof.
  intros HK Hv Hne Hd.
  destruct (constructed_validator client args v Hv) as [_ Ht].
  assert (Hm : findMatchingPermissions v callData_ = None).
  { unfold findMatchingPermissions.
    destruct (decodeFunctionData callData_) as [[]|]; try contradiction; reflexivity. }
  split; [exact Hm|].
  unfold getEncodedPermissionProofData. rewrite Hm. unfold Js.strictEq.
  destruct (String.eqb_spec (MerkleTreeJs.getHexRoot (merkleTree v)) zeroWord) as [E|_];
    [|reflexivity].
  now elim (root_nonzero v HK Hne Ht).
Qed.

(** X8: when every permission carries a 4-byte selector, a call whose data
    is shorter than 4 bytes, a plain value transfer with data 0x among
    them, matches no permission. *)
Theorem short_call_data_is_unmatched
  (ps : list Permission) (t : Address) (d : Hex) (val : N) :
  (forall p, In p ps -> String.length (sig p) = 10%nat) ->
  (String.length d < 10)%nat ->
  filterOne ps (t, (d, val)) = Ok None.
Proof.
  intros Hsig Hd. apply selector_mismatch_unmatched. intros p Hp E.
  apply (f_equal String.length) in E.
  rewrite !length_toLowerCase, (Hsig p Hp) in E.
  unfold Js.slice in E. cbn [Nat.sub] in E.
  assert (Hs : forall n m s, (String.length (substring n m s) <= String.length s)%nat).
  { clear. intros n m s; revert n m.
    induction s as [|c s IH]; intros [|n] [|m]; cbn; try lia.
    - specialize (IH 0%nat m). lia.
    - specialize (IH n 0%nat). lia.
    - specialize (IH n (S m)). lia. }
  specialize (Hs 0%nat 10%nat d).
  lia.
Qed.

(** X9: a permission given without a value limit gets the limit 0: a
    permission set in which no permission states a limit matches no call
    that carries a positive value. *)
Theorem no_value_limit_means_no_value
  (inputs : list PermissionInput) (i : nat) (t : Address) (d : Hex) (val : N) :
  (forall inp, In inp inputs -> in_valueLimit inp = None) ->
  0 < val ->
  filterOne (normalizePermissions i inputs) (t, (d, val)) = Ok None.
Proof.
  intros Hnone Hval. rewrite filterOne_candidates.
  assert (Hlimits : forall p, In p (normalizePermissions i inputs) -> valueLimit p = 0).
  { revert i; induction inputs as [|inp inputs IH]; intros i p; cbn [normalizePermissions];
      [contradiction|].
    intros [<- | Hp].
    - cbn [valueLimit]. now rewrite (Hnone inp (or_introl eq_refl)).
    - apply (IH (fun x Hx => Hnone x (or_intror Hx)) (S i) p Hp). }
  assert (E : candidates (normalizePermissions i inputs) t d val = []).
  { destruct (candidates _ t d val) as [|p l] eqn:Ec; [reflexivity|].
    assert (Hp : In p (candidates (normalizePermissions i inputs) t d val))
      by (rewrite Ec; now left).
    apply candidates_In in Hp. destruct Hp as (Hin & _ & _ & Hv).
    rewrite (Hlimits p Hin) in Hv. lia. }
  now rewrite E.
Qed.

End MatcherProperties.

(** * Proofs of the validator's tree *)

Section TreeProperties.

Import MerkleTreeJs.

Variable hashFn : Hex -> Hex.

Lemma root_is_buffer (input : list Hex) (sortPairs hashLeaves : bool) :
  input <> [] ->
  bufferify (getHexRoot (new hashFn input sortPairs hashLeaves))
  = getHexRoot (new hashFn input sortPairs hashLeaves).
Proof.
  intros Hne. unfold getHexRoot, new. cbn [layers].
  set (ls := map bufferify (if hashLeaves then map hashFn input else input)).
  assert (Hall : Forall (fun h => bufferify h = h) ls).
  { unfold ls. apply Forall_forall. intros h Hh. apply in_map_iff in Hh.
    destruct Hh as (x & <- & _). apply bufferify_idem. }
  assert (Hls : ls <> []).
  { unfold ls. destruct hashLeaves, input; try contradiction; discriminate. }
  destruct (createHashes_last hashFn (fun h => bufferify h = h)
              (fun x => bufferify_idem (hashFn x)) sortPairs (List.length ls) ls Hall Hls)
    as [Hl Hn].
  destruct (last (createHashes hashFn (List.length ls) sortPairs ls) []) as [|root rest];
    [contradiction|].
  now inversion Hl.
Qed.

(** X10: in a tree built with sortPairs, the proof getHexProof returns for
    a leaf of the tree verifies against the root: folding the proof from
    the leaf, hashing each pair smaller buffer first, gives getHexRoot. *)
Theorem merkle_proof_verifies (input : list Hex) (hashLeaves : bool) (leaf : Hex) :
  In (bufferify leaf) (leaves (new hashFn input true hashLeaves)) ->
  processProof hashFn (getHexProof (new hashFn input true hashLeaves) leaf) leaf
  = getHexRoot (new hashFn input true hashLeaves)
  /\ verify hashFn (getHexProof (new hashFn input true hashLeaves) leaf) leaf
       (getHexRoot (new hashFn input true hashLeaves)) = true.
Proof.
  intros Hin.
  assert (Hp : processProof hashFn (getHexProof (new hashFn input true hashLeaves) leaf) leaf
               = getHexRoot (new hashFn input true hashLeaves)).
  { apply getHexProof_verifies; [reflexivity | exact Hin]. }
  split; [exact Hp|].
  unfold verify. rewrite Hp, root_is_buffer; [apply String.eqb_refl|].
  intros ->. destruct hashLeaves; contradiction.
Qed.

End TreeProperties.

Section ValidatorTreeProperties.

Context {X : Externals}.

Import MerkleTreeJs.

Lemma permission_leaf (ps : list Permission) (p : Permission) :
  In p ps ->
  exists input,
    input <> []
    /\ buildMerkleTree ps = new keccak256 input true true
    /\ In (bufferify (keccak256 (encodePermissionData (OnePermission p) None)))
         (leaves (new keccak256 input true true)).
Proof.
  intros Hin. unfold buildMerkleTree.
  set (enc := fun permission => encodePermissionData (OnePermission permission) None).
  assert (Hleaf : forall input, In (enc p) input ->
            In (bufferify (keccak256 (enc p))) (leaves (new keccak256 input true true))).
  { intros input Hi. unfold new. cbn [leaves].
    apply in_map, in_map, Hi. }
  assert (Hmem : In (enc p) (map enc ps)) by now apply in_map.
  destruct ps as [|a [|b rest]]; [contradiction| |].
  - cbn [map isEmpty negb] in *. exists [enc a; enc a]. split; [discriminate|].
    split; [reflexivity|]. apply Hleaf. destruct Hmem as [<-|[]]. now left.
  - exists (map enc (a :: b :: rest)). split; [discriminate|].
    split; [reflexivity|]. now apply Hleaf.
Qed.

(** X11: for every permission of a constructed validator, and so for every
    permission the matcher returns, the Merkle proof the validator computes
    for it verifies against the root the validator publishes. *)
Theorem permission_proofs_verify
  (client : Client) (args : SessionKeyValidatorArgs) (v : SessionKeyValidator)
  (p : Permission) :
  signerToSessionKeyValidator client args = Ok v ->
  In p (permissions (sk_sessionKeyData v)) ->
  verify keccak256
    (getHexProof (merkleTree v)
       (keccak256 (encodePermissionData (OnePermission p) None)))
    (keccak256 (encodePermissionData (OnePermission p) None))
    (getHexRoot (merkleTree v)) = true.
Proof.
  intros Hv Hin. destruct (constructed_validator client args v Hv) as [_ Ht].
  rewrite Ht. destruct (permission_leaf _ p Hin) as (input & Hne & -> & Hleaf).
  unfold verify.
  rewrite (getHexProof_verifies keccak256 (new keccak256 input true true) _ eq_refl Hleaf).
  rewrite root_is_buffer by exact Hne. apply String.eqb_refl.
Qed.

(** X12: with a single permission the encoded permission is pushed twice:
    the tree has two equal leaves, its root is the hash of the leaf paired
    with itself, and the proof of the permission is the leaf itself. *)
Theorem single_permission_tree (p : Permission) :
  let leaf := bufferify (keccak256 (encodePermissionData (OnePermission p) None)) in
  leaves (buildMerkleTree [p]) = [leaf; leaf]
  /\ getHexRoot (buildMerkleTree [p])
     = bufferify (keccak256 (Viem.concat [leaf; leaf]))
  /\ getHexProof (buildMerkleTree [p])
       (keccak256 (encodePermissionData (OnePermission p) None)) = [leaf].
Proof.
  intros leaf. split; [reflexivity|]. split.
  - unfold buildMerkleTree, getHexRoot, new. cbn [map isEmpty negb layers List.length].
    cbn [createHashes List.length Nat.ltb Nat.leb nextLayer last].
    fold leaf. unfold hashPair, sortPair, Js.lt.
    now destruct (String.ltb leaf leaf).
  - unfold buildMerkleTree, getHexProof, new.
    cbn [map isEmpty negb layers leaves List.length lastIndexFrom].
    fold leaf. rewrite String.eqb_refl.
    reflexivity.
Qed.

End ValidatorTreeProperties.

(** * Normal forms of fixSignedData *)

Section NormalFormFacts.

Import Js Viem Sig.

Lemma substring_split (s : string) (n m : nat) :
  (n <= String.length s)%nat -> (String.length s <= n + m)%nat ->
  s = substring 0 n s ++ substring n m s.
Proof.
  revert n m; induction s as [|c s IH]; intros n m Hn Hm.
  - cbn in Hn. assert (n = 0%nat) by lia. subst. now destruct m.
  - destruct n as [|n].
    + cbn [substring append]. destruct m as [|m]; [cbn in Hm; lia|].
      cbn [substring]. f_equal. symmetry. apply substring_whole. cbn in Hm. lia.
    + cbn [substring append]. f_equal. apply IH; cbn in *; lia.
Qed.

Lemma substring_empty (s : string) : substring 0 0 s = "".
Proof. now destruct s. Qed.

Lemma substring_substring (s : string) (a n m : nat) :
  substring 0 n (substring a (n + m) s) = substring a n s.
Proof.
  revert a n; induction s as [|c s IH]; intros a n.
  - destruct a, n; cbn; try reflexivity; now destruct m.
  - destruct a as [|a].
    + destruct n as [|n]; [now rewrite !substring_empty|].
      cbn [Nat.add substring]. f_equal. apply (IH 0%nat n).
    + cbn [substring]. apply IH.
Qed.

Lemma substring_shift (s : string) (a n m : nat) :
  substring n m (substring a (n + m) s) = substring (a + n) m s.
Proof.
  revert a n; induction s as [|c s IH]; intros a n.
  - destruct a, n, m; reflexivity.
  - destruct a as [|a].
    + destruct n as [|n].
      * cbn [Nat.add]. apply substring_whole, length_substring_le.
      * cbn [Nat.add substring]. apply (IH 0%nat n).
    + cbn [Nat.add substring]. apply IH.
Qed.

Lemma sliceFrom_prefixed (t : string) : sliceFrom 2 ("0x" ++ t) = t.
Proof.
  unfold sliceFrom. cbn [append String.length substring].
  apply substring_whole. lia.
Qed.

Lemma allHexDigits_toString16 (v : N) : allHexDigits (toString16 v) = true.
Proof.
  destruct (toString16_spec v) as (k & _ & -> & _). apply allHexDigits_hexFixed.
Qed.

Lemma toString16_nonempty (v : N) : toString16 v <> "".
Proof.
  destruct (toString16_spec v) as (k & Hk & E & _). intros H.
  apply (f_equal String.length) in H. rewrite E, length_hexFixed in H. cbn in H. lia.
Qed.

Lemma hexValue_toString16 (v : N) : hexValue (toString16 v) = v.
Proof.
  destruct (toString16_spec v) as (k & _ & -> & Hlt & _).
  now apply hexValue_hexFixed_small.
Qed.

Lemma toLowerCase_toString16 (v : N) : toLowerCase (toString16 v) = toString16 v.
Proof.
  destruct (toString16_spec v) as (k & _ & -> & _). apply toLowerCase_hexFixed.
Qed.

Lemma normalisedV_idem (v : N) : normalisedV (normalisedV v) = normalisedV v.
Proof.
  unfold normalisedV.
  destruct (v =? 0) eqn:E0; [apply N.eqb_eq in E0; subst; reflexivity|].
  destruct (v =? 1) eqn:E1; [apply N.eqb_eq in E1; subst; reflexivity|].
  cbn [orb]. now rewrite E0, E1.
Qed.

Lemma normalisedV_ge (v : N) : 2 <= normalisedV v.
Proof.
  unfold normalisedV.
  destruct (v =? 0) eqn:E0; [apply N.eqb_eq in E0; subst; cbn; lia|].
  destruct (v =? 1) eqn:E1; [apply N.eqb_eq in E1; subst; cbn; lia|].
  cbn [orb]. apply N.eqb_neq in E0, E1. lia.
Qed.

(** What a successful fixSignedData has read and written. *)
Lemma fixSignedData_inv (sig_ out : Hex) :
  fixSignedData sig_ = Ok out ->
  exists rD sD vD,
    String.length rD = 64%nat /\ String.length sD = 64%nat
    /\ allHexDigits rD = true /\ allHexDigits sD = true
    /\ allHexDigits vD = true /\ vD <> ""
    /\ isWithinCurveOrder (hexValue rD) = true
    /\ isWithinCurveOrder (hexValue sD) = true
    /\ (sig_ = "0x" ++ rD ++ sD ++ vD \/ sig_ = rD ++ sD ++ vD)
    /\ out = "0x" ++ (toLowerCase rD ++ toLowerCase sD)
                  ++ toString16 (normalisedV (hexValue vD)).
Proof.
  intros H.
  assert (Hsig : exists d, allHexDigits d = true
                           /\ (sig_ = "0x" ++ d \/ sig_ = d)
                           /\ fixSignedData ("0x" ++ d) = Ok out).
  { unfold fixSignedData in H. destruct (isHex sig_) eqn:E1.
    - destruct (isHex_split sig_ E1) as [Hs Hd]. exists (strip0x sig_).
      split; [exact Hd|]. split; [now left|].
      unfold fixSignedData. rewrite <- Hs, E1. exact H.
    - destruct (isHex ("0x" ++ sig_)) eqn:E2; [|discriminate H].
      exists sig_. split; [exact E2|]. split; [now right|].
      unfold fixSignedData. rewrite E2. exact H. }
  destruct Hsig as (d & Hd & Hshape & Hfix). clear H.
  assert (Hparse : exists sg, hexToSignature ("0x" ++ d) = Ok sg).
  { unfold fixSignedData in Hfix. rewrite isHex_prefixed, Hd in Hfix. cbn [bind] in Hfix.
    destruct (hexToSignature ("0x" ++ d)) as [sg|]; [now exists sg | discriminate Hfix]. }
  destruct Hparse as [sg Hsg]. unfold hexToSignature in Hsg.
  assert (Hc : slice 2 130 ("0x" ++ d) = substring 0 128 d) by reflexivity.
  assert (Hv : sliceFrom 130 ("0x" ++ d) = substring 128 (2 + String.length d) d)
    by reflexivity.
  rewrite Hc, Hv in Hsg.
  destruct (fromCompact (substring 0 128 d)) as [rs|] eqn:Ecompact; [|discriminate Hsg].
  cbn [bind] in Hsg.
  destruct (BigInt0x (substring 128 (2 + String.length d) d)) as [v0|] eqn:Ev;
    [|discriminate Hsg].
  clear Hsg. unfold fromCompact in Ecompact.
  destruct (String.length (substring 0 128 d) =? 128)%nat eqn:Elen;
    [|discriminate Ecompact].
  apply Nat.eqb_eq in Elen. cbn [andb] in Ecompact.
  destruct (allHexDigits (substring 0 128 d)); [|discriminate Ecompact].
  unfold slice in Ecompact. cbn [Nat.sub] in Ecompact.
  change (128 - 64)%nat with 64%nat in Ecompact.
  change (substring 0 128 d) with (substring 0 (64 + 64) d) in Ecompact.
  rewrite (substring_substring d 0 64 64) in Ecompact.
  rewrite (substring_shift d 0 64 64) in Ecompact.
  change (0 + 64)%nat with 64%nat in Ecompact.
  destruct (isWithinCurveOrder (hexValue (substring 0 64 d))) eqn:Vr;
    [|discriminate Ecompact].
  destruct (isWithinCurveOrder (hexValue (substring 64 64 d))) eqn:Vs;
    [|discriminate Ecompact].
  clear Ecompact.
  assert (Hlen : (128 <= String.length d)%nat).
  { assert (Hs : forall n m s, (String.length (substring n m s) <= String.length s)%nat).
    { clear. intros n m s; revert n m.
      induction s as [|c s IH]; intros [|n] [|m]; cbn; try lia.
      - specialize (IH 0%nat m). lia.
      - specialize (IH n 0%nat). lia.
      - specialize (IH n (S m)). lia. }
    specialize (Hs 0%nat 128%nat d). lia. }
  set (rD := substring 0 64 d) in *.
  set (sD := substring 64 64 d) in *.
  set (vD := substring 128 (2 + String.length d) d) in *.
  assert (Hd128 : d = substring 0 128 d ++ vD).
  { apply substring_split; lia. }
  assert (H128 : substring 0 128 d = rD ++ sD).
  { rewrite (substring_split (substring 0 128 d) 64 64) by lia.
    change (substring 0 128 d) with (substring 0 (64 + 64) d).
    rewrite (substring_substring d 0 64 64).
    now rewrite (substring_shift d 0 64 64). }
  assert (Hdec : d = rD ++ sD ++ vD).
  { rewrite Hd128 at 1. now rewrite H128, append_assoc. }
  assert (Lr : String.length rD = 64%nat) by (apply length_substring; lia).
  assert (Ls : String.length sD = 64%nat) by (apply length_substring; lia).
  assert (Hr : allHexDigits rD = true) by now apply allHexDigits_substring.
  assert (Hs : allHexDigits sD = true) by now apply allHexDigits_substring.
  assert (Hvd : allHexDigits vD = true) by now apply allHexDigits_substring.
  assert (Nv : vD <> "").
  { intros E. rewrite E in Ev. discriminate Ev. }
  exists rD, sD, vD. repeat (split; [assumption|]). split.
  - rewrite <- Hdec. exact Hshape.
  - rewrite Hdec in Hfix.
    rewrite (fixSignedData_prefixed rD sD vD Lr Ls Hr Hs Hvd Nv Vr Vs) in Hfix.
    unfold numberToHex in Hfix. rewrite sliceFrom_prefixed in Hfix.
    now injection Hfix as <-.
Qed.

(** X13: fixSignedData is idempotent. Whatever it returns is a hex value
    that it maps to itself, and that reads back as a signature whose
    recovery value is neither 0 nor 1. *)
Theorem fixSignedData_idempotent (sig_ out : Hex) :
  fixSignedData sig_ = Ok out ->
  fixSignedData out = Ok out
  /\ isHex out = true
  /\ exists sg, hexToSignature out = Ok sg /\ 2 <= Sig.v sg.
Proof.
  intros H.
  destruct (fixSignedData_inv sig_ out H)
    as (rD & sD & vD & Lr & Ls & Hr & Hs & Hv & Nv & Vr & Vs & _ & ->).
  set (v' := normalisedV (hexValue vD)).
  assert (Lr' : String.length (toLowerCase rD) = 64%nat)
    by now rewrite length_toLowerCase.
  assert (Ls' : String.length (toLowerCase sD) = 64%nat)
    by now rewrite length_toLowerCase.
  assert (Hr' : allHexDigits (toLowerCase rD) = true)
    by now rewrite allHexDigits_toLowerCase.
  assert (Hs' : allHexDigits (toLowerCase sD) = true)
    by now rewrite allHexDigits_toLowerCase.
  assert (Vr' : isWithinCurveOrder (hexValue (toLowerCase rD)) = true)
    by now rewrite hexValue_toLowerCase.
  assert (Vs' : isWithinCurveOrder (hexValue (toLowerCase sD)) = true)
    by now rewrite hexValue_toLowerCase.
  rewrite append_assoc.
  split; [|split].
  - rewrite (fixSignedData_prefixed _ _ _ Lr' Ls' Hr' Hs'
               (allHexDigits_toString16 v') (toString16_nonempty v') Vr' Vs').
    rewrite hexValue_toString16, !toLowerCase_idem. unfold v'.
    rewrite normalisedV_idem. unfold numberToHex. rewrite sliceFrom_prefixed.
    now rewrite append_assoc.
  - rewrite isHex_prefixed, !allHexDigits_append, Hr', Hs'.
    now rewrite allHexDigits_toString16.
  - eexists. split.
    + apply (hexToSignature_wellFormed _ _ _ Lr' Ls' Hr' Hs'
               (allHexDigits_toString16 v') (toString16_nonempty v') Vr' Vs').
    + cbn [Sig.v]. rewrite hexValue_toString16. apply normalisedV_ge.
Qed.

End NormalFormFacts.

(** * The enable data *)

Section PaddingFacts.

Import Js Viem.

Lemma toString16_length_gt (n : nat) (v : N) :
  16 ^ N.of_nat n <= v -> (n < String.length (toString16 v))%nat.
Proof.
  intros Hv. destruct (toString16_spec v) as (k & Hk & -> & Hlt & _).
  rewrite length_hexFixed.
  destruct (Nat.le_gt_cases k n) as [Hle|]; [|assumption]. exfalso.
  assert (16 ^ N.of_nat k <= 16 ^ N.of_nat n) by (apply N.pow_le_mono_r; lia).
  lia.
Qed.

(** pad(toHex(v), { size }) of a bigint. *)
Lemma pad_numberToHex (size : nat) (v : N) :
  (1 <= size)%nat ->
  pad (numberToHex v) size
  = if v <? 16 ^ N.of_nat (size * 2) then Ok ("0x" ++ hexFixed (size * 2) v)
    else Err SizeExceedsPaddingSize.
Proof.
  intros Hs. unfold pad, numberToHex. rewrite strip0x_prefixed.
  destruct (v <? 16 ^ N.of_nat (size * 2)) eqn:E.
  - apply N.ltb_lt in E.
    destruct (padStart_toString16 (size * 2) v ltac:(lia) E) as [Hlen ->].
    assert (Hl : (size * 2 <? String.length (toString16 v))%nat = false)
      by (apply Nat.ltb_ge; exact Hlen).
    now rewrite Hl.
  - apply N.ltb_ge in E. apply toString16_length_gt in E.
    apply Nat.ltb_lt in E. now rewrite E.
Qed.

(** pad(toHex(n), { size: 6 }) of a number. *)
Lemma padNumber_six (n : N) :
  padNumber n 6
  = if n <? 2 ^ 48 then Ok ("0x" ++ hexFixed 12 n)
    else if MAX_SAFE_INTEGER <? n then Err IntegerOutOfRange
    else Err SizeExceedsPaddingSize.
Proof.
  unfold padNumber, toHexNumber.
  destruct (MAX_SAFE_INTEGER <? n) eqn:Es.
  - apply N.ltb_lt in Es. unfold MAX_SAFE_INTEGER in Es.
    assert (E : (n <? 2 ^ 48) = false) by (apply N.ltb_ge; cbn; lia).
    now rewrite E.
  - cbn [bind]. rewrite (pad_numberToHex 6 n ltac:(lia)).
    change (16 ^ N.of_nat (6 * 2)) with (2 ^ 48). reflexivity.
Qed.

Lemma concat_six (a b c d e f : Hex) :
  concat [a; b; c; d; e; f]
  = "0x" ++ strip0x a ++ strip0x b ++ strip0x c ++ strip0x d ++ strip0x e ++ strip0x f.
Proof.
  unfold concat. cbn [fold_left]. change ("" ++ strip0x a) with (strip0x a).
  now rewrite !append_assoc.
Qed.

End PaddingFacts.

Section EnableDataProperties.

Context {X : Externals}.

Import Js Viem.

Lemma root_word (v : SessionKeyValidator) :
  Keccak256Spec ->
  merkleTree v = buildMerkleTree (permissions (sk_sessionKeyData v)) ->
  pad (MerkleTreeJs.getHexRoot (merkleTree v)) 32
  = Ok (MerkleTreeJs.getHexRoot (merkleTree v))
  /\ hexLen (MerkleTreeJs.getHexRoot (merkleTree v)) = 64%nat.
Proof.
  intros HK Ht. rewrite Ht.
  destruct (permissions (sk_sessionKeyData v)) as [|p ps] eqn:E.
  - rewrite sentinel_root. apply sentinel_facts.
  - assert (Hne : p :: ps <> []) by discriminate.
    destruct (digest_facts _ HK (root_isDigest (p :: ps) Hne)) as (_ & Hp & Hl).
    now split.
Qed.

(** X14: when getEnableData of a session-key validator returns, an
    account address was given, the nonce read resolved, validAfter and
    validUntil fit in 6 bytes and the next nonce fits in 32 bytes, and the
    result is the session key, the 32-byte Merkle root, validAfter and
    validUntil on 6 bytes each, the paymaster and lastNonce + 1 on 32
    bytes, in this order. Without an account address it fails with
    KernelAccountAddressNotProvided, before anything else is looked at. *)
Theorem session_key_enable_data_layout
  (client : Client) (args : SessionKeyValidatorArgs) (v : SessionKeyValidator)
  (account : option Address) (out : Hex) :
  Keccak256Spec ->
  signerToSessionKeyValidator client args = Ok v ->
  (sk_getEnableData v account = Ok out ->
   exists kernelAccountAddress lastNonce invalidNonce,
     account = Some kernelAccountAddress
     /\ kernelAccountAddress <> ""
     /\ readNonces (sk_client v) (sk_validatorAddress v) kernelAccountAddress
        = Resolved (lastNonce, invalidNonce)
     /\ validAfter (sk_sessionKeyData v) < 2 ^ 48
     /\ validUntil (sk_sessionKeyData v) < 2 ^ 48
     /\ lastNonce + 1 < 2 ^ 256
     /\ out = "0x" ++ strip0x (sk_sessionKey v)
                ++ strip0x (MerkleTreeJs.getHexRoot (merkleTree v))
                ++ hexFixed 12 (validAfter (sk_sessionKeyData v))
                ++ hexFixed 12 (validUntil (sk_sessionKeyData v))
                ++ strip0x (paymaster (sk_sessionKeyData v))
                ++ hexFixed 64 (lastNonce + 1))
  /\ (truthy account = None ->
      sk_getEnableData v account = Err KernelAccountAddressNotProvided).
Proof.
  intros HK Hv. destruct (constructed_validator client args v Hv) as [_ Ht].
  destruct (root_word v HK Ht) as [Hroot _].
  unfold sk_getEnableData, getSessionNonces. rewrite Hroot, !padNumber_six.
  split.
  - destruct account as [[|c a]|]; cbn [truthy]; try discriminate.
    destruct (readNonces _ _ _) as [[lastNonce invalidNonce]|] eqn:Er;
      cbn [await bind fst]; [|discriminate].
    destruct (validAfter (sk_sessionKeyData v) <? 2 ^ 48) eqn:Ea;
      [|destruct (MAX_SAFE_INTEGER <? _); discriminate].
    cbn [bind].
    destruct (validUntil (sk_sessionKeyData v) <? 2 ^ 48) eqn:Eu;
      [|destruct (MAX_SAFE_INTEGER <? _); discriminate].
    cbn [bind]. rewrite (pad_numberToHex 32 _ ltac:(lia)).
    change (16 ^ N.of_nat (32 * 2)) with (2 ^ 256).
    destruct (lastNonce + 1 <? 2 ^ 256) eqn:En; [|discriminate].
    cbn [bind]. rewrite concat_six, !strip0x_prefixed. intros [= <-].
    exists (String c a), lastNonce, invalidNonce.
    apply N.ltb_lt in Ea, Eu, En. repeat split; auto. discriminate.
  - intros Hnone. now rewrite Hnone.
Qed.

(** X15: the enable data is 76 bytes longer than the session key and the
    paymaster address together: 116 bytes with 20-byte addresses. *)
Theorem session_key_enable_data_length
  (client : Client) (args : SessionKeyValidatorArgs) (v : SessionKeyValidator)
  (account : option Address) (out : Hex) :
  Keccak256Spec ->
  signerToSessionKeyValidator client args = Ok v ->
  sk_getEnableData v account = Ok out ->
  hexLen out
  = (hexLen (sk_sessionKey v) + hexLen (paymaster (sk_sessionKeyData v)) + 152)%nat
  /\ byteLength out
     = if Nat.even (hexLen (sk_sessionKey v) + hexLen (paymaster (sk_sessionKeyData v)))
       then Ok (N.of_nat
                  (Nat.div2 (hexLen (sk_sessionKey v)
                             + hexLen (paymaster (sk_sessionKeyData v))) + 76))
       else Err RangeError.
Proof.
  intros HK Hv Hout. destruct (constructed_validator client args v Hv) as [_ Ht].
  destruct (root_word v HK Ht) as [Hroot Hlen].
  assert (Hshape : exists a u n,
             out = concat [sk_sessionKey v; MerkleTreeJs.getHexRoot (merkleTree v);
                           "0x" ++ hexFixed 12 a; "0x" ++ hexFixed 12 u;
                           paymaster (sk_sessionKeyData v); "0x" ++ hexFixed 64 n]).
  { unfold sk_getEnableData, getSessionNonces in Hout.
    rewrite Hroot, !padNumber_six in Hout.
    destruct (truthy account); [|discriminate].
    destruct (await _) as [nonces|]; cbn [bind] in Hout; [|discriminate].
    destruct (validAfter (sk_sessionKeyData v) <? 2 ^ 48);
      [|destruct (MAX_SAFE_INTEGER <? _); discriminate].
    cbn [bind] in Hout.
    destruct (validUntil (sk_sessionKeyData v) <? 2 ^ 48);
      [|destruct (MAX_SAFE_INTEGER <? _); discriminate].
    cbn [bind] in Hout. rewrite (pad_numberToHex 32 _ ltac:(lia)) in Hout.
    destruct (_ <? _); [|discriminate]. cbn [bind] in Hout.
    injection Hout as <-. now eexists _, _, _. }
  destruct Hshape as (a & u & n & ->).
  assert (Hl : hexLen (concat [sk_sessionKey v; MerkleTreeJs.getHexRoot (merkleTree v);
                               "0x" ++ hexFixed 12 a; "0x" ++ hexFixed 12 u;
                               paymaster (sk_sessionKeyData v); "0x" ++ hexFixed 64 n])
               = (hexLen (sk_sessionKey v) + hexLen (paymaster (sk_sessionKeyData v))
                  + 152)%nat).
  { rewrite concat_six. unfold hexLen at 1. rewrite strip0x_prefixed.
    rewrite !length_append, !strip0x_prefixed, !length_hexFixed.
    fold (hexLen (sk_sessionKey v)). fold (hexLen (paymaster (sk_sessionKeyData v))).
    fold (hexLen (MerkleTreeJs.getHexRoot (merkleTree v))). rewrite Hlen. lia. }
  split; [exact Hl|].
  unfold byteLength. rewrite length_concat.
  set (k := (hexLen (sk_sessionKey v) + hexLen (paymaster (sk_sessionKeyData v)))%nat)
    in *.
  assert (Hsum : list_sum (map hexLen
                   [sk_sessionKey v; MerkleTreeJs.getHexRoot (merkleTree v);
                    "0x" ++ hexFixed 12 a; "0x" ++ hexFixed 12 u;
                    paymaster (sk_sessionKeyData v); "0x" ++ hexFixed 64 n])
                 = (k + 152)%nat).
  { cbn [map list_sum fold_right]. rewrite Hlen. unfold hexLen at 2 3 5.
    rewrite !strip0x_prefixed, !length_hexFixed. unfold k. lia. }
  rewrite Hsum.
  replace (2 + (k + 152))%nat with (k + 2 * 77)%nat by lia.
  rewrite Nat.even_add_mul_2.
  destruct (Nat.even k) eqn:Ek; [|reflexivity].
  f_equal. f_equal.
  apply Nat.even_spec in Ek. destruct Ek as [j ->].
  replace (2 * j + 2 * 77)%nat with (2 * (j + 77))%nat by lia.
  rewrite !Nat.div2_double. lia.
Qed.

End EnableDataProperties.

(** * Signatures and dummy signatures *)

Section DummySignatureFacts.

Import Js Viem.

Lemma toString16_byte (v : N) :
  16 <= v < 256 -> String.length (toString16 v) = 2%nat.
Proof.
  intros [Hlo Hhi].
  destruct (padStart_toString16 2 v ltac:(lia) Hhi) as [Hle _].
  pose proof (toString16_length_gt 1 v Hlo). lia.
Qed.

Lemma length_concat_four (a b c d c' : Hex) :
  hexLen c = hexLen c' ->
  String.length (concat [a; b; c; d]) = String.length (concat [a; b; c'; d]).
Proof.
  intros H. rewrite !length_concat. cbn [map list_sum fold_right]. now rewrite H.
Qed.

End DummySignatureFacts.

Section SigningProperties.

Context {X : Externals}.

Import Js Viem.

(** X16: the dummy signature of the session-key validator is the real one
    with the ECDSA part replaced: same validator header, same session key,
    same permission proof. When the dummy ECDSA signature is 65 bytes and
    the recovery value of the normalised signature takes one byte, as 27
    and 28 do, the two have the same length. *)
Theorem dummy_signature_mirrors_signature
  (v : SessionKeyValidator) (userOperation : UserOperation)
  (enableSig : option Hex) (out : Hex) :
  sk_signUserOperation v userOperation enableSig = Ok out ->
  exists header fixedSignature proofData sg,
    out = concat [header; sk_sessionKey v; fixedSignature; proofData]
    /\ sk_getDummySignature v userOperation enableSig
       = Ok (concat [header; sk_sessionKey v; DUMMY_ECDSA_SIG; proofData])
    /\ Sig.hexToSignature fixedSignature = Ok sg
    /\ (hexLen DUMMY_ECDSA_SIG = 130%nat -> 16 <= Sig.v sg < 256 ->
        String.length (concat [header; sk_sessionKey v; DUMMY_ECDSA_SIG; proofData])
        = String.length out).
Proof.
  unfold sk_signUserOperation, sk_getDummySignature.
  destruct (await _) as [s|]; cbn [bind]; [|discriminate].
  destruct (fixSignedData s) as [fixed|] eqn:Ef; cbn [bind]; [|discriminate].
  destruct (getValidatorSignature v _ _) as [header|]; cbn [bind]; [|discriminate].
  destruct (getEncodedPermissionProofData v _) as [proofData|]; cbn [bind];
    [|discriminate].
  intros [= <-].
  destruct (fixSignedData_inv s fixed Ef)
    as (rD & sD & vD & Lr & Ls & Hr & Hs & Hv & Nv & Vr & Vs & _ & Hfixed).
  set (v' := normalisedV (hexValue vD)) in *.
  assert (Lr' : String.length (toLowerCase rD) = 64%nat)
    by now rewrite length_toLowerCase.
  assert (Ls' : String.length (toLowerCase sD) = 64%nat)
    by now rewrite length_toLowerCase.
  assert (Hr' : allHexDigits (toLowerCase rD) = true)
    by now rewrite allHexDigits_toLowerCase.
  assert (Hs' : allHexDigits (toLowerCase sD) = true)
    by now rewrite allHexDigits_toLowerCase.
  assert (Vr' : Sig.isWithinCurveOrder (hexValue (toLowerCase rD)) = true)
    by now rewrite hexValue_toLowerCase.
  assert (Vs' : Sig.isWithinCurveOrder (hexValue (toLowerCase sD)) = true)
    by now rewrite hexValue_toLowerCase.
  rewrite append_assoc in Hfixed.
  exists header, fixed, proofData. eexists.
  split; [reflexivity|]. split; [reflexivity|]. split.
  - rewrite Hfixed.
    apply (hexToSignature_wellFormed _ _ _ Lr' Ls' Hr' Hs'
             (allHexDigits_toString16 v') (toString16_nonempty v') Vr' Vs').
  - cbn [Sig.v]. rewrite hexValue_toString16. intros Hd Hbyte.
    apply length_concat_four. rewrite Hd, Hfixed. unfold hexLen.
    rewrite strip0x_prefixed, !length_append, Lr', Ls', (toString16_byte v' Hbyte).
    reflexivity.
Qed.

Lemma enable_header_unset
  (v : SessionKeyValidator) (account : Address) (enableSig : option Hex) :
  mode v = enable ->
  truthy enableSig = None ->
  getValidatorSignature v account enableSig
  = match sk_getEnableData v (Some account) with
    | Ok _ => Err EnableSignatureNotSet
    | Err e => Err e
    end.
Proof.
  intros Hm He. unfold getValidatorSignature. rewrite Hm, He.
  now destruct (sk_getEnableData v _).
Qed.

(** X17: in enable mode, the default, the session-key validator produces
    neither a signature nor a dummy signature unless a non-empty enable
    signature is handed to it; when the enable data can be built, the
    error is that the enable signature is not set. *)
Theorem enable_mode_needs_enable_signature
  (v : SessionKeyValidator) (userOperation : UserOperation) (enableSig : option Hex) :
  mode v = enable ->
  truthy enableSig = None ->
  isOk (sk_signUserOperation v userOperation enableSig) = false
  /\ isOk (sk_getDummySignature v userOperation enableSig) = false
  /\ (isOk (sk_getEnableData v (Some (sender userOperation))) = true ->
      sk_getDummySignature v userOperation enableSig = Err EnableSignatureNotSet).
Proof.
  intros Hm He.
  pose proof (enable_header_unset v (sender userOperation) enableSig Hm He) as Hh.
  unfold sk_signUserOperation, sk_getDummySignature. rewrite Hh. split; [|split].
  - destruct (await _); cbn [bind]; [|reflexivity].
    destruct (fixSignedData _); cbn [bind]; [|reflexivity].
    now destruct (sk_getEnableData v _).
  - now destruct (sk_getEnableData v _).
  - now destruct (sk_getEnableData v _).
Qed.

(** X18: a real signature of the ECDSA validator over a 65-byte signer
    signature has the length of its dummy signature, 69 bytes, and both
    start with the sudo marker. *)
Theorem ecdsa_dummy_signature_length
  (e : EcdsaValidator) (userOperation : UserOperation) (out : Hex) :
  ecdsa_signUserOperation e userOperation = Ok out ->
  exists s dummy,
    signMessage (ecdsa_viemSigner e)
      (getUserOperationHash (withSignature userOperation "0x")
         (ecdsa_entryPoint e) (ecdsa_chainId e)) = Resolved s
    /\ getDummySignature (ecdsaPlugin e) userOperation None = Ok dummy
    /\ prefix sudoMarker dummy = true
    /\ hexLen dummy = 138%nat
    /\ (hexLen s = 130%nat -> String.length out = String.length dummy).
Proof.
  unfold ecdsa_signUserOperation.
  destruct (signMessage _ _) as [s|]; cbn [await bind]; [|discriminate].
  intros [= <-]. exists s. eexists. split; [reflexivity|]. split; [reflexivity|].
  split; [reflexivity|]. split; [reflexivity|].
  intros Hs. rewrite length_concat. cbn [map list_sum fold_right]. rewrite Hs.
  reflexivity.
Qed.

End SigningProperties.

(** * Kernel accounts *)

Section AccountProperties.

Context {X : Externals}.

Lemma createKernelAccount_generateInitCode (client : Client) (args : KernelAccountArgs) :
  createKernelAccount client args
  = let entryPoint :=
      match arg_accountEntryPoint args with Some e => e | None => ENTRYPOINT_V0_6 end in
    accountAddress_ <-
      match arg_deployedAccountAddress args with
      | Some a => Ok a
      | None => getAccountAddress client entryPoint (generateInitCode args)
      end ;;
    match truthy (Some accountAddress_) with
    | None => Err AccountAddressNotFound
    | Some _ =>
        Ok {| account_client := client;
              accountAddress := accountAddress_;
              account_entryPoint := entryPoint;
              defaultValidator := arg_defaultValidator args;
              activePlugin := arg_plugin args |}
    end.
Proof. reflexivity. Qed.

Lemma created_account (client : Client) (args : KernelAccountArgs)
  (a : KernelSmartAccount) :
  createKernelAccount client args = Ok a ->
  account_client a = client
  /\ account_entryPoint a
     = match arg_accountEntryPoint args with Some e => e | None => ENTRYPOINT_V0_6 end
  /\ defaultValidator a = arg_defaultValidator args
  /\ activePlugin a = arg_plugin args
  /\ accountAddress a <> ""
  /\ match arg_deployedAccountAddress args with
     | Some addr => accountAddress a = addr
     | None =>
         exists initCode_,
           generateInitCode args = Ok initCode_
           /\ getSenderAddress client initCode_
                (match arg_accountEntryPoint args with
                 | Some e => e
                 | None => ENTRYPOINT_V0_6
                 end) = Resolved (accountAddress a)
     end.
Proof.
  rewrite createKernelAccount_generateInitCode. cbv zeta.
  destruct (arg_deployedAccountAddress args) as [addr|].
  - cbn [bind]. destruct addr as [|c addr]; cbn [truthy]; [discriminate|].
    intros [= <-]. cbn. repeat split. discriminate.
  - unfold getAccountAddress.
    destruct (generateInitCode args) as [initCode_|]; cbn [bind]; [|discriminate].
    destruct (getSenderAddress client initCode_ _) as [addr|] eqn:Es; cbn [await bind];
      [|discriminate].
    destruct addr as [|c addr]; cbn [truthy]; [discriminate|].
    intros [= <-]. cbn. repeat split; [discriminate|].
    exists initCode_. now split.
Qed.

(** X19: an account created with an ECDSA validator as default validator
    and no deployed address has, as its address, the sender address of the
    init code factory ++ createAccount(logic, initialize(validator,
    owner), index), where the enable data is the owner's address as it is;
    the owner's address is not empty, and the plugin, if any, has no part
    in the address. *)
Theorem ecdsa_account_address
  (client : Client) (args : KernelAccountArgs) (e : EcdsaValidator)
  (a : KernelSmartAccount) :
  arg_defaultValidator args = ecdsaPlugin e ->
  arg_deployedAccountAddress args = None ->
  createKernelAccount client args = Ok a ->
  address (ecdsa_viemSigner e) <> ""
  /\ accountAddress a <> ""
  /\ getSenderAddress client
       (Viem.concat
          [match arg_factoryAddress args with Some f => f | None => FACTORY_ADDRESS end;
           encodeFunctionData
             (createAccount
                (match arg_accountLogicAddress args with
                 | Some l => l
                 | None => ACCOUNT_V2_3_LOGIC
                 end)
                (encodeFunctionData
                   (initialize (ecdsa_validatorAddress e)
                      (address (ecdsa_viemSigner e))))
                (match arg_index args with Some i => i | None => 0 end))])
       (match arg_accountEntryPoint args with
        | Some ep => ep
        | None => ENTRYPOINT_V0_6
        end)
     = Resolved (accountAddress a)
  /\ defaultValidator a = ecdsaPlugin e
  /\ activePlugin a = arg_plugin args.
Proof.
  intros Hd Hnone Ha.
  destruct (created_account client args a Ha) as (_ & _ & Hdv & Hap & Hne & Haddr).
  rewrite Hnone in Haddr. destruct Haddr as (initCode_ & Hgen & Hsender).
  unfold generateInitCode, getAccountInitCode in Hgen. rewrite Hd in Hgen.
  cbn [plugin_signer plugin_address getEnableData ecdsaPlugin] in Hgen.
  unfold ecdsa_getEnableData in Hgen.
  destruct (address (ecdsa_viemSigner e)) as [|c s] eqn:Eo;
    cbn [truthy bind] in Hgen; [discriminate Hgen|].
  injection Hgen as <-.
  split; [discriminate|]. split; [exact Hne|]. split; [exact Hsender|].
  split; [now rewrite Hdv, Hd | exact Hap].
Qed.

(** X20: a session-key validator cannot be the default validator of an
    account that is not deployed yet. Its enable data needs the account
    address, which is what is being computed: createKernelAccount fails
    with KernelAccountAddressNotProvided (with OwnerAccountNotFound when
    the signer has no address), and so does the init code. *)
Theorem session_key_default_needs_deployed_account
  (client : Client) (args : KernelAccountArgs) (v : SessionKeyValidator) :
  arg_defaultValidator args = sessionKeyPlugin v ->
  arg_deployedAccountAddress args = None ->
  let failure :=
    match truthy (Some (address (viemSigner v))) with
    | None => OwnerAccountNotFound
    | Some _ => KernelAccountAddressNotProvided
    end in
  generateInitCode args = Err failure
  /\ createKernelAccount client args = Err failure.
Proof.
  intros Hd Hnone failure.
  assert (Hgen : generateInitCode args = Err failure).
  { unfold generateInitCode, getAccountInitCode, failure. rewrite Hd.
    cbn [plugin_signer plugin_address getEnableData sessionKeyPlugin].
    now destruct (truthy (Some (address (viemSigner v)))). }
  split; [exact Hgen|].
  rewrite createKernelAccount_generateInitCode. cbv zeta.
  unfold getAccountAddress. now rewrite Hnone, Hgen.
Qed.

(** X21: an account whose default validator is an ECDSA validator cannot
    sign, nor produce a dummy signature, while a plugin is active: the
    ECDSA validator has no getPluginApproveSignature, and the call is made
    before the plugin is asked to sign. *)
Theorem ecdsa_default_cannot_approve_plugin
  (client : Client) (args : KernelAccountArgs) (a : KernelSmartAccount)
  (e : EcdsaValidator) (p : KernelPlugin) (userOperation : UserOperation) :
  createKernelAccount client args = Ok a ->
  arg_defaultValidator args = ecdsaPlugin e ->
  arg_plugin args = Some p ->
  account_signUserOperation a userOperation = Err TypeError
  /\ account_getDummySignature a userOperation = Err TypeError.
Proof.
  intros Ha Hd Hp.
  destruct (created_account client args a Ha) as (_ & _ & Hdv & Hap & _).
  unfold account_signUserOperation, account_getDummySignature, pluginApproval.
  rewrite Hap, Hp, Hdv, Hd. split; reflexivity.
Qed.

(** X22: through a kernel account, a session-key validator in enable
    mode, its default mode, never signs: as the default validator without
    plugin it is handed no enable signature, and as a plugin neither an
    ECDSA nor a session-key default validator can approve it. *)
Theorem enable_mode_session_key_never_signs
  (client : Client) (args : KernelAccountArgs) (a : KernelSmartAccount)
  (v v' : SessionKeyValidator) (e : EcdsaValidator) (userOperation : UserOperation) :
  createKernelAccount client args = Ok a ->
  mode v = enable ->
  (arg_plugin args = None /\ arg_defaultValidator args = sessionKeyPlugin v)
  \/ (arg_plugin args = Some (sessionKeyPlugin v)
      /\ (arg_defaultValidator args = ecdsaPlugin e
          \/ arg_defaultValidator args = sessionKeyPlugin v')) ->
  isOk (account_signUserOperation a userOperation) = false
  /\ isOk (account_getDummySignature a userOperation) = false.
Proof.
  intros Ha Hm Hcase.
  destruct (created_account client args a Ha) as (_ & _ & Hdv & Hap & _).
  unfold account_signUserOperation, account_getDummySignature, pluginApproval,
    currentValidator.
  rewrite Hap, Hdv.
  destruct Hcase as [[-> ->] | [-> [-> | ->]]]; cbn [bind]; try (split; reflexivity).
  cbn [signUserOperation getDummySignature sessionKeyPlugin].
  unfold sk_signUserOperation, sk_getDummySignature.
  rewrite (enable_header_unset v (sender userOperation) None Hm eq_refl). split.
  - destruct (await _); cbn [bind]; [|reflexivity].
    destruct (fixSignedData _); cbn [bind]; [|reflexivity].
    now destruct (sk_getEnableData v _).
  - now destruct (sk_getEnableData v _).
Qed.

Section InitCode.

Variable getBytecode : Client -> Address -> Outcome (option Hex).

(** X23: getInitCode returns 0x once code of more than 0 bytes sits at
    the account address; before that, for an account created without a
    deployed address, it returns the init code the account address was
    derived from. *)
Theorem init_code_matches_address
  (client : Client) (args : KernelAccountArgs) (a : KernelSmartAccount)
  (contractCode : option Hex) :
  createKernelAccount client args = Ok a ->
  getBytecode client (accountAddress a) = Resolved contractCode ->
  let size := match contractCode with Some code => String.length code | None => 0%nat end in
  ((2 < size)%nat -> account_getInitCode getBytecode args a = Ok "0x")
  /\ ((size <= 2)%nat -> arg_deployedAccountAddress args = None ->
      exists initCode_,
        account_getInitCode getBytecode args a = Ok initCode_
        /\ getSenderAddress client initCode_ (account_entryPoint a)
           = Resolved (accountAddress a)).
Proof.
  intros Ha Hcode size.
  destruct (created_account client args a Ha) as (Hc & He & _ & _ & _ & Haddr).
  unfold account_getInitCode. rewrite Hc, Hcode. cbn [await bind]. fold size. split.
  - intros Hs. apply Nat.ltb_lt in Hs. now rewrite Hs.
  - intros Hs Hnone. apply Nat.ltb_ge in Hs. rewrite Hs.
    rewrite Hnone in Haddr. destruct Haddr as (initCode_ & Hgen & Hsender).
    exists initCode_. split; [exact Hgen|]. now rewrite He.
Qed.

End InitCode.

End AccountProperties.

(** * Permissions generated from an ABI *)

Section GeneratedRuleFacts.

Import Js Viem.

Lemma allHexDigits_byteToHex (c : ascii) : allHexDigits (byteToHex c) = true.
Proof. now destruct c as [[] [] [] [] [] [] [] []]. Qed.

Lemma allHexDigits_bytesToHexDigits (s : string) :
  allHexDigits (bytesToHexDigits s) = true.
Proof.
  induction s as [|c s IH]; [reflexivity|].
  cbn [bytesToHexDigits]. now rewrite allHexDigits_append, allHexDigits_byteToHex, IH.
Qed.

(** The hex form of an argument value is a hex value that reads as the
    number the argument stands for. *)
Lemma toHexValue_hex (value_ : ArgValue) (h : Hex) :
  toHexValue value_ = Ok h ->
  allHexDigits (strip0x h) = true /\ hexValue (strip0x h) = argNumber value_.
Proof.
  destruct value_ as [s|n|n|b]; cbn [toHexValue argNumber].
  - intros [= <-]. destruct (isHex s) eqn:E.
    + now destruct (isHex_split s E).
    + unfold stringToHex. rewrite strip0x_prefixed.
      split; [apply allHexDigits_bytesToHexDigits | reflexivity].
  - unfold toHexNumber. destruct (MAX_SAFE_INTEGER <? n); [discriminate|].
    intros [= <-]. unfold numberToHex. rewrite strip0x_prefixed.
    split; [apply allHexDigits_toString16 | apply hexValue_toString16].
  - intros [= <-]. unfold numberToHex. rewrite strip0x_prefixed.
    split; [apply allHexDigits_toString16 | apply hexValue_toString16].
  - intros [= <-]. now destruct b.
Qed.

Lemma pad_word (h param_ : Hex) :
  allHexDigits (strip0x h) = true ->
  pad h 32 = Ok param_ ->
  wellFormedRule {| offset := 0; condition := EQUAL; param := param_ |}
  /\ String.length (strip0x param_) = 64%nat
  /\ hexValue (strip0x param_) = hexValue (strip0x h).
Proof.
  intros Hh. unfold pad.
  destruct (32 * 2 <? String.length (strip0x h))%nat eqn:E; [discriminate|].
  apply Nat.ltb_ge in E. intros [= <-]. unfold wellFormedRule.
  cbn [param isHex strip0x].
  rewrite allHexDigits_padStart by exact Hh.
  rewrite hexValue_padStart.
  assert (Hl : String.length (padStart 64 "0" (strip0x h)) = 64%nat).
  { unfold padStart. rewrite length_append, length_repeatChar. lia. }
  rewrite Hl. repeat split. lia.
Qed.

Lemma paramRulesFrom_spec (args : list (option Arg)) (i : nat) (rules_ : list ParamRules) :
  paramRulesFrom i args = Ok rules_ ->
  Forall wellFormedRule rules_
  /\ Forall (fun rule => String.length (strip0x (param rule)) = 64%nat
                         /\ exists k, (i <= k < i + List.length args)%nat
                                      /\ offset rule = (k * 32)%nat) rules_
  /\ forall data_, forallb (spec_ruleHolds data_) rules_ = constraintsHold i args data_.
Proof.
  revert i rules_; induction args as [|[arg|] args IH]; intros i rules_;
    cbn [paramRulesFrom constraintsHold].
  - intros [= <-]. repeat split; constructor.
  - destruct (toHexValue (arg_value arg)) as [h|] eqn:Eh; cbn [bind]; [|discriminate].
    destruct (pad h 32) as [param_|] eqn:Ep; cbn [bind]; [|discriminate].
    destruct (paramRulesFrom (S i) args) as [rest|] eqn:Er; cbn [bind]; [|discriminate].
    intros [= <-].
    destruct (toHexValue_hex _ _ Eh) as [Hh Hn].
    destruct (pad_word h param_ Hh Ep) as (Hwf & Hlen & Hval).
    destruct (IH (S i) rest Er) as (IH1 & IH2 & IH3).
    split; [constructor; [exact Hwf | exact IH1]|]. split.
    + constructor.
      * cbn [param offset]. split; [exact Hlen|]. exists i. cbn [List.length]. lia.
      * eapply Forall_impl; [|exact IH2]. cbn beta.
        intros rule (Hl & k & Hk & Ho). split; [exact Hl|].
        exists k. cbn [List.length]. split; [lia | exact Ho].
    + intros data_. cbn [forallb]. rewrite IH3. f_equal.
      unfold spec_ruleHolds, dataWord, argWord. cbn [condition offset param].
      now rewrite Hval, Hn.
  - intros Hr. destruct (IH (S i) rules_ Hr) as (IH1 & IH2 & IH3).
    split; [exact IH1|]. split; [|exact IH3].
    eapply Forall_impl; [|exact IH2]. cbn beta.
    intros rule (Hl & k & Hk & Ho). split; [exact Hl|].
    exists k. cbn [List.length]. split; [lia | exact Ho].
Qed.

End GeneratedRuleFacts.

Section GeneratedPermissionProperties.

Context {X : Externals}.

Variable Abi : Type.
Variable getAbiItem : Abi -> option (list (option Arg)) -> option string -> option AbiItem.

Import Js Viem.

Lemma getPermissionFromABI_inv (params : PermissionFromABIArgs Abi) (p : PermissionInput) :
  getPermissionFromABI Abi getAbiItem params = Returned p ->
  exists abiItem rules_,
    getAbiItem (abi Abi params) (abi_args Abi params) (functionName Abi params)
    = Some abiItem
    /\ item_type abiItem = "function"
    /\ paramRulesFrom 0 (match abi_args Abi params with Some a => a | None => [] end)
       = Ok rules_
    /\ p = {| in_target := abi_target Abi params;
              in_rules := Some rules_;
              in_sig := Some (getFunctionSelector (item_signature abiItem));
              in_valueLimit :=
                Some match abi_valueLimit Abi params with Some l => l | None => 0 end;
              in_executionRule := None;
              in_operation := None |}.
Proof.
  unfold getPermissionFromABI.
  destruct (getAbiItem _ _ _) as [abiItem|]; [|discriminate].
  destruct (String.eqb_spec (item_type abiItem) "function") as [Et|]; cbn [negb];
    [|discriminate].
  destruct (abi_args Abi params) as [args|].
  - destruct (paramRulesFrom 0 args) as [rules_|] eqn:Er; [|discriminate].
    intros [= <-]. now exists abiItem, rules_.
  - intros [= <-]. now exists abiItem, [].
Qed.



End GeneratedPermissionProperties.

(** * Ties between permissions of the same value limit *)

Section StabilityFacts.

Lemma insertByValueLimit_stable (k : N) (a : Permission) (l : list Permission) :
  filter (sameLimit k) (insertByValueLimit a l)
  = if sameLimit k a then a :: filter (sameLimit k) l else filter (sameLimit k) l.
Proof.
  induction l as [|b l IH]; cbn [insertByValueLimit filter].
  - now destruct (sameLimit k a).
  - destruct (valueLimit a <? valueLimit b) eqn:E; cbn [filter].
    + rewrite IH. unfold sameLimit in *.
      destruct (valueLimit b =? k) eqn:Eb; [|reflexivity].
      apply N.eqb_eq in Eb. apply N.ltb_lt in E.
      assert (Ea : (valueLimit a =? k) = false) by (apply N.eqb_neq; lia).
      now rewrite Ea.
    + reflexivity.
Qed.

(** The sort is stable: permissions of one value limit keep their order. *)
Lemma sortByValueLimit_stable (k : N) (l : list Permission) :
  filter (sameLimit k) (sortByValueLimit l) = filter (sameLimit k) l.
Proof.
  induction l as [|a l IH]; [reflexivity|].
  cbn [sortByValueLimit fold_right filter].
  fold (sortByValueLimit l). now rewrite insertByValueLimit_stable, IH.
Qed.

Lemma filter_split {A : Type} (f : A -> bool) (l a b : list A) (x : A) :
  filter f l = (a ++ x :: b)%list ->
  exists l1 l2, l = (l1 ++ x :: l2)%list /\ filter f l1 = a /\ filter f l2 = b.
Proof.
  revert a; induction l as [|y l IH]; intros a H; cbn [filter] in H.
  - now destruct a.
  - destruct (f y) eqn:E.
    + destruct a as [|a0 a]; cbn [app] in H; injection H as -> H.
      * exists [], l. cbn. now rewrite H.
      * destruct (IH a H) as (l1 & l2 & -> & H1 & H2).
        exists (a0 :: l1), l2. cbn [app filter]. now rewrite E, H1.
    + destruct (IH a H) as (l1 & l2 & -> & H1 & H2).
      exists (y :: l1), l2. cbn [app filter]. now rewrite E.
Qed.

Lemma filter_candidates (k : N) (ps : list Permission) (t : Address) (d : Hex) (v : N) :
  filter (sameLimit k) (candidates ps t d v)
  = filter (fun p =>
              ((Js.strictEq (Js.toLowerCase (target p)) (Js.toLowerCase t)
                || Js.strictEq (Js.toLowerCase (target p))
                               (Js.toLowerCase Viem.zeroAddress))
               && Js.strictEq (Js.toLowerCase (sig p))
                              (Js.toLowerCase (Js.slice 0 10 d))
               && (v <=? valueLimit p))
              && sameLimit k p) ps.
Proof.
  unfold candidates, filterBySignature.
  induction ps as [|p ps IH]; [reflexivity|]. cbn [filter].
  destruct (_ || _); cbn [andb filter]; [|exact IH].
  destruct (Js.strictEq (Js.toLowerCase (sig p)) _); cbn [andb filter]; [|exact IH].
  destruct (v <=? valueLimit p); cbn [andb filter]; [|exact IH].
  destruct (sameLimit k p); [now rewrite IH | exact IH].
Qed.

(** Among the permissions that precede the matched one in the list, those
    that authorise the call have a strictly lower value limit. *)
Lemma filterOne_first (ps : list Permission) (c : Address * (Hex * N)) (p : Permission) :
  filterOne ps c = Ok (Some p) ->
  exists l1 l2,
    ps = (l1 ++ p :: l2)%list
    /\ forall q, In q l1 -> authorises q c -> valueLimit q < valueLimit p.
Proof.
  intros Hf. pose proof Hf as Hf0.
  destruct c as [t [d v]]. rewrite filterOne_candidates in Hf.
  destruct (findPermissionByRule_split _ _ _ Hf) as (s1 & s2 & Hs & Hp & Hs1).
  pose proof (sortByValueLimit_stable (valueLimit p) (candidates ps t d v)) as Hst.
  rewrite Hs, filter_app in Hst. cbn [filter] in Hst.
  unfold sameLimit at 2 in Hst. rewrite N.eqb_refl in Hst.
  rewrite filter_candidates in Hst. symmetry in Hst.
  destruct (filter_split _ _ _ _ _ Hst) as (l1 & l2 & Hps & H1 & _).
  exists l1, l2. split; [exact Hps|].
  intros q Hq Ha.
  assert (Hle : valueLimit q <= valueLimit p).
  { apply (filterOne_highest ps (t, (d, v)) p q Hf0); [|exact Ha].
    rewrite Hps. apply in_or_app. now left. }
  destruct (N.eq_dec (valueLimit q) (valueLimit p)) as [E|]; [|lia]. exfalso.
  destruct Ha as (Ht & Hsg & Hv & Hr). cbn [fst snd] in *.
  assert (Hin : In q (filter (sameLimit (valueLimit p)) s1)).
  { rewrite <- H1. apply filter_In. split; [exact Hq|].
    unfold sameLimit, Js.strictEq. rewrite !andb_true_iff, orb_true_iff.
    rewrite !String.eqb_eq, N.leb_le, N.eqb_eq. unfold targetMatches in Ht. tauto. }
  apply filter_In in Hin. destruct Hin as [Hin _].
  rewrite Forall_forall in Hs1. specialize (Hs1 q Hin). congruence.
Qed.

End StabilityFacts.

Section TieProperties.

Context {X : Externals}.

(** X26: ties are broken by position. The permission matched to an
    execute call is the first in the validator's list among the
    authorising permissions of the highest value limit: every permission
    that precedes it and authorises the call has a strictly lower limit. *)
Theorem matched_permission_is_first_of_highest
  (v : SessionKeyValidator) (callData_ : Hex) (p : Permission)
  (to_ : Address) (value_ : N) (data_ : Hex) (op : N) :
  findMatchingPermissions v callData_ = Some (MatchedOne p) ->
  decodeFunctionData callData_ = Resolved (execute to_ value_ data_ op) ->
  exists before after_,
    permissions (sk_sessionKeyData v) = (before ++ p :: after_)%list
    /\ forall q, In q before -> authorises q (to_, (data_, value_)) ->
                 valueLimit q < valueLimit p.
Proof.
  unfold findMatchingPermissions. intros H Hd. rewrite Hd in H.
  cbn [await bind] in H.
  destruct (filterPermissions _ _ _ _) as [[[|p' found]|]|] eqn:E;
    cbn [bind catchUndefined] in H; try discriminate.
  injection H as ->.
  destruct (filterPermissions_shape _ _ _ _ _ E) as (_ & _ & HF).
  cbn [combine] in HF. inversion HF as [|? ? ? ? Hp _]; subst.
  now apply filterOne_first.
Qed.

Import MerkleTreeJs.

(** X27: with permissions configured, the permission-proof segment of a
    signature encodes the matched permission with its Merkle proof (the
    matched permissions with their proofs, for a batch), and each of these
    proofs verifies against the validator's Merkle root. *)
Theorem proof_segment_carries_verifying_proofs
  (client : Client) (args : SessionKeyValidatorArgs) (v : SessionKeyValidator)
  (callData_ out : Hex) :
  Keccak256Spec ->
  signerToSessionKeyValidator client args = Ok v ->
  permissions (sk_sessionKeyData v) <> [] ->
  getEncodedPermissionProofData v callData_ = Ok out ->
  (exists p proof,
      findMatchingPermissions v callData_ = Some (MatchedOne p)
      /\ out = encodeAbiParameters (OnePermission p)
                 (Some (bytes32Array, FlatProof proof))
      /\ verify keccak256 proof
           (keccak256 (encodePermissionData (OnePermission p) None))
           (getHexRoot (merkleTree v)) = true)
  \/ (exists ps proofs,
        findMatchingPermissions v callData_ = Some (MatchedMany ps)
        /\ out = encodeAbiParameters (PermissionArray ps)
                   (Some (match ps with [] => bytes32Array | _ => bytes32ArrayArray end,
                          NestedProof proofs))
        /\ Forall2 (fun p proof =>
                      verify keccak256 proof
                        (keccak256 (encodePermissionData (OnePermission p) None))
                        (getHexRoot (merkleTree v)) = true)
             ps proofs).
Proof.
  intros HK Hv Hne Hout.
  destruct (constructed_validator client args v Hv) as [_ Ht].
  assert (Hverify : forall p, In p (permissions (sk_sessionKeyData v)) ->
            verify keccak256
              (getHexProof (merkleTree v)
                 (keccak256 (encodePermissionData (OnePermission p) None)))
              (keccak256 (encodePermissionData (OnePermission p) None))
              (getHexRoot (merkleTree v)) = true).
  { intros p Hin. rewrite Ht.
    destruct (permission_leaf _ p Hin) as (input & Hi & -> & Hleaf).
    unfold verify.
    rewrite (getHexProof_verifies keccak256 (new keccak256 input true true) _
               eq_refl Hleaf).
    rewrite root_is_buffer by exact Hi. apply String.eqb_refl. }
  assert (Hconf : negb (isEmpty (permissions (sk_sessionKeyData v))) = true).
  { now destruct (permissions (sk_sessionKeyData v)). }
  unfold getEncodedPermissionProofData in Hout. rewrite Hconf in Hout. cbv zeta in Hout.
  destruct (findMatchingPermissions v callData_) as [[p|ps]|] eqn:Em.
  - cbn [andb matchingValue] in Hout. injection Hout as <-. left.
    exists p. eexists. split; [reflexivity|]. split; [reflexivity|].
    apply Hverify.
    unfold findMatchingPermissions in Em.
    destruct (decodeFunctionData callData_) as [[]|]; cbn [await bind catchUndefined] in Em;
      try discriminate.
    + destruct (filterPermissions _ _ _ _) as [[[|q found]|]|] eqn:E;
        cbn [bind catchUndefined] in Em; try discriminate.
      injection Em as ->.
      destruct (filterPermissions_shape _ _ _ _ _ E) as (_ & _ & HF).
      cbn [combine] in HF. inversion HF as [|? ? ? ? Hp _]; subst.
      now destruct (filterOne_sound _ _ _ Hp).
    + destruct (filterPermissions _ _ _ _) as [[found|]|]; cbn in Em; discriminate.
  - cbn [andb matchingValue] in Hout. injection Hout as <-. right.
    exists ps. eexists. split; [reflexivity|]. split.
    + unfold encodePermissionData, proofType. cbn [option_map].
      destruct ps; reflexivity.
    + assert (Hall : Forall (fun p => In p (permissions (sk_sessionKeyData v))) ps).
      { unfold findMatchingPermissions in Em.
        destruct (decodeFunctionData callData_) as [[]|];
          cbn [await bind catchUndefined] in Em; try discriminate.
        - destruct (filterPermissions _ _ _ _) as [[[|q l]|]|]; cbn in Em; discriminate.
        - destruct (filterPermissions _ _ _ _) as [[l|]|] eqn:E;
            cbn [bind catchUndefined option_map] in Em; try discriminate.
          injection Em as ->.
          destruct (filterPermissions_shape _ _ _ _ _ E) as (_ & _ & HF).
          clear E. induction HF as [|c p cs ps' Hp _ IH]; constructor; [|exact IH].
          now destruct (filterOne_sound _ _ _ Hp). }
      clear Em. induction Hall as [|p ps Hp _ IH]; cbn [map]; constructor;
        [now apply Hverify | exact IH].
  - cbn [andb] in Hout.
    destruct (negb (Js.strictEq (getHexRoot (merkleTree v)) zeroWord)) eqn:Er;
      [discriminate|].
    exfalso. apply negb_false_iff in Er. unfold Js.strictEq in Er.
    apply String.eqb_eq in Er. exact (root_nonzero v HK Hne Ht Er).
Qed.

End TieProperties.

(** * The enable-mode header *)

Section HeaderFacts.

Import Js Viem.

Lemma concat_from (hs : list Hex) (acc : string) :
  fold_left (fun acc x => acc ++ strip0x x) hs acc
  = acc ++ fold_right (fun x rest => strip0x x ++ rest) "" hs.
Proof.
  revert acc; induction hs as [|h hs IH]; intros acc; cbn [fold_left fold_right].
  - now rewrite append_nil_r.
  - now rewrite IH, append_assoc.
Qed.

Lemma concat_flat (hs : list Hex) :
  concat hs = "0x" ++ fold_right (fun x rest => strip0x x ++ rest) "" hs.
Proof. unfold concat. now rewrite concat_from. Qed.

(** pad(toHex(n), { size: 32 }) of a number. *)
Lemma padNumber_word (n : N) (h : Hex) :
  padNumber n 32 = Ok h -> h = "0x" ++ hexFixed 64 n.
Proof.
  unfold padNumber, toHexNumber.
  destruct (MAX_SAFE_INTEGER <? n) eqn:E; [discriminate|]. cbn [bind].
  rewrite (pad_numberToHex 32 n ltac:(lia)).
  destruct (n <? 16 ^ N.of_nat (32 * 2)); [|discriminate]. now intros [= <-].
Qed.

Lemma padNumber_six_inv (n : N) (h : Hex) :
  padNumber n 6 = Ok h -> h = "0x" ++ hexFixed 12 n.
Proof.
  rewrite padNumber_six. destruct (n <? 2 ^ 48); [now intros [= <-]|].
  destruct (MAX_SAFE_INTEGER <? n); discriminate.
Qed.

(** pad(address, { size: 20 }) *)
Lemma pad_address (a h : Hex) :
  pad a 20 = Ok h ->
  h = "0x" ++ padStart 40 "0" (strip0x a)
  /\ String.length (padStart 40 "0" (strip0x a)) = 40%nat.
Proof.
  unfold pad. destruct (20 * 2 <? String.length (strip0x a))%nat eqn:E; [discriminate|].
  apply Nat.ltb_ge in E. intros [= <-]. split; [reflexivity|].
  unfold padStart. rewrite length_append, length_repeatChar. lia.
Qed.

End HeaderFacts.

Section HeaderProperties.

Context {X : Externals}.

Import Js Viem.

(** X28: in enable mode the validator header is, after the mode, a fixed
    part of 84 bytes (validUntil and validAfter of the executor data on 6
    bytes each, the validator and the executor addresses on 20 bytes each,
    the byte length of the enable data on 32 bytes) followed by the enable
    data, the byte length of the enable signature on 32 bytes and the
    enable signature. *)
Theorem enable_header_layout
  (v : SessionKeyValidator) (account : Address) (enableSig : option Hex) (header : Hex) :
  mode v = enable ->
  getValidatorSignature v account enableSig = Ok header ->
  exists enableData enableSignature fixedPart,
    sk_getEnableData v (Some account) = Ok enableData
    /\ enableSig = Some enableSignature
    /\ fixedPart
       = hexFixed 12 (exec_validUntil (_executorData v))
         ++ hexFixed 12 (exec_validAfter (_executorData v))
         ++ padStart 40 "0" (strip0x (sk_validatorAddress v))
         ++ padStart 40 "0" (strip0x (executor (_executorData v)))
         ++ hexFixed 64 (N.of_nat (Nat.div2 (String.length enableData) - 1))
    /\ String.length fixedPart = 168%nat
    /\ header
       = "0x" ++ strip0x (modeHex enable) ++ fixedPart ++ strip0x enableData
           ++ hexFixed 64 (N.of_nat (Nat.div2 (String.length enableSignature) - 1))
           ++ strip0x enableSignature.
Proof.
  intros Hm. unfold getValidatorSignature. rewrite Hm.
  destruct (sk_getEnableData v (Some account)) as [enableData|]; cbn [bind];
    [|discriminate].
  destruct enableSig as [[|c s]|]; cbn [truthy]; try discriminate.
  set (enableSignature := String c s).
  destruct (padNumber (exec_validUntil _) 6) as [until_|] eqn:Eu; cbn [bind];
    [|discriminate].
  destruct (padNumber (exec_validAfter _) 6) as [after_|] eqn:Ea; cbn [bind];
    [|discriminate].
  destruct (pad (sk_validatorAddress v) 20) as [validator_|] eqn:Ev; cbn [bind];
    [|discriminate].
  destruct (pad (executor _) 20) as [executor_|] eqn:Ee; cbn [bind]; [|discriminate].
  unfold byteLength.
  destruct (Nat.even (String.length enableData)); cbn [bind]; [|discriminate].
  destruct (padNumber _ 32) as [dataLength|] eqn:Ed; cbn [bind]; [|discriminate].
  destruct (Nat.even (String.length enableSignature)); cbn [bind]; [|discriminate].
  destruct (padNumber (N.of_nat (Nat.div2 (String.length enableSignature) - 1)) 32)
    as [sigLength|] eqn:Es; cbn [bind]; [|discriminate].
  intros [= <-].
  apply padNumber_six_inv in Eu, Ea. apply padNumber_word in Ed, Es.
  destruct (pad_address _ _ Ev) as [-> Hlv]. destruct (pad_address _ _ Ee) as [-> Hle].
  subst until_ after_ dataLength sigLength.
  exists enableData, enableSignature. eexists.
  split; [reflexivity|]. split; [reflexivity|]. split; [reflexivity|]. split.
  - rewrite !length_append, !length_hexFixed, Hlv, Hle. reflexivity.
  - rewrite concat_flat. cbn [fold_right]. rewrite !strip0x_prefixed, append_nil_r.
    now rewrite !append_assoc.
Qed.

End HeaderProperties.

(** * When a permission is generated, and when permissions are added *)

Section GenerationFacts.

Import Js Viem.

Lemma length_bytesToHexDigits (s : string) :
  String.length (bytesToHexDigits s) = (2 * String.length s)%nat.
Proof.
  induction s as [|c s IH]; [reflexivity|].
  cbn [bytesToHexDigits byteToHex append String.length]. rewrite IH. lia.
Qed.

(** The hex form of an argument value is padded to a word exactly when
    the value fits one. *)
Lemma pad_toHexValue (value_ : ArgValue) :
  (exists param_, (h <- toHexValue value_ ;; pad h 32) = Ok param_)
  <-> fitsWord value_ = true.
Proof.
  destruct value_ as [s|n|n|b]; cbn [toHexValue fitsWord bind].
  - unfold pad. destruct (isHex s) eqn:E.
    + destruct (32 * 2 <? String.length (strip0x s))%nat eqn:El.
      * apply Nat.ltb_lt in El. split; [intros [? H]; discriminate H|].
        intros H. apply Nat.leb_le in H. cbn in El. lia.
      * apply Nat.ltb_ge in El. split; [|now eexists].
        intros _. apply Nat.leb_le. exact El.
    + unfold stringToHex. rewrite strip0x_prefixed, length_bytesToHexDigits.
      destruct (32 * 2 <? 2 * String.length s)%nat eqn:El.
      * apply Nat.ltb_lt in El. split; [intros [? H]; discriminate H|].
        intros H. apply Nat.leb_le in H. lia.
      * apply Nat.ltb_ge in El. split; [|now eexists].
        intros _. apply Nat.leb_le. lia.
  - unfold toHexNumber. destruct (MAX_SAFE_INTEGER <? n) eqn:E; cbn [bind].
    + apply N.ltb_lt in E. split; [intros [? H]; discriminate H|].
      intros H. apply N.leb_le in H. lia.
    + apply N.ltb_ge in E. rewrite (pad_numberToHex 32 n ltac:(lia)).
      assert (Hn : (n <? 16 ^ N.of_nat (32 * 2)) = true).
      { apply N.ltb_lt. unfold MAX_SAFE_INTEGER in E.
        eapply N.le_lt_trans; [exact E|]. reflexivity. }
      rewrite Hn. split; [|now eexists]. intros _. now apply N.leb_le.
  - rewrite (pad_numberToHex 32 n ltac:(lia)).
    change (16 ^ N.of_nat (32 * 2)) with (2 ^ 256).
    destruct (n <? 2 ^ 256); split; try reflexivity; try discriminate;
      [now eexists | intros [? H]; discriminate H].
  - split; [reflexivity|]. intros _. destruct b; now eexists.
Qed.

Lemma paramRulesFrom_succeeds (args : list (option Arg)) (i : nat) :
  (exists rules_, paramRulesFrom i args = Ok rules_)
  <-> forallb argFits args = true.
Proof.
  revert i; induction args as [|[arg|] args IH]; intros i;
    cbn [paramRulesFrom forallb argFits].
  - split; [reflexivity | now eexists].
  - rewrite andb_true_iff, <- (IH (S i)), <- pad_toHexValue.
    destruct (toHexValue (arg_value arg)) as [h|]; cbn [bind].
    + destruct (pad h 32) as [param_|]; cbn [bind].
      * destruct (paramRulesFrom (S i) args) as [rest|]; cbn [bind].
        -- split; [intros _; split; now eexists | intros _; now eexists].
        -- split; [intros [? H]; discriminate H | intros [_ [? H]]; discriminate H].
      * split; [intros [? H]; discriminate H | intros [[? H] _]; discriminate H].
    + split; [intros [? H]; discriminate H | intros [[? H] _]; discriminate H].
  - cbn [andb]. apply IH.
Qed.

End GenerationFacts.

Section GenerationProperties.

Context {X : Externals}.

Variable Abi : Type.
Variable getAbiItem : Abi -> option (list (option Arg)) -> option string -> option AbiItem.


End GenerationProperties.

Section AdditiveProperties.

(** X30: permissions add up. On hex call data, when every rule parameter
    of the larger list is a hex value of at most 32 bytes, a call matched
    under a list of permissions is matched under every list that holds
    these permissions, by a permission of at least the same value limit. *)
Theorem more_permissions_match_more
  (ps ps' : list Permission) (t : Address) (d : Hex) (val : N) (p : Permission) :
  Viem.isHex d = true ->
  Forall (fun q => Forall wellFormedRule (rules q)) ps' ->
  incl ps ps' ->
  filterOne ps (t, (d, val)) = Ok (Some p) ->
  exists p', filterOne ps' (t, (d, val)) = Ok (Some p')
             /\ valueLimit p <= valueLimit p'.
Proof.
  intros Hd Hwf Hincl Hp.
  destruct (filterOne_sound _ _ _ Hp) as [Hin Ha].
  pose proof (filterOne_spec ps' t d val Hd Hwf) as Hspec.
  destruct (find _ _) as [p'|].
  - exists p'. split; [exact Hspec|].
    exact (filterOne_highest ps' (t, (d, val)) p' p Hspec (Hincl p Hin) Ha).
  - exfalso. exact (filterOne_none _ _ Hspec p (Hincl p Hin) Ha).
Qed.

End AdditiveProperties.

(** * The further properties on concrete inputs *)

(** The sample validator with P1 and P2. *)
Lemma permission_indices_are_positions_witness :
  map index (permissions (sk_sessionKeyData
                            (Sample.validator [Sample.P1; Sample.P2] sudo)))
  = [0%nat; 1%nat].
Proof.
  exact (proj1
    (permission_indices_are_positions (X := Sample.externals) Sample.client
       (Sample.validatorArgs (Some [Sample.P1; Sample.P2]) sudo)
       (Sample.validator [Sample.P1; Sample.P2] sudo) eq_refl)).
Defined.

Lemma matched_permission_authorises_witness :
  exists to_ value_ data_ op,
    decodeFunctionData (Externals := Sample.externals) "0x01"
    = Resolved (execute to_ value_ data_ op)
    /\ In Sample.Q1 [Sample.Q1; Sample.Q2]
    /\ authorises Sample.Q1 (to_, (data_, value_)).
Proof.
  exact (matched_permission_authorises (X := Sample.externals)
           (Sample.validator [Sample.P1; Sample.P2] sudo) "0x01" Sample.Q1 eq_refl).
Defined.

(** P4 (limit 8) and P1 (limit 10) both authorise the transfer of value
    7; P1 is matched. *)
Lemma matched_permission_has_highest_limit_witness :
  (valueLimit (Cases.normalised 0 [Cases.P4; Sample.P1])
   <=? valueLimit (Cases.normalised 1 [Cases.P4; Sample.P1])) = true.
Proof.
  apply N.leb_le.
  apply (matched_permission_has_highest_limit (X := Sample.externals)
           (Sample.validator [Cases.P4; Sample.P1] sudo) "0x01"
           (Cases.normalised 1 [Cases.P4; Sample.P1])
           (Cases.normalised 0 [Cases.P4; Sample.P1])
           Sample.A 7 Sample.transferData 0 eq_refl eq_refl).
  - left. reflexivity.
  - repeat split; try reflexivity.
    + left. reflexivity.
    + cbn. discriminate.
Defined.

(** No sample permission carries the selector of approve. *)
Lemma unmatched_iff_no_permission_authorises_witness :
  filterOne [Sample.Q1; Sample.Q2] (Sample.A, (Sample.approveData, 7)) = Ok None.
Proof.
  apply (proj2 (proj2
    (unmatched_iff_no_permission_authorises [Sample.Q1; Sample.Q2] Sample.A
       Sample.approveData 7 eq_refl ltac:(repeat constructor)))).
  intros q [<-|[<-|[]]] (_ & Hs & _); vm_compute in Hs; discriminate Hs.
Defined.

(** A batch of a transfer and an approve, with a permission for each. *)
Lemma matched_batch_authorises_witness :
  exists calls,
    decodeFunctionData (Externals := Sample.externals) "0x03"
    = Resolved (executeBatch calls)
    /\ Forall2 (fun c p => In p (normalizePermissions 0 [Sample.P1; Cases.P5])
                           /\ authorises p (tripleOf c))
         calls (normalizePermissions 0 [Sample.P1; Cases.P5]).
Proof.
  exact (matched_batch_authorises (X := Sample.externals)
           (Sample.validator [Sample.P1; Cases.P5] sudo) "0x03"
           (normalizePermissions 0 [Sample.P1; Cases.P5]) eq_refl).
Defined.

Lemma empty_batch_is_authorised_witness :
  findMatchingPermissions (X := Cases.externals)
    (Sample.validator [Sample.P1; Sample.P2] sudo) "0x04"
  = Some (MatchedMany []).
Proof.
  exact (proj1
    (empty_batch_is_authorised (X := Cases.externals)
       (Sample.validator [Sample.P1; Sample.P2] sudo) "0x04" eq_refl)).
Defined.

(** Call data the sample decoder rejects. *)
Lemma other_functions_are_rejected_witness :
  getEncodedPermissionProofData (X := Sample.externals)
    (Sample.validator [Sample.P1; Sample.P2] sudo) "0x05"
  = Err NoMatchingPermission.
Proof.
  exact (proj2
    (other_functions_are_rejected (X := Sample.externals) Sample.client
       (Sample.validatorArgs (Some [Sample.P1; Sample.P2]) sudo)
       (Sample.validator [Sample.P1; Sample.P2] sudo) "0x05"
       sample_keccak_spec eq_refl ltac:(discriminate) I)).
Defined.

(** A plain transfer of value: no call data. *)
Lemma short_call_data_is_unmatched_witness :
  filterOne [Sample.Q1; Sample.Q2] (Sample.A, ("0x", 1)) = Ok None.
Proof.
  apply (short_call_data_is_unmatched [Sample.Q1; Sample.Q2] Sample.A "0x" 1).
  - intros p [<-|[<-|[]]]; reflexivity.
  - cbn. lia.
Defined.

Lemma no_value_limit_means_no_value_witness :
  filterOne (normalizePermissions 0 [Cases.P6]) (Sample.A, (Sample.transferData, 1))
  = Ok None.
Proof.
  apply (no_value_limit_means_no_value [Cases.P6] 0 Sample.A Sample.transferData 1).
  - intros inp [<-|[]]. reflexivity.
  - reflexivity.
Defined.

(** A tree over three hashed leaves, and the proof of the second. *)
Lemma merkle_proof_verifies_witness :
  verify Sample.hash
    (MerkleTreeJs.getHexProof
       (MerkleTreeJs.new Sample.hash ["0x01"; "0x02"; "0x03"] true true)
       (Sample.hash "0x02"))
    (Sample.hash "0x02")
    (MerkleTreeJs.getHexRoot
       (MerkleTreeJs.new Sample.hash ["0x01"; "0x02"; "0x03"] true true))
  = true.
Proof.
  apply (proj2
    (merkle_proof_verifies Sample.hash ["0x01"; "0x02"; "0x03"] true
       (Sample.hash "0x02") ltac:(right; left; reflexivity))).
Defined.

Lemma permission_proofs_verify_witness :
  verify (keccak256 (Externals := Sample.externals))
    (MerkleTreeJs.getHexProof
       (merkleTree (Sample.validator [Sample.P1; Sample.P2; Sample.P3] sudo))
       (keccak256 (Externals := Sample.externals)
          (encodePermissionData (X := Sample.externals)
             (OnePermission Sample.Q2) None)))
    (keccak256 (Externals := Sample.externals)
       (encodePermissionData (X := Sample.externals) (OnePermission Sample.Q2) None))
    (MerkleTreeJs.getHexRoot
       (merkleTree (Sample.validator [Sample.P1; Sample.P2; Sample.P3] sudo)))
  = true.
Proof.
  apply (permission_proofs_verify (X := Sample.externals) Sample.client
           (Sample.validatorArgs (Some [Sample.P1; Sample.P2; Sample.P3]) sudo)
           (Sample.validator [Sample.P1; Sample.P2; Sample.P3] sudo) Sample.Q2 eq_refl).
  right. left. reflexivity.
Defined.

(** The sample signature with recovery id 0. *)
Lemma fixSignedData_idempotent_witness :
  fixSignedData ("0x" ++ Sample.sigR ++ Sample.sigS ++ "1b")
  = Ok ("0x" ++ Sample.sigR ++ Sample.sigS ++ "1b").
Proof.
  exact (proj1
    (fixSignedData_idempotent ("0x" ++ Sample.sigR ++ Sample.sigS ++ "00")
       ("0x" ++ Sample.sigR ++ Sample.sigS ++ "1b") eq_refl)).
Defined.

(** The enable data of the sample validator for the account at B, whose
    last nonce is 0. *)
Lemma session_key_enable_data_layout_witness :
  exists kernelAccountAddress lastNonce invalidNonce,
    Some Sample.B = Some kernelAccountAddress
    /\ readNonces Sample.client "0x5C06CE2b673fD5E6e56076e40DD46aB67f5a72A5"
         kernelAccountAddress
       = Resolved (lastNonce, invalidNonce)
    /\ sk_getEnableData (Sample.validator [Sample.P1; Sample.P2] enable)
         (Some Sample.B)
       = Ok ("0x" ++ "1111111111111111111111111111111111111111"
               ++ Viem.strip0x
                    (MerkleTreeJs.getHexRoot
                       (merkleTree (Sample.validator [Sample.P1; Sample.P2] enable)))
               ++ Js.hexFixed 12 0 ++ Js.hexFixed 12 0
               ++ "0000000000000000000000000000000000000000"
               ++ Js.hexFixed 64 (lastNonce + 1)).
Proof.
  destruct (proj1
    (session_key_enable_data_layout (X := Sample.externals) Sample.client
       (Sample.validatorArgs (Some [Sample.P1; Sample.P2]) enable)
       (Sample.validator [Sample.P1; Sample.P2] enable) (Some Sample.B) _
       sample_keccak_spec eq_refl) ltac:(vm_compute; reflexivity))
    as (k & lastNonce & invalidNonce & H1 & _ & H3 & _ & _ & _ & H7).
  exists k, lastNonce, invalidNonce. split; [exact H1|]. split; [exact H3|].
  injection H3 as <- _. vm_compute. reflexivity.
Defined.

Lemma session_key_enable_data_length_witness :
  exists out,
    sk_getEnableData (Sample.validator [Sample.P1; Sample.P2] enable) (Some Sample.B) = Ok out
    /\ hexLen out = 232%nat
    /\ byteLength out = Ok 116.
Proof.
  eexists. split; [vm_compute; reflexivity|].
  exact (session_key_enable_data_length (X := Sample.externals) Sample.client
           (Sample.validatorArgs (Some [Sample.P1; Sample.P2]) enable)
           (Sample.validator [Sample.P1; Sample.P2] enable) (Some Sample.B) _
           sample_keccak_spec eq_refl eq_refl).
Defined.

(** Signing the transfer in sudo mode. *)
Lemma dummy_signature_mirrors_signature_witness :
  exists out header fixedSignature proofData,
    sk_signUserOperation (X := Sample.externals)
      (Sample.validator [Sample.P1; Sample.P2] sudo) (Sample.userOp "0x01") None
    = Ok out
    /\ out = Viem.concat [header; "0x1111111111111111111111111111111111111111";
                          fixedSignature; proofData]
    /\ sk_getDummySignature (X := Sample.externals)
         (Sample.validator [Sample.P1; Sample.P2] sudo) (Sample.userOp "0x01") None
       = Ok (Viem.concat [header; "0x1111111111111111111111111111111111111111";
                          DUMMY_ECDSA_SIG (Externals := Sample.externals); proofData]).
Proof.
  eexists.
  destruct (dummy_signature_mirrors_signature (X := Sample.externals)
              (Sample.validator [Sample.P1; Sample.P2] sudo) (Sample.userOp "0x01")
              None _ ltac:(vm_compute; reflexivity))
    as (header & fixedSignature & proofData & sg & H1 & H2 & _).
  exists header, fixedSignature, proofData.
  split; [vm_compute; reflexivity|]. split; [exact H1 | exact H2].
Defined.

Lemma enable_mode_needs_enable_signature_witness :
  isOk (sk_signUserOperation (X := Sample.externals)
          (Sample.validator [Sample.P1; Sample.P2] enable) (Sample.userOp "0x01") None)
  = false
  /\ sk_getDummySignature (X := Sample.externals)
       (Sample.validator [Sample.P1; Sample.P2] enable) (Sample.userOp "0x01") None
     = Err EnableSignatureNotSet.
Proof.
  destruct (enable_mode_needs_enable_signature (X := Sample.externals)
              (Sample.validator [Sample.P1; Sample.P2] enable) (Sample.userOp "0x01")
              None eq_refl eq_refl) as (H1 & _ & H3).
  split; [exact H1|]. apply H3. vm_compute. reflexivity.
Defined.

(** The sample ECDSA validator, whose signer returns 65 bytes. *)
Lemma ecdsa_dummy_signature_length_witness :
  exists out s dummy,
    ecdsa_signUserOperation (X := Sample.externals) Sample.ecdsa (Sample.userOp "0x01")
    = Ok out
    /\ signMessage Sample.signer (Sample.hash "0x01") = Resolved s
    /\ getDummySignature (ecdsaPlugin (X := Sample.externals) Sample.ecdsa)
         (Sample.userOp "0x01") None = Ok dummy
    /\ hexLen dummy = 138%nat.
Proof.
  eexists.
  destruct (ecdsa_dummy_signature_length (X := Sample.externals) Sample.ecdsa
              (Sample.userOp "0x01") _ eq_refl)
    as (s & dummy & H1 & H2 & _ & H4 & _).
  exists s, dummy. split; [reflexivity|]. split; [exact H1|]. split; [exact H2 | exact H4].
Defined.

(** An undeployed account over the sample ECDSA validator, at the
    address B the sample getSenderAddress gives. *)
Lemma ecdsa_account_address_witness :
  getSenderAddress (Externals := Sample.externals) Sample.client
    (Viem.concat
       [FACTORY_ADDRESS;
        encodeFunctionData (Externals := Sample.externals)
          (createAccount ACCOUNT_V2_3_LOGIC
             (encodeFunctionData (Externals := Sample.externals)
                (initialize "0xd9AB5096a832b9ce79914329DAEE236f8Eea0390"
                   "0x1111111111111111111111111111111111111111"))
             0)])
    ENTRYPOINT_V0_6
  = Resolved Sample.B
  /\ defaultValidator (Cases.ecdsaAccount None)
     = ecdsaPlugin (X := Sample.externals) Sample.ecdsa.
Proof.
  destruct (ecdsa_account_address (X := Sample.externals) Sample.client
              (Cases.ecdsaAccountArgs None None) Sample.ecdsa (Cases.ecdsaAccount None)
              eq_refl eq_refl eq_refl) as (_ & _ & H3 & H4 & _).
  split; [exact H3 | exact H4].
Defined.

Lemma session_key_default_needs_deployed_account_witness :
  createKernelAccount (X := Sample.externals) Sample.client
    (Cases.sessionKeyAccountArgs (Sample.validator [Sample.P1] sudo) None)
  = Err KernelAccountAddressNotProvided.
Proof.
  exact (proj2
    (session_key_default_needs_deployed_account (X := Sample.externals) Sample.client
       (Cases.sessionKeyAccountArgs (Sample.validator [Sample.P1] sudo) None)
       (Sample.validator [Sample.P1] sudo) eq_refl eq_refl)).
Defined.

(** The sample ECDSA validator as default validator, a session-key
    validator as plugin. *)
Lemma ecdsa_default_cannot_approve_plugin_witness :
  account_signUserOperation
    (Cases.ecdsaAccount
       (Some (sessionKeyPlugin (X := Sample.externals)
                (Sample.validator [Sample.P1] sudo))))
    (Sample.userOp "0x01")
  = Err TypeError.
Proof.
  exact (proj1
    (ecdsa_default_cannot_approve_plugin (X := Sample.externals) Sample.client
       (Cases.ecdsaAccountArgs
          (Some (sessionKeyPlugin (X := Sample.externals)
                   (Sample.validator [Sample.P1] sudo)))
          (Some Sample.B))
       (Cases.ecdsaAccount
          (Some (sessionKeyPlugin (X := Sample.externals)
                   (Sample.validator [Sample.P1] sudo))))
       Sample.ecdsa
       (sessionKeyPlugin (X := Sample.externals) (Sample.validator [Sample.P1] sudo))
       (Sample.userOp "0x01") eq_refl eq_refl eq_refl)).
Defined.

(** A deployed account whose default validator is a session-key validator
    in enable mode. *)
Lemma enable_mode_session_key_never_signs_witness :
  isOk (account_signUserOperation
          (Cases.sessionKeyAccount (Sample.validator [Sample.P1] enable))
          (Sample.userOp "0x01"))
  = false.
Proof.
  exact (proj1
    (enable_mode_session_key_never_signs (X := Sample.externals) Sample.client
       (Cases.sessionKeyAccountArgs (Sample.validator [Sample.P1] enable)
          (Some Sample.B))
       (Cases.sessionKeyAccount (Sample.validator [Sample.P1] enable))
       (Sample.validator [Sample.P1] enable) (Sample.validator [] sudo) Sample.ecdsa
       (Sample.userOp "0x01") eq_refl eq_refl (or_introl (conj eq_refl eq_refl)))).
Defined.

(** The undeployed ECDSA account, with no code at its address. *)
Lemma init_code_matches_address_witness :
  exists initCode_,
    account_getInitCode (X := Sample.externals) Cases.noBytecode
      (Cases.ecdsaAccountArgs None None) (Cases.ecdsaAccount None) = Ok initCode_
    /\ getSenderAddress (Externals := Sample.externals) Sample.client initCode_
         ENTRYPOINT_V0_6 = Resolved Sample.B.
Proof.
  apply (proj2
    (init_code_matches_address (X := Sample.externals) Cases.noBytecode Sample.client
       (Cases.ecdsaAccountArgs None None) (Cases.ecdsaAccount None) None
       eq_refl eq_refl)).
  - cbn. lia.
  - reflexivity.
Defined.



(** P2 (limit 5) does not reach the value 7; of P1 and P3, both of limit
    10, the earlier one is matched. *)
Lemma matched_permission_is_first_of_highest_witness :
  exists before after_,
    [Cases.normalised 0 [Sample.P2; Sample.P1; Sample.P3];
     Cases.normalised 1 [Sample.P2; Sample.P1; Sample.P3];
     Cases.normalised 2 [Sample.P2; Sample.P1; Sample.P3]]
    = (before ++ Cases.normalised 1 [Sample.P2; Sample.P1; Sample.P3] :: after_)%list
    /\ forall q, In q before -> authorises q (Sample.A, (Sample.transferData, 7)) ->
                 valueLimit q < 10.
Proof.
  exact (matched_permission_is_first_of_highest (X := Sample.externals)
           (Sample.validator [Sample.P2; Sample.P1; Sample.P3] sudo) "0x01"
           (Cases.normalised 1 [Sample.P2; Sample.P1; Sample.P3])
           Sample.A 7 Sample.transferData 0 eq_refl eq_refl).
Defined.

Lemma proof_segment_carries_verifying_proofs_witness :
  exists out,
    getEncodedPermissionProofData (X := Sample.externals)
      (Sample.validator [Sample.P1; Sample.P2] sudo) "0x01" = Ok out
    /\ ((exists p proof,
            findMatchingPermissions (X := Sample.externals)
              (Sample.validator [Sample.P1; Sample.P2] sudo) "0x01"
            = Some (MatchedOne p)
            /\ out = encodeAbiParameters (Externals := Sample.externals)
                       (OnePermission p) (Some (bytes32Array, FlatProof proof))
            /\ verify (keccak256 (Externals := Sample.externals)) proof
                 (keccak256 (Externals := Sample.externals)
                    (encodePermissionData (X := Sample.externals)
                       (OnePermission p) None))
                 (MerkleTreeJs.getHexRoot
                    (merkleTree (Sample.validator [Sample.P1; Sample.P2] sudo)))
               = true)
        \/ (exists ps proofs,
              findMatchingPermissions (X := Sample.externals)
                (Sample.validator [Sample.P1; Sample.P2] sudo) "0x01"
              = Some (MatchedMany ps)
              /\ out = encodeAbiParameters (Externals := Sample.externals)
                         (PermissionArray ps)
                         (Some (match ps with
                                | [] => bytes32Array
                                | _ => bytes32ArrayArray
                                end, NestedProof proofs))
              /\ Forall2 (fun p proof =>
                            verify (keccak256 (Externals := Sample.externals)) proof
                              (keccak256 (Externals := Sample.externals)
                                 (encodePermissionData (X := Sample.externals)
                                    (OnePermission p) None))
                              (MerkleTreeJs.getHexRoot
                                 (merkleTree
                                    (Sample.validator [Sample.P1; Sample.P2] sudo)))
                            = true)
                   ps proofs)).
Proof.
  eexists. split; [vm_compute; reflexivity|].
  exact (proof_segment_carries_verifying_proofs (X := Sample.externals) Sample.client
           (Sample.validatorArgs (Some [Sample.P1; Sample.P2]) sudo)
           (Sample.validator [Sample.P1; Sample.P2] sudo) "0x01" _
           sample_keccak_spec eq_refl ltac:(discriminate) eq_refl).
Defined.

(** The enable-mode header of the sample validator, with a 2-byte enable
    signature. *)
Lemma enable_header_layout_witness :
  exists header enableData enableSignature fixedPart,
    getValidatorSignature (X := Sample.externals)
      (Sample.validator [Sample.P1; Sample.P2] enable) Sample.B (Some "0xabcd")
    = Ok header
    /\ sk_getEnableData (Sample.validator [Sample.P1; Sample.P2] enable) (Some Sample.B)
       = Ok enableData
    /\ Some "0xabcd" = Some enableSignature
    /\ String.length fixedPart = 168%nat
    /\ header
       = "0x" ++ Viem.strip0x (modeHex (Externals := Sample.externals) enable)
           ++ fixedPart ++ Viem.strip0x enableData
           ++ Js.hexFixed 64 (N.of_nat (Nat.div2 (String.length enableSignature) - 1))
           ++ Viem.strip0x enableSignature.
Proof.
  eexists.
  destruct (enable_header_layout (X := Sample.externals)
              (Sample.validator [Sample.P1; Sample.P2] enable) Sample.B (Some "0xabcd")
              _ eq_refl ltac:(vm_compute; reflexivity))
    as (enableData & enableSignature & fixedPart & H1 & H2 & _ & H4 & H5).
  exists enableData, enableSignature, fixedPart.
  split; [vm_compute; reflexivity|]. repeat split; assumption.
Defined.


(** Q1 alone matches the transfer of value 7; so do Q1 and Q3 together. *)
Lemma more_permissions_match_more_witness :
  exists p',
    filterOne [Sample.Q1; Sample.Q3] (Sample.A, (Sample.transferData, 7)) = Ok (Some p')
    /\ (valueLimit Sample.Q1 <=? valueLimit p') = true.
Proof.
  destruct (more_permissions_match_more [Sample.Q1] [Sample.Q1; Sample.Q3]
              Sample.A Sample.transferData 7 Sample.Q1 eq_refl
              ltac:(repeat constructor)
              ltac:(intros x [<-|[]]; left; reflexivity) eq_refl)
    as (p' & H1 & H2).
  exists p'. split; [exact H1 | apply N.leb_le; exact H2].
Defined.
